(** * Calcular_Salario: the payroll calculation engine

    A shallow embedding of [Calcular_Salario.py] (the calculation core: value
    formatting and parsing, the progressive INSS withholding, the
    insalubridade split, the proportional discounts, the result text and the
    day-count check; and the callbacks of the form that call them) and the
    properties established for it.

    Python's [float] is IEEE-754 binary64 with round-to-nearest-even: it is
    modelled by Rocq's primitive [float], whose operations are specified by
    [SpecFloat] through the [FloatAxioms] of the standard library. Python's
    [int] is [Z], [str] is [string], and an exception is a [Raise] in the
    error monad [py]. *)

From Stdlib Require Import ZArith List String Ascii Bool Lia Floats Reals Lra.
From Stdlib Require Import DecimalString DecimalPos DecimalFacts.
Import ListNotations.

Set Warnings "-inexact-float".

Local Open Scope string_scope.
Local Open Scope Z_scope.

(** ** Exceptions and the error monad *)

Inductive exn : Type :=
| ValueError
| OverflowError
| ZeroDivisionError
| IndexError
| IllegalMonthError.

Inductive py (A : Type) : Type :=
| Ok (a : A)
| Raise (e : exn).
Arguments Ok {A} a.
Arguments Raise {A} e.

Definition py_bind {A B : Type} (c : py A) (k : A -> py B) : py B :=
  match c with
  | Ok a => k a
  | Raise e => Raise e
  end.

Notation "x <- c ;; k" := (py_bind c (fun x => k))
  (at level 61, c at next level, right associativity).
Notation "' pat <- c ;; k" := (py_bind c (fun x => let 'pat := x in k))
  (at level 61, pat pattern, c at next level, right associativity).

(** ** The Python runtime the program calls *)

Module Py.

(** *** [str] methods *)

Definition nl : string := String (ascii_of_nat 10) EmptyString.

(** [s.replace(old, new)] for a pattern [old] of one character, which is
    every pattern the program uses. *)
Fixpoint replace (old : ascii) (new : string) (s : string) : string :=
  match s with
  | EmptyString => EmptyString
  | String c r =>
      if Ascii.eqb c old then new ++ replace old new r
      else String c (replace old new r)
  end.

Definition is_space (c : ascii) : bool :=
  let n := Z.of_nat (nat_of_ascii c) in
  ((9 <=? n) && (n <=? 13)) || ((28 <=? n) && (n <=? 32)).

Fixpoint lstrip (s : string) : string :=
  match s with
  | String c r => if is_space c then lstrip r else s
  | EmptyString => EmptyString
  end.

Fixpoint rstrip (s : string) : string :=
  match s with
  | EmptyString => EmptyString
  | String c r =>
      match rstrip r with
      | EmptyString => if is_space c then EmptyString else String c EmptyString
      | r' => String c r'
      end
  end.

Definition strip (s : string) : string := rstrip (lstrip s).

(** [sep.join(l)] *)
Definition join (sep : string) (l : list string) : string := String.concat sep l.

(** [str(n)] of an [int], its decimal digits *)
Definition str_int (z : Z) : string := NilZero.string_of_int (Z.to_int z).

(** [f'{n}'] for an [int] [n]: its digits, and [ValueError] when the text
    is longer than 640 and the digits are more than
    [sys.get_int_max_str_digits()] (the parameter [max_str_digits]; [0]
    stands for no limit). *)
Definition format_int (max_str_digits : Z) (n : Z) : py string :=
  let s := str_int n in
  let len := Z.of_nat (String.length s) in
  let digits := if n <? 0 then len - 1 else len in
  if (640 <? len) && (0 <? max_str_digits) && (max_str_digits <? digits)
  then Raise ValueError
  else Ok s.

Definition zeros (n : Z) : string := string_of_list_ascii (repeat "0"%char (Z.to_nat n)).

(** [l[i]] *)
Definition getitem {A : Type} (l : list A) (i : nat) : py A :=
  match nth_error l i with
  | Some a => Ok a
  | None => Raise IndexError
  end.

(** [enumerate(l)] *)
Definition enumerate {A : Type} (l : list A) : list (nat * A) :=
  combine (seq 0 (List.length l)) l.

(** *** [float] operators

    [+], [-] and [*] of two floats are the IEEE operations and never raise;
    [/] raises [ZeroDivisionError] on a zero divisor; a comparison with a NaN
    operand is false. *)

Definition gtb (x y : float) : bool := PrimFloat.ltb y x.

Definition truediv (x y : float) : py float :=
  if PrimFloat.eqb y 0%float then Raise ZeroDivisionError else Ok (PrimFloat.div x y).

(** The conversion of an [int] operand of a mixed operation: the nearest
    float, [OverflowError] when that is out of range. *)
Definition float_of_int (z : Z) : py float :=
  match binary_normalize prec emax z 0 false with
  | S754_infinity _ => Raise OverflowError
  | f => Ok (SF2Prim f)
  end.

(** [x * n] for a float [x] and an int [n] *)
Definition mul_float_int (x : float) (n : Z) : py float :=
  f <- float_of_int n ;; Ok (PrimFloat.mul x f).

(** *** Correctly rounded conversions between floats and decimals *)

(** The integer nearest to [num / den], ties to even ([0 < den]). *)
Definition rne_div (num den : Z) : Z :=
  let q := num / den in
  let r := num mod den in
  match 2 * r ?= den with
  | Lt => q
  | Gt => q + 1
  | Eq => if Z.even q then q else q + 1
  end.

(** [m * 2^e * 10^t] as the fraction [scaled_num m e t / scaled_den e t]. *)
Definition scaled_num (m : positive) (e t : Z) : Z :=
  Z.pos m * 2 ^ Z.max e 0 * 10 ^ Z.max t 0.
Definition scaled_den (e t : Z) : Z :=
  2 ^ Z.max (- e) 0 * 10 ^ Z.max (- t) 0.

(** The float nearest to [n * 10^e10] (sign [neg], [0 <= n]): the IEEE
    quotient of two integers. *)
Definition sf_of_decimal (neg : bool) (n : Z) (e10 : Z) : spec_float :=
  match n with
  | Z.pos p =>
      SFdiv prec emax
        (S754_finite neg (Z.to_pos (Z.pos p * 10 ^ Z.max e10 0)) 0)
        (S754_finite false (Z.to_pos (10 ^ Z.max (- e10) 0)) 0)
  | _ => S754_zero neg
  end.

(** *** [format(x, '.2f')] and [format(x, ',.2f')] *)

Definition sign_str (s : bool) : string := if s then "-" else "".

(** The digits [s] with [sep] between groups of three, counted from the right. *)
Fixpoint group3 (sep : string) (s : string) : string :=
  match s with
  | EmptyString => EmptyString
  | String c r =>
      String c
        ((if (Nat.eqb (Nat.modulo (String.length r) 3) 0) && negb (Nat.eqb (String.length r) 0)
          then sep else "") ++ group3 sep r)
  end.

Definition two_digits (n : Z) : string :=
  str_int (n / 10) ++ str_int (n mod 10).

(** The hundredths [cents], a natural number, in fixed notation. *)
Definition fixed2 (thousands : string) (cents : Z) : string :=
  group3 thousands (str_int (cents / 100)) ++ "." ++ two_digits (cents mod 100).

(** The magnitude of a finite float rounded to hundredths. *)
Definition cents_of (m : positive) (e : Z) : Z :=
  rne_div (scaled_num m e 2) (scaled_den e 2).

Definition format_2f (grouping : bool) (x : float) : string :=
  let thousands := if grouping then "," else "" in
  match Prim2SF x with
  | S754_nan => "nan"
  | S754_infinity s => sign_str s ++ "inf"
  | S754_zero s => sign_str s ++ fixed2 thousands 0
  | S754_finite s m e => sign_str s ++ fixed2 thousands (cents_of m e)
  end.

(** *** [float(s)] for a string [s]

    The grammar of the language reference over ASCII: surrounding white
    space, a sign, digits with single underscores between them, a point, an
    exponent, and the names [inf], [infinity] and [nan] in any case. The
    white space that [float] and [int] skip around an ASCII text is that of
    C's [isspace], which is less than [str.strip] removes. *)

Definition is_c_space (c : ascii) : bool :=
  let n := Z.of_nat (nat_of_ascii c) in
  ((9 <=? n) && (n <=? 13)) || (n =? 32).

Fixpoint lstrip_c (s : string) : string :=
  match s with
  | String c r => if is_c_space c then lstrip_c r else s
  | EmptyString => EmptyString
  end.

Fixpoint rstrip_c (s : string) : string :=
  match s with
  | EmptyString => EmptyString
  | String c r =>
      match rstrip_c r with
      | EmptyString => if is_c_space c then EmptyString else String c EmptyString
      | r' => String c r'
      end
  end.

Definition digit_val (c : ascii) : option Z :=
  let n := Z.of_nat (nat_of_ascii c) in
  if (48 <=? n) && (n <=? 57) then Some (n - 48) else None.

(** After a first digit: the value read so far, the count of digits, the rest. *)
Fixpoint digitpart_tail (l : list ascii) (acc nd : Z) : Z * Z * list ascii :=
  match l with
  | c :: r =>
      match digit_val c with
      | Some d => digitpart_tail r (10 * acc + d) (nd + 1)
      | None =>
          if Ascii.eqb c "_"%char then
            match r with
            | c' :: r' =>
                match digit_val c' with
                | Some d => digitpart_tail r' (10 * acc + d) (nd + 1)
                | None => (acc, nd, l)
                end
            | [] => (acc, nd, l)
            end
          else (acc, nd, l)
      end
  | [] => (acc, nd, l)
  end.

Definition digitpart (l : list ascii) (acc : Z) : option (Z * Z * list ascii) :=
  match l with
  | c :: r =>
      match digit_val c with
      | Some d => Some (digitpart_tail r (10 * acc + d) 1)
      | None => None
      end
  | [] => None
  end.

Definition lower (c : ascii) : ascii :=
  let n := nat_of_ascii c in
  if (Nat.leb 65 n) && (Nat.leb n 90) then ascii_of_nat (n + 32) else c.

Definition parse_sign (l : list ascii) : bool * list ascii :=
  match l with
  | c :: r =>
      if Ascii.eqb c "-"%char then (true, r)
      else if Ascii.eqb c "+"%char then (false, r)
      else (false, l)
  | [] => (false, l)
  end.

(** All the digits as one integer, the count of those after the point, the rest. *)
Definition parse_number (l : list ascii) : option (Z * Z * list ascii) :=
  match digitpart l 0 with
  | Some (n, _, r) =>
      match r with
      | c :: r1 =>
          if Ascii.eqb c "."%char then
            match digitpart r1 n with
            | Some (n', k, r2) => Some (n', k, r2)
            | None => Some (n, 0, r1)
            end
          else Some (n, 0, r)
      | [] => Some (n, 0, r)
      end
  | None =>
      match l with
      | c :: r1 =>
          if Ascii.eqb c "."%char then digitpart r1 0 else None
      | [] => None
      end
  end.

Definition parse_exponent (l : list ascii) : option Z :=
  match l with
  | [] => Some 0
  | c :: r =>
      if Ascii.eqb (lower c) "e"%char then
        let '(s, r1) := parse_sign r in
        match digitpart r1 0 with
        | Some (n, _, []) => Some (if s then - n else n)
        | _ => None
        end
      else None
  end.

Definition sf_of_string (s : string) : option spec_float :=
  let '(neg, l) := parse_sign (list_ascii_of_string (rstrip_c (lstrip_c s))) in
  let w := string_of_list_ascii (map lower l) in
  if String.eqb w "inf" || String.eqb w "infinity" then Some (S754_infinity neg)
  else if String.eqb w "nan" then Some S754_nan
  else
    match parse_number l with
    | Some (n, k, r) =>
        match parse_exponent r with
        | Some e => Some (sf_of_decimal neg n (e - k))
        | None => None
        end
    | None => None
    end.

Definition float_of_str (s : string) : py float :=
  match sf_of_string s with
  | Some f => Ok (SF2Prim f)
  | None => Raise ValueError
  end.

(** *** [repr(x)], the text of a float in an f-string: the shortest decimal
    that reads back as [x], the one nearest to [x] among the shortest. *)

Definition ndigits10 (n : Z) : Z := Z.of_nat (String.length (str_int n)).

(** The least [j], from [j] on, with [1 <= m * 2^e * 10^j]. *)
Fixpoint first_ge1 (fuel : nat) (m : positive) (e j : Z) : Z :=
  match fuel with
  | O => j
  | S f =>
      if scaled_den e j <=? scaled_num m e j then j
      else first_ge1 f m e (j + 1)
  end.

(** The [p] with [10^(p-1) <= m * 2^e < 10^p]. *)
Definition decpt_of (m : positive) (e : Z) : Z :=
  let ip := scaled_num m e 0 / scaled_den e 0 in
  if 1 <=? ip then ndigits10 ip
  else 1 - first_ge1 400 m e 1.

Definition roundtrips (x : spec_float) (c t : Z) : bool :=
  match SFcompare (sf_of_decimal false c (- t)) (SFabs x) with
  | Some Eq => true
  | _ => false
  end.

(** For [k] digits, [k = 1 ..], the two decimals of [k] digits around the
    value; the first [k] at which one of them reads back gives the digits. *)
Fixpoint shortest (fuel : nat) (x : spec_float) (m : positive) (e p k : Z) : Z * Z :=
  let t := k - p in
  let num := scaled_num m e t in
  let den := scaled_den e t in
  let lo := num / den in
  let r := num mod den in
  let hi := if r =? 0 then lo else lo + 1 in
  let pick :=
    match roundtrips x lo t, roundtrips x hi t with
    | true, true =>
        match 2 * r ?= den with
        | Lt => Some lo
        | Gt => Some hi
        | Eq => Some (if Z.even lo then lo else hi)
        end
    | true, false => Some lo
    | false, true => Some hi
    | false, false => None
    end in
  match pick with
  | Some c => (c, t)
  | None =>
      match fuel with
      | O => (rne_div num den, t)
      | S f => shortest f x m e p (k + 1)
      end
  end.

Fixpoint strip_zeros (fuel : nat) (c t : Z) : Z * Z :=
  match fuel with
  | O => (c, t)
  | S f =>
      if (c mod 10 =? 0) && negb (c =? 0) then strip_zeros f (c / 10) (t - 1)
      else (c, t)
  end.

Definition exp_str (x : Z) : string :=
  (if x <? 0 then "-" else "+") ++
  (if Z.abs x <? 10 then "0" else "") ++ str_int (Z.abs x).

(** The digits [ds] with the point after the first [decpt] of them. *)
Definition repr_digits (ds : string) (decpt : Z) : string :=
  let n := Z.of_nat (String.length ds) in
  if (-4 <? decpt) && (decpt <=? 16) then
    if decpt <=? 0 then "0." ++ zeros (- decpt) ++ ds
    else if n <=? decpt then ds ++ zeros (decpt - n) ++ ".0"
    else substring 0 (Z.to_nat decpt) ds ++ "." ++
         substring (Z.to_nat decpt) (Z.to_nat (n - decpt)) ds
  else
    substring 0 1 ds ++
    (if 1 <? n then "." ++ substring 1 (Z.to_nat (n - 1)) ds else "") ++
    "e" ++ exp_str (decpt - 1).

Definition repr (x : float) : string :=
  match Prim2SF x with
  | S754_nan => "nan"
  | S754_infinity s => sign_str s ++ "inf"
  | S754_zero s => sign_str s ++ "0.0"
  | S754_finite s m e =>
      let p := decpt_of m e in
      let '(c, t) := shortest 16 (Prim2SF x) m e p 1 in
      let '(c', t') := strip_zeros 20 c t in
      let ds := str_int c' in
      sign_str s ++ repr_digits ds (Z.of_nat (String.length ds) - t')
  end.

(** *** [int(s)] for a string [s], [s.isdigit()] and [a / b] for two ints

    Over ASCII. [int] skips the white space of C's [isspace], reads a sign
    and digits with single underscores between them, and raises
    [ValueError] on anything else, also when the digits are more than 640
    and more than [sys.get_int_max_str_digits()] (the parameter
    [max_str_digits]; [0] stands for no limit). *)

Definition isdigit (c : ascii) : bool :=
  match digit_val c with Some _ => true | None => false end.

Fixpoint all_chars (P : ascii -> bool) (s : string) : bool :=
  match s with
  | EmptyString => true
  | String c r => P c && all_chars P r
  end.


(** [''.join(c for c in s if P(c))] *)
Fixpoint filter (P : ascii -> bool) (s : string) : string :=
  match s with
  | EmptyString => EmptyString
  | String c r => if P c then String c (filter P r) else filter P r
  end.

(** [s.isascii()] *)
Definition isascii (s : string) : bool :=
  all_chars (fun c => Z.of_nat (nat_of_ascii c) <? 128) s.

Definition int_of_str (max_str_digits : Z) (s : string) : py Z :=
  let '(neg, l) := parse_sign (list_ascii_of_string (rstrip_c (lstrip_c s))) in
  match digitpart l 0 with
  | Some (n, nd, []) =>
      if (640 <? nd) && (0 <? max_str_digits) && (max_str_digits <? nd) then Raise ValueError
      else Ok (if neg then - n else n)
  | _ => Raise ValueError
  end.

(** [a / b] for two ints: the float nearest to the quotient,
    [ZeroDivisionError] for a zero divisor and [OverflowError] when the
    quotient is out of the range of the floats. *)
Definition int_truediv (a b : Z) : py float :=
  if b =? 0 then Raise ZeroDivisionError
  else if a =? 0 then Ok (SF2Prim (S754_zero (b <? 0)))
  else
    match SFdiv prec emax (S754_finite (a <? 0) (Z.to_pos (Z.abs a)) 0)
                          (S754_finite (b <? 0) (Z.to_pos (Z.abs b)) 0) with
    | S754_infinity _ => Raise OverflowError
    | f => Ok (SF2Prim f)
    end.

End Py.

(** ** The [locale] module: [locale.currency(val, symbol=False, grouping=True)]

    The monetary conventions in effect are a parameter of the process. A
    locale with conventions has two fraction digits, groups of three and the
    sign before the value, as [pt_BR] and [en_US] have; the C locale has none
    and [currency] raises [ValueError] there. *)

Module locale.

Record lconv : Type := {
  mon_decimal_point : string;
  mon_thousands_sep : string;
  negative_sign : string
}.

Definition pt_BR : option lconv :=
  Some {| mon_decimal_point := ","; mon_thousands_sep := "."; negative_sign := "-" |}.
Definition en_US : option lconv :=
  Some {| mon_decimal_point := "."; mon_thousands_sep := ","; negative_sign := "-" |}.
Definition C : option lconv := None.

(** [_localize(f'{abs(val):.2f}', grouping, monetary=True)] *)
Definition localize (conv : lconv) (a : float) : string :=
  match Prim2SF a with
  | S754_finite _ m e =>
      Py.group3 (mon_thousands_sep conv) (Py.str_int (Py.cents_of m e / 100))
        ++ mon_decimal_point conv ++ Py.two_digits (Py.cents_of m e mod 100)
  | S754_zero _ => "0" ++ mon_decimal_point conv ++ "00"
  | _ => Py.format_2f false a
  end.

Definition currency (loc : option lconv) (val : float) : py string :=
  match loc with
  | None => Raise ValueError
  | Some conv =>
      Ok ((if PrimFloat.ltb val 0%float then negative_sign conv else "")
            ++ localize conv (PrimFloat.abs val))
  end.

End locale.

(** ** The [calendar] module: [calendar.monthrange(year, month)] *)

Module calendar.

Definition isleap (year : Z) : bool :=
  (year mod 4 =? 0) && (negb (year mod 100 =? 0) || (year mod 400 =? 0)).

Definition mdays : list Z := [0; 31; 28; 31; 30; 31; 30; 31; 31; 30; 31; 30; 31].

Definition days_before_year (year : Z) : Z :=
  let y := year - 1 in y * 365 + y / 4 - y / 100 + y / 400.

Definition days_in_month (year month : Z) : Z :=
  nth (Z.to_nat month) mdays 0 + (if (month =? 2) && isleap year then 1 else 0).

Definition days_before_month (year month : Z) : Z :=
  fold_right Z.add 0 (map (days_in_month year) (map Z.of_nat (seq 1 (Z.to_nat month - 1)))).

(** [weekday(year, month, day)], Monday is 0; a year outside 1..9999 is
    replaced by the year of the same calendar in the 400-year cycle. *)
Definition weekday (year month day : Z) : Z :=
  let year := if (1 <=? year) && (year <=? 9999) then year else 2000 + year mod 400 in
  (days_before_year year + days_before_month year month + day + 6) mod 7.

Definition monthrange (year month : Z) : py (Z * Z) :=
  if negb ((1 <=? month) && (month <=? 12)) then Raise IllegalMonthError
  else Ok (weekday year month 1, days_in_month year month).

End calendar.

(** ** The program *)

Local Open Scope float_scope.

Definition SEPARATOR : string :=
  "--------------------------------------------------------------------".

Definition INSS_LIMITS : list float := [1518.00; 2793.88; 4190.83; 8157.41].
Definition INSS_RATES : list float := [0.075; 0.09; 0.12; 0.14].

Definition SALARIO_MINIMO : float := 1518.00.

(** *** Formatting and parsing *)

(** [formatar_valor], under the monetary conventions [loc] of the process:
    the text of [locale.currency], and the f-string with its separators
    swapped when that call raises. *)
Definition formatar_valor (loc : option locale.lconv) (valor : float) : string :=
  match locale.currency loc valor with
  | Ok s => Py.strip s
  | Raise _ =>
      Py.replace "X" "." (Py.replace "." "," (Py.replace "," "X" (Py.format_2f true valor)))
  end.

Definition limpar_formato (valor : string) : py float :=
  if String.eqb valor "" then Ok 0.0
  else Py.float_of_str (Py.replace "," "." (Py.replace "." "" valor)).

(** *** Financial calculations *)

(** The [for] loop of [calcular_inss] over [enumerate(INSS_LIMITS)], with
    the running [inss_total] and [lower]; the [else] branch returns. *)
Fixpoint inss_loop (salario_bruto : float) (faixas : list (nat * float))
    (inss_total lower : float) : py float :=
  match faixas with
  | [] => Ok inss_total
  | (i, upper) :: rest =>
      rate <- Py.getitem INSS_RATES i ;;
      if Py.gtb salario_bruto upper then
        inss_loop salario_bruto rest (inss_total + (upper - lower) * rate) upper
      else
        Ok (inss_total + (salario_bruto - lower) * rate)
  end.

Definition calcular_inss (salario_bruto : float) : py float :=
  if salario_bruto <=? 0 then Ok 0.0
  else inss_loop salario_bruto (Py.enumerate INSS_LIMITS) 0.0 0.0.

Definition calcular_insalubridade (percentual : float) : py (float * float * float) :=
  if percentual <=? 0 then Ok (0.0, 0.0, 0.0)
  else
    q <- Py.truediv percentual 100.0 ;;
    let insal_total := SALARIO_MINIMO * q in
    let parcela_40 := insal_total * 0.40 in
    let parcela_60 := insal_total * 0.60 in
    Ok (insal_total, parcela_40, parcela_60).

Definition calcular_vr (valor_vr : float) (dias_vr : Z) (percentual_desconto : float)
    : py float :=
  if Py.gtb percentual_desconto 0 && Py.gtb valor_vr 0 && (dias_vr >? 0)%Z then
    v <- Py.mul_float_int valor_vr dias_vr ;;
    q <- Py.truediv percentual_desconto 100.0 ;;
    Ok (v * q)
  else Ok 0.0.

Definition calcular_vt (salario_bruto percentual_desconto : float) : py float :=
  if Py.gtb percentual_desconto 0 && Py.gtb salario_bruto 0 then
    q <- Py.truediv percentual_desconto 100.0 ;;
    Ok (salario_bruto * q)
  else Ok 0.0.

(** *** The result text *)

(** The local variables of [get_resultados_string]. *)
Record valores : Type := {
  desconto_inss : float;
  insal_total : float;
  parcela_40 : float;
  parcela_60 : float;
  desconto_vr : float;
  desconto_vt : float;
  desconto_saude : float;
  desconto_odonto : float;
  adiantamento_40 : float;
  adiantamento_insalubridade_40 : float;
  salario_liquido : float;
  valor_vr_total : float;
  percentual_inss : float;
  total_descontos : float
}.

(** The computations of [get_resultados_string], in the order of the source;
    the third line of text formats [dias_vr] and then computes
    [valor_vr * dias_vr], the [valor_vr_total]. *)
Definition calcular_valores (max_str_digits : Z)
    (salario_bruto adiantamento_salario insalubridade_percentual valor_vr : float)
    (dias_vr : Z)
    (desconto_vr_percentual desconto_vt_percentual desconto_saude_percentual
       desconto_odonto_percentual : float) : py valores :=
  desconto_inss <- calcular_inss salario_bruto ;;
  '(insal_total, parcela_40, parcela_60) <- calcular_insalubridade insalubridade_percentual ;;
  desconto_vr <- calcular_vr valor_vr dias_vr desconto_vr_percentual ;;
  desconto_vt <- calcular_vt salario_bruto desconto_vt_percentual ;;
  desconto_saude <- calcular_vt salario_bruto desconto_saude_percentual ;;
  desconto_odonto <- calcular_vt salario_bruto desconto_odonto_percentual ;;
  q <- Py.truediv adiantamento_salario 100.0 ;;
  let adiantamento_40 := q * salario_bruto in
  let adiantamento_insalubridade_40 := parcela_40 in
  let salario_liquido :=
    salario_bruto - desconto_inss - desconto_vr - desconto_vt - desconto_saude
      - desconto_odonto + insal_total in
  _ <- Py.format_int max_str_digits dias_vr ;;
  valor_vr_total <- Py.mul_float_int valor_vr dias_vr ;;
  percentual_inss <-
    (if Py.gtb salario_bruto 0 then
       r <- Py.truediv desconto_inss salario_bruto ;; Ok (r * 100.0)
     else Ok 0.0) ;;
  let total_descontos :=
    desconto_inss + desconto_vr + desconto_vt + desconto_saude + desconto_odonto in
  Ok {| desconto_inss := desconto_inss;
        insal_total := insal_total;
        parcela_40 := parcela_40;
        parcela_60 := parcela_60;
        desconto_vr := desconto_vr;
        desconto_vt := desconto_vt;
        desconto_saude := desconto_saude;
        desconto_odonto := desconto_odonto;
        adiantamento_40 := adiantamento_40;
        adiantamento_insalubridade_40 := adiantamento_insalubridade_40;
        salario_liquido := salario_liquido;
        valor_vr_total := valor_vr_total;
        percentual_inss := percentual_inss;
        total_descontos := total_descontos |}.

Definition obs : string :=
  " Reais. | Obs.: A empresa pode (ou não) arredondar.".

(** The line of a discount category: its value when the percentage is
    positive, the notice otherwise. *)
Definition linha_desconto (loc : option locale.lconv) (nome : string)
    (percentual valor : float) : string :=
  if Py.gtb percentual 0 then
    Py.nl ++ "- Valor Desconto " ++ nome ++ " (" ++ Py.repr percentual ++ "%): R$ "
      ++ formatar_valor loc valor
  else
    Py.nl ++ "- Sem desconto de " ++ nome ++ ".".

Definition linha_inss (loc : option locale.lconv) (v : valores) : string :=
  Py.nl ++ "- Valor Desconto INSS (" ++ Py.format_2f false (percentual_inss v) ++ "%): R$ "
    ++ formatar_valor loc (desconto_inss v).

(** The list [linhas] at the end of [get_resultados_string]. *)
Definition linhas (loc : option locale.lconv) (salario_bruto adiantamento_salario : float)
    (dias_vr : Z)
    (desconto_vr_percentual desconto_vt_percentual desconto_saude_percentual
       desconto_odonto_percentual : float) (v : valores) : list string :=
  let fmt := formatar_valor loc in
  [ "- Salário Bruto: R$ " ++ fmt salario_bruto;
    Py.nl ++ "- Valor Adiantamento Salário (" ++ Py.repr adiantamento_salario ++ "%): R$ "
      ++ fmt (adiantamento_40 v);
    Py.nl ++ "- Valor VR (" ++ Py.str_int dias_vr ++ " Dias): R$ " ++ fmt (valor_vr_total v);
    Py.nl ++ "- Valor Adiantamento Insalubridade: R$ "
      ++ fmt (adiantamento_insalubridade_40 v) ++ obs;
    Py.nl ++ "- Valor Final Insalubridade: R$ " ++ fmt (parcela_60 v);
    Py.nl ++ "- Valor Adiantamento Insalubridade (40%) + Valor Adiantamento Salário ("
      ++ Py.repr adiantamento_salario ++ "%): R$ "
      ++ fmt (adiantamento_40 v + adiantamento_insalubridade_40 v) ++ obs;
    SEPARATOR;
    linha_inss loc v;
    linha_desconto loc "VR" desconto_vr_percentual (desconto_vr v);
    linha_desconto loc "VT" desconto_vt_percentual (desconto_vt v);
    linha_desconto loc "Plano de Saúde" desconto_saude_percentual (desconto_saude v);
    linha_desconto loc "Plano Odontológico" desconto_odonto_percentual (desconto_odonto v);
    Py.nl ++ "- Valor Total Desconto (INSS + VR + VT + Saúde + Odontológico): R$ "
      ++ fmt (total_descontos v);
    SEPARATOR;
    Py.nl ++ "- Total de Proventos: R$ " ++ fmt (salario_bruto + insal_total v) ++ obs;
    Py.nl ++ "- Total Insalubridade: R$ " ++ fmt (insal_total v) ++ obs;
    SEPARATOR;
    Py.nl ++ "- Salário Líquido: R$ " ++ fmt (salario_liquido v) ++ obs;
    SEPARATOR ].

Definition get_resultados_string (loc : option locale.lconv) (max_str_digits : Z)
    (salario_bruto adiantamento_salario insalubridade_percentual valor_vr : float)
    (dias_vr : Z)
    (desconto_vr_percentual desconto_vt_percentual desconto_saude_percentual
       desconto_odonto_percentual : float) : py string :=
  v <- calcular_valores max_str_digits salario_bruto adiantamento_salario
         insalubridade_percentual valor_vr dias_vr desconto_vr_percentual
         desconto_vt_percentual desconto_saude_percentual desconto_odonto_percentual ;;
  Ok (Py.join Py.nl
        (linhas loc salario_bruto adiantamento_salario dias_vr desconto_vr_percentual
           desconto_vt_percentual desconto_saude_percentual desconto_odonto_percentual v)).

(** *** Validation *)

Definition verificar_dias_validos (ano mes dias_trab_mes : Z) : py bool :=
  if ((mes <? 1) || (mes >? 12))%Z then Ok false
  else
    '(_, dias_no_mes) <- calendar.monthrange ano mes ;;
    Ok ((0 <=? dias_trab_mes) && (dias_trab_mes <=? dias_no_mes))%Z.

Local Open Scope string_scope.
Local Open Scope float_scope.

(** ** The form

    The functions that [gui_main] binds to the entries and buttons, on the
    texts of the [StringVar]s; the widgets themselves are not modelled.
    The texts are ASCII. *)

(** *** Validation and formatting of the entries *)

(** [format_money_input], on the text [widget.get()] returns. *)
Definition format_money_input (current_value : string) : py bool :=
  let clean_value := Py.replace "," "." (Py.replace "." "" current_value) in
  match (if String.eqb clean_value "" then Ok tt
         else _ <- Py.float_of_str clean_value ;; Ok tt) with
  | Ok _ => Ok true
  | Raise ValueError => Ok false
  | Raise e => Raise e
  end.


(** [validate_percent], on the text of [sv]: the text of [sv] afterwards and
    whether the error box was shown. *)
Definition validate_percent (value : string) : py (string * bool) :=
  if String.eqb value "" then Ok (value, false)
  else
    match (let clean_value := Py.replace "," "." (Py.replace "." "" value) in
           percent <- Py.float_of_str clean_value ;;
           if Py.gtb percent 100 then Ok ("", true) else Ok (value, false)) with
    | Raise ValueError => Ok (value, false)
    | r => r
    end.

(** [on_key_release_monetary], on the text of [var]: the text of [var]
    afterwards; an exception leaves the callback before [var.set]. *)
Definition on_key_release_monetary (loc : option locale.lconv) (max_str_digits : Z)
    (text : string) : py string :=
  let digits := Py.filter Py.isdigit text in
  if String.eqb digits "" then Ok text
  else
    int_value <- Py.int_of_str max_str_digits digits ;;
    q <- Py.int_truediv int_value 100 ;;
    Ok (formatar_valor loc q).

(** *** The [StringVar]s of the form *)

Record campos : Type := {
  salario_bruto_var : string;
  adiantamento_var : string;
  ano_var : string;
  mes_var : string;
  dias_mes_var : string;
  insal_var : string;
  valor_vr_var : string;
  dias_vr_var : string;
  tem_desconto_vr_var : string;
  desconto_vr_perc_var : string;
  tem_desconto_vt_var : string;
  desconto_vt_perc_var : string;
  tem_desconto_saude_var : string;
  desconto_saude_perc_var : string;
  tem_desconto_odonto_var : string;
  desconto_odonto_perc_var : string
}.

(** The four [toggle_*] functions, traced on the writes of their variable:
    anything but ["S"] empties the percentage. *)
Definition toggle_vr (f : campos) : campos :=
  if String.eqb (tem_desconto_vr_var f) "S" then f
  else {| salario_bruto_var := salario_bruto_var f;
          adiantamento_var := adiantamento_var f;
          ano_var := ano_var f;
          mes_var := mes_var f;
          dias_mes_var := dias_mes_var f;
          insal_var := insal_var f;
          valor_vr_var := valor_vr_var f;
          dias_vr_var := dias_vr_var f;
          tem_desconto_vr_var := tem_desconto_vr_var f;
          desconto_vr_perc_var := "";
          tem_desconto_vt_var := tem_desconto_vt_var f;
          desconto_vt_perc_var := desconto_vt_perc_var f;
          tem_desconto_saude_var := tem_desconto_saude_var f;
          desconto_saude_perc_var := desconto_saude_perc_var f;
          tem_desconto_odonto_var := tem_desconto_odonto_var f;
          desconto_odonto_perc_var := desconto_odonto_perc_var f |}.

Definition toggle_vt (f : campos) : campos :=
  if String.eqb (tem_desconto_vt_var f) "S" then f
  else {| salario_bruto_var := salario_bruto_var f;
          adiantamento_var := adiantamento_var f;
          ano_var := ano_var f;
          mes_var := mes_var f;
          dias_mes_var := dias_mes_var f;
          insal_var := insal_var f;
          valor_vr_var := valor_vr_var f;
          dias_vr_var := dias_vr_var f;
          tem_desconto_vr_var := tem_desconto_vr_var f;
          desconto_vr_perc_var := desconto_vr_perc_var f;
          tem_desconto_vt_var := tem_desconto_vt_var f;
          desconto_vt_perc_var := "";
          tem_desconto_saude_var := tem_desconto_saude_var f;
          desconto_saude_perc_var := desconto_saude_perc_var f;
          tem_desconto_odonto_var := tem_desconto_odonto_var f;
          desconto_odonto_perc_var := desconto_odonto_perc_var f |}.

Definition toggle_saude (f : campos) : campos :=
  if String.eqb (tem_desconto_saude_var f) "S" then f
  else {| salario_bruto_var := salario_bruto_var f;
          adiantamento_var := adiantamento_var f;
          ano_var := ano_var f;
          mes_var := mes_var f;
          dias_mes_var := dias_mes_var f;
          insal_var := insal_var f;
          valor_vr_var := valor_vr_var f;
          dias_vr_var := dias_vr_var f;
          tem_desconto_vr_var := tem_desconto_vr_var f;
          desconto_vr_perc_var := desconto_vr_perc_var f;
          tem_desconto_vt_var := tem_desconto_vt_var f;
          desconto_vt_perc_var := desconto_vt_perc_var f;
          tem_desconto_saude_var := tem_desconto_saude_var f;
          desconto_saude_perc_var := "";
          tem_desconto_odonto_var := tem_desconto_odonto_var f;
          desconto_odonto_perc_var := desconto_odonto_perc_var f |}.

Definition toggle_odonto (f : campos) : campos :=
  if String.eqb (tem_desconto_odonto_var f) "S" then f
  else {| salario_bruto_var := salario_bruto_var f;
          adiantamento_var := adiantamento_var f;
          ano_var := ano_var f;
          mes_var := mes_var f;
          dias_mes_var := dias_mes_var f;
          insal_var := insal_var f;
          valor_vr_var := valor_vr_var f;
          dias_vr_var := dias_vr_var f;
          tem_desconto_vr_var := tem_desconto_vr_var f;
          desconto_vr_perc_var := desconto_vr_perc_var f;
          tem_desconto_vt_var := tem_desconto_vt_var f;
          desconto_vt_perc_var := desconto_vt_perc_var f;
          tem_desconto_saude_var := tem_desconto_saude_var f;
          desconto_saude_perc_var := desconto_saude_perc_var f;
          tem_desconto_odonto_var := tem_desconto_odonto_var f;
          desconto_odonto_perc_var := "" |}.

(** *** The button [Calcular] *)

(** What [calcular] shows: an error box with a message of its own, the
    error box of the [except] clause for the exception caught, or the
    result text. *)
Inductive saida : Type :=
| Erro (mensagem : string)
| Excecao (e : exn)
| Resultado (resultados : string).

(** [int(s or 0)] *)
Definition int_or_0 (max_str_digits : Z) (s : string) : py Z :=
  if String.eqb s "" then Ok 0%Z else Py.int_of_str max_str_digits s.

Definition required_vars (f : campos) : list string :=
  [salario_bruto_var f; adiantamento_var f; ano_var f; mes_var f; dias_mes_var f;
   insal_var f; valor_vr_var f; dias_vr_var f].

Definition calcular (loc : option locale.lconv) (max_str_digits : Z) (f : campos) : saida :=
  if forallb (fun v => String.eqb (Py.strip v) "") (required_vars f) then
    Erro "Por favor, preencha os campos."
  else
    match (salario_bruto <- limpar_formato (salario_bruto_var f) ;;
           adiantamento_salario <- limpar_formato (adiantamento_var f) ;;
           ano <- int_or_0 max_str_digits (ano_var f) ;;
           mes <- int_or_0 max_str_digits (mes_var f) ;;
           dias_mes <- int_or_0 max_str_digits (dias_mes_var f) ;;
           insal_perc <- limpar_formato (insal_var f) ;;
           valor_vr <- limpar_formato (valor_vr_var f) ;;
           dias_vr <- int_or_0 max_str_digits (dias_vr_var f) ;;
           desconto_vr_perc <- limpar_formato (desconto_vr_perc_var f) ;;
           desconto_vt_perc <- limpar_formato (desconto_vt_perc_var f) ;;
           desconto_saude_perc <- limpar_formato (desconto_saude_perc_var f) ;;
           desconto_odonto_perc <- limpar_formato (desconto_odonto_perc_var f) ;;
           if ((ano <? 1900) || (ano >? 2100))%Z then
             Ok (Erro "Ano inválido. Por favor, insira um ano entre 1900 e 2100.")
           else
             valido <- verificar_dias_validos ano mes dias_mes ;;
             if negb valido then
               Ok (Erro "Número de dias inválido para o mês/ano.")
             else
               resultados <- get_resultados_string loc max_str_digits salario_bruto
                               adiantamento_salario insal_perc valor_vr dias_vr
                               desconto_vr_perc desconto_vt_perc desconto_saude_perc
                               desconto_odonto_perc ;;
               Ok (Resultado resultados)) with
    | Ok s => s
    | Raise e => Excecao e
    end.

(** ** The real value of a float and the rounding of the IEEE operations

    The definitions the proofs about rounded arithmetic use: the value of a
    [spec_float] as a real number, and what [binary_round_aux] computes, as a
    function of the exact value it is given. *)

Local Open Scope Z_scope.

Definition bpow (e : Z) : R := powerRZ 2 e.
Arguments bpow : simpl never.

(** The location of [num / den] within its unit interval. *)
Definition loc_of_frac (r d : Z) : location :=
  if r =? 0 then loc_Exact else loc_Inexact (2 * r ?= d).

Definition rec_of_frac (num den : Z) : shr_record :=
  shr_record_of_loc (num / den) (loc_of_frac (num mod den) den).

(** The exponent and the mantissa of the float nearest to
    [num / den * 2^e]. *)
Definition rnd_exp (num den e : Z) : Z :=
  SpecFloat.fexp prec emax (Zdigits2 (num / den) + e).
Definition rnd_man (num den e : Z) : Z :=
  Py.rne_div num (den * 2 ^ (rnd_exp num den e - e)).

Definition sgn (s : bool) : R := if s then (-1)%R else 1%R.

(** The value of a float; an infinity stands at [2^1024], beyond every
    finite float. *)
Definition SF2R (x : spec_float) : R :=
  match x with
  | S754_finite s m e => (sgn s * (IZR (Z.pos m) * bpow e))%R
  | S754_infinity s => (sgn s * bpow 1024)%R
  | _ => 0%R
  end.

Definition rnd_val (num den e : Z) : R :=
  (IZR (rnd_man num den e) * bpow (rnd_exp num den e))%R.

Definition clamp (v : R) : R := Rmin v (bpow 1024).

(** [rounds v r]: the value [v >= 0] rounds to [r]. *)
Inductive rounds (v r : R) : Prop :=
| rounds_intro (num den e : Z) :
    0 <= num -> 0 < den -> e <= rnd_exp num den e ->
    v = (IZR num / IZR den * bpow e)%R ->
    r = clamp (rnd_val num den e) ->
    rounds v r.

Definition rounds_s (v r : R) : Prop :=
  ((0 <= v)%R /\ rounds v r) \/ ((v <= 0)%R /\ rounds (- v) (- r)).

Definition is_nan (x : spec_float) : bool :=
  match x with S754_nan => true | _ => false end.

Definition finz (x : spec_float) : bool :=
  match x with
  | S754_zero _ | S754_finite _ _ _ => true
  | _ => false
  end.

Definition cmp_R (c : comparison) (a b : R) : Prop :=
  match c with
  | Lt => (a < b)%R
  | Eq => a = b
  | Gt => (b < a)%R
  end.

Definition FR (x : float) : R := SF2R (Prim2SF x).
Definition fnan (x : float) : bool := is_nan (Prim2SF x).

(** ** Definitions of the statements *)

Local Open Scope float_scope.

(** The loop of [calcular_inss] from the state [(total, lower)] is defined
    and monotone on the salaries from [lower] on, and stays above [total]. *)
Definition loop_monotone (faixas : list (nat * float)) (total lower : float) : Prop :=
  forall g1 g2, (lower <=? g1) = true -> (g1 <=? g2) = true ->
    exists v1 v2,
      inss_loop g1 faixas total lower = Ok v1 /\
      inss_loop g2 faixas total lower = Ok v2 /\
      (v1 <=? v2) = true /\ (total <=? v1) = true.

(** The contribution ceiling: the sum over the brackets of
    [(upper - lower) * rate]. *)
Definition teto_inss : float :=
  fold_left (fun total '(lower, upper, rate) => total + (upper - lower) * rate)
    (combine (combine (0 :: removelast INSS_LIMITS) INSS_LIMITS) INSS_RATES) 0.

(** The Gregorian rule: divisible by 4, except the centuries not divisible
    by 400; and the days of a month under it. *)
Definition gregorian_leap (year : Z) : Prop :=
  (4 | year)%Z /\ ~ ((100 | year)%Z /\ ~ (400 | year)%Z).

Inductive days_of_month (year : Z) : Z -> Z -> Prop :=
| days_31 (m : Z) : In m [1; 3; 5; 7; 8; 10; 12]%Z -> days_of_month year m 31
| days_30 (m : Z) : In m [4; 6; 9; 11]%Z -> days_of_month year m 30
| days_feb_leap : gregorian_leap year -> days_of_month year 2 29
| days_feb_common : ~ gregorian_leap year -> days_of_month year 2 28.


(** The percentage [n / 100], as the form reads it from a text with two
    decimals. *)
Definition percentual_de_centesimos (n : Z) : float :=
  of_uint63 (Uint63.of_Z n) / 100.

(** The two parts of the insalubridade add up to the total within one
    rounding error of the total. *)
Definition split_within_rounding (p : float) : bool :=
  match calcular_insalubridade p with
  | Ok (total, parte40, parte60) =>
      abs (parte40 + parte60 - total) <=? total * 0x1p-52
  | Raise _ => false
  end.

(** ** Definitions for the texts of amounts *)

Local Open Scope Z_scope.

Definition is_digit (c : ascii) : bool :=
  match Py.digit_val c with Some _ => true | None => false end.

(** Every character of [s] satisfies [P]. *)
Fixpoint only (P : ascii -> bool) (s : string) : bool :=
  match s with
  | EmptyString => true
  | String c r => P c && only P r
  end.

(** The number the digits [l] denote after the digits of [acc]. *)
Definition digits_value (l : list ascii) (acc : Z) : Z :=
  fold_left (fun a c => 10 * a + match Py.digit_val c with Some d => d | None => 0 end) l acc.

(** A run of digits ends before [r]. *)
Definition stops (r : list ascii) : Prop :=
  match r with
  | [] => True
  | c :: _ => Py.digit_val c = None /\ Ascii.eqb c "_"%char = false
  end.

(** The float nearest to [n / 100]: the amount of [n] hundredths, as the
    division [n / 100] of two ints and the reading of a text with two
    decimals give it. *)
Definition float_of_cents (neg : bool) (n : Z) : float :=
  SF2Prim (Py.sf_of_decimal neg n (-2)).

(** The text of [c] hundredths in the Brazilian convention: groups of
    three separated by points, a comma before the two decimals. *)
Definition texto_brasileiro (s : bool) (c : Z) : string :=
  Py.sign_str s ++ Py.group3 "." (Py.str_int (c / 100)) ++ "," ++ Py.two_digits (c mod 100).

Local Open Scope string_scope.

(** ** Definitions for the statements on the texts and the form *)

(** The name that a text spells for [float] once [limpar_formato] has
    dropped its points and turned its commas into points: the sign before
    it, and its letters in lower case, the white space around set aside. *)
Definition nome_de_float (valor : string) : bool * string :=
  let clean := Py.replace "," "." (Py.replace "." "" valor) in
  let '(neg, l) := Py.parse_sign (list_ascii_of_string (Py.rstrip_c (Py.lstrip_c clean))) in
  (neg, string_of_list_ascii (map Py.lower l)).

(** The conventions [formatar_valor] writes in: those of the locale, and
    the Brazilian ones in the fallback, when [locale.currency] raises. *)
Definition convencoes (loc : option locale.lconv) : locale.lconv :=
  match loc with
  | Some conv => conv
  | None =>
      {| locale.mon_decimal_point := ",";
         locale.mon_thousands_sep := ".";
         locale.negative_sign := "-" |}
  end.

(** The text of [c] hundredths in those conventions: groups of three, the
    decimal point and two decimals. *)
Definition texto_local (loc : option locale.lconv) (c : Z) : string :=
  Py.group3 (locale.mon_thousands_sep (convencoes loc)) (Py.str_int (c / 100))
    ++ locale.mon_decimal_point (convencoes loc) ++ Py.two_digits (c mod 100).

(** The two separators are ASCII and hold no digit, as those of [pt_BR],
    of [en_US] and of the fallback. *)
Definition separadores_sem_digitos (loc : option locale.lconv) : bool :=
  let sep := locale.mon_thousands_sep (convencoes loc) in
  let dp := locale.mon_decimal_point (convencoes loc) in
  Py.isascii sep && Py.isascii dp
  && Py.all_chars (fun c => negb (Py.isdigit c)) sep
  && Py.all_chars (fun c => negb (Py.isdigit c)) dp.

(** A form filled in: 3000,00 of salary, April of 2025 with 30 days, 20% of
    insalubridade, a voucher of 20,00 for 22 days, and 6% of VT typed in
    but switched off. *)
Definition campos_exemplo : campos :=
  {| salario_bruto_var := "3.000,00";
     adiantamento_var := "40";
     ano_var := "2025";
     mes_var := "4";
     dias_mes_var := "30";
     insal_var := "20";
     valor_vr_var := "20,00";
     dias_vr_var := "22";
     tem_desconto_vr_var := "N";
     desconto_vr_perc_var := "";
     tem_desconto_vt_var := "N";
     desconto_vt_perc_var := "6";
     tem_desconto_saude_var := "N";
     desconto_saude_perc_var := "";
     tem_desconto_odonto_var := "N";
     desconto_odonto_perc_var := "" |}.

(** The same form with a salary that is no number. *)
Definition campos_invalidos : campos :=
  {| salario_bruto_var := "abc";
     adiantamento_var := "40";
     ano_var := "2025";
     mes_var := "4";
     dias_mes_var := "30";
     insal_var := "20";
     valor_vr_var := "20,00";
     dias_vr_var := "22";
     tem_desconto_vr_var := "N";
     desconto_vr_perc_var := "";
     tem_desconto_vt_var := "N";
     desconto_vt_perc_var := "6";
     tem_desconto_saude_var := "N";
     desconto_saude_perc_var := "";
     tem_desconto_odonto_var := "N";
     desconto_odonto_perc_var := "" |}.


(** Every text of the form is ASCII. *)
Definition campos_ascii (f : campos) : bool :=
  forallb Py.isascii
    [salario_bruto_var f; adiantamento_var f; ano_var f; mes_var f; dias_mes_var f;
     insal_var f; valor_vr_var f; dias_vr_var f;
     tem_desconto_vr_var f; desconto_vr_perc_var f;
     tem_desconto_vt_var f; desconto_vt_perc_var f;
     tem_desconto_saude_var f; desconto_saude_perc_var f;
     tem_desconto_odonto_var f; desconto_odonto_perc_var f].


(** No line of the list [ls] is the line of the discount [nome], which
    begins with "- Valor Desconto [nome] (". *)
Definition sem_linha_de_desconto (nome : string) (ls : list string) : bool :=
  forallb
    (fun l => negb (String.prefix (Py.nl ++ "- Valor Desconto " ++ nome ++ " (") l)) ls.

(** * Properties *)

Local Open Scope Z_scope.

(** ** Powers of two and the nearest-even quotient *)

Lemma bpow_pos e : (0 < bpow e)%R.
Proof. apply powerRZ_lt; lra. Qed.

Lemma bpow_add a b : bpow (a + b) = (bpow a * bpow b)%R.
Proof. apply powerRZ_add; lra. Qed.

Lemma bpow_IZR k : 0 <= k -> bpow k = IZR (2 ^ k).
Proof.
  intros Hk. unfold bpow. rewrite <- (Z2Nat.id k Hk) at 1.
  rewrite <- pow_powerRZ. change 2%R with (IZR 2). rewrite pow_IZR.
  now rewrite Z2Nat.id.
Qed.

Lemma bpow_0 : bpow 0 = 1%R.
Proof. reflexivity. Qed.

Lemma bpow_ge1 k : 0 <= k -> (1 <= bpow k)%R.
Proof.
  intros Hk. rewrite bpow_IZR by trivial. apply IZR_le.
  assert (0 < 2 ^ k) by (apply Z.pow_pos_nonneg; lia). lia.
Qed.

Lemma bpow_le a b : a <= b -> (bpow a <= bpow b)%R.
Proof.
  intros H. replace b with (a + (b - a)) by lia. rewrite bpow_add.
  pose proof (bpow_pos a). pose proof (bpow_ge1 (b - a) ltac:(lia)). nra.
Qed.

Lemma bpow_lt a b : a < b -> (bpow a < bpow b)%R.
Proof.
  intros H. replace b with (a + 1 + (b - a - 1)) by lia. rewrite !bpow_add.
  pose proof (bpow_pos a). pose proof (bpow_ge1 (b - a - 1) ltac:(lia)).
  replace (bpow 1) with 2%R by (unfold bpow; simpl; lra). nra.
Qed.

Lemma bpow_opp_mul a : (bpow a * bpow (- a) = 1)%R.
Proof. rewrite <- bpow_add. replace (a + - a) with 0 by lia. reflexivity. Qed.

(** digits *)
Lemma digits2_pos_spec (m : positive) :
  2 ^ (Z.pos (digits2_pos m) - 1) <= Z.pos m < 2 ^ Z.pos (digits2_pos m).
Proof.
  induction m as [m IH|m IH|]; simpl digits2_pos.
  - rewrite Pos2Z.inj_succ. replace (Z.succ (Z.pos (digits2_pos m)) - 1) with (Z.succ (Z.pos (digits2_pos m) - 1)) by lia.
    rewrite !Z.pow_succ_r by lia. lia.
  - rewrite Pos2Z.inj_succ. replace (Z.succ (Z.pos (digits2_pos m)) - 1) with (Z.succ (Z.pos (digits2_pos m) - 1)) by lia.
    rewrite !Z.pow_succ_r by lia. lia.
  - simpl. lia.
Qed.

Lemma digits2_unique (m : positive) (d : Z) :
  2 ^ (d - 1) <= Z.pos m < 2 ^ d -> Z.pos (digits2_pos m) = d.
Proof.
  intros [H1 H2]. pose proof (digits2_pos_spec m) as [H3 H4].
  destruct (Z.lt_trichotomy (Z.pos (digits2_pos m)) d) as [L|[E|L]]; trivial; exfalso.
  - assert (2 ^ Z.pos (digits2_pos m) <= 2 ^ (d - 1)) by (apply Z.pow_le_mono_r; lia). lia.
  - assert (0 <= d \/ d < 0) as [Hd|Hd] by lia.
    + assert (2 ^ d <= 2 ^ (Z.pos (digits2_pos m) - 1)) by (apply Z.pow_le_mono_r; lia). lia.
    + rewrite (Z.pow_neg_r 2 d) in H2 by lia. lia.
Qed.

(** rne_div *)
Lemma rne_div_spec n d : 0 < d ->
  let q := Py.rne_div n d in
  (2 * q - 1) * d <= 2 * n <= (2 * q + 1) * d /\
  (2 * n = (2 * q + 1) * d -> Z.even q = true) /\
  (2 * n = (2 * q - 1) * d -> Z.even q = true).
Proof.
  intros Hd q. subst q. unfold Py.rne_div.
  pose proof (Z.div_mod n d ltac:(lia)) as E.
  pose proof (Z.mod_pos_bound n d Hd) as B.
  set (q := n / d) in *. set (r := n mod d) in *.
  destruct (Z.compare_spec (2 * r) d) as [C|C|C].
  - destruct (Z.even q) eqn:Ev.
    + repeat split; try nia. intros; trivial.
    + assert (Z.even (q + 1) = true).
      { rewrite Z.even_add, Ev. reflexivity. }
      repeat split; try nia; intros; trivial.
  - repeat split; try nia.
  - repeat split; try nia.
Qed.

Lemma rne_div_mono n1 d1 n2 d2 : 0 < d1 -> 0 < d2 ->
  n1 * d2 <= n2 * d1 -> Py.rne_div n1 d1 <= Py.rne_div n2 d2.
Proof.
  intros H1 H2 H.
  pose proof (rne_div_spec n1 d1 H1) as (A1 & B1 & C1).
  pose proof (rne_div_spec n2 d2 H2) as (A2 & B2 & C2).
  cbv zeta in *.
  set (q1 := Py.rne_div n1 d1) in *. set (q2 := Py.rne_div n2 d2) in *.
  destruct (Z_le_gt_dec q1 q2) as [L|G]; trivial. exfalso.
  assert (S1 : (2 * q1 - 1) * d1 * d2 <= 2 * n1 * d2)
    by (apply Z.mul_le_mono_nonneg_r; lia).
  assert (S2 : 2 * n2 * d1 <= (2 * q2 + 1) * d2 * d1)
    by (apply Z.mul_le_mono_nonneg_r; lia).
  assert (P : 0 < d1 * d2) by (apply Z.mul_pos_pos; lia).
  assert (S3 : (2 * q2 + 1) * (d1 * d2) <= (2 * q1 - 1) * (d1 * d2))
    by (apply Z.mul_le_mono_nonneg_r; lia).
  assert (S4 : (2 * q2 + 1) * (d1 * d2) = (2 * q1 - 1) * (d1 * d2)) by lia.
  assert (Q : q1 = q2 + 1).
  { apply Z.mul_reg_r in S4; lia. }
  assert (E1 : 2 * n1 = (2 * q1 - 1) * d1).
  { apply (Z.mul_reg_r _ _ d2); lia. }
  assert (E2 : 2 * n2 = (2 * q2 + 1) * d2).
  { apply (Z.mul_reg_r _ _ d1); lia. }
  specialize (C1 E1). specialize (B2 E2). rewrite Q in C1.
  rewrite Z.even_add in C1. rewrite B2 in C1. discriminate.
Qed.

Lemma rne_div_exact q d : 0 < d -> Py.rne_div (q * d) d = q.
Proof.
  intros Hd. unfold Py.rne_div. rewrite Z.div_mul, Z.mod_mul by lia.
  change (2 * 0) with 0. destruct (Z.compare_spec 0 d); lia.
Qed.

Local Open Scope Z_scope.

(** ** The right shift of [shr] on a fraction *)

Lemma iter_pos_nat {A} (f : A -> A) (p : positive) (x : A) :
  @SpecFloat.iter_pos A f p x = Nat.iter (Pos.to_nat p) f x.
Proof.
  revert x. induction p as [p IH|p IH|]; intros x.
  - change (SpecFloat.iter_pos f p~1 x) with (SpecFloat.iter_pos f p (SpecFloat.iter_pos f p (f x))).
    rewrite !IH, Pos2Nat.inj_xI.
    replace (S (2 * Pos.to_nat p)) with (Pos.to_nat p + (Pos.to_nat p + 1))%nat by lia.
    rewrite !Nat.iter_add. reflexivity.
  - change (SpecFloat.iter_pos f p~0 x) with (SpecFloat.iter_pos f p (SpecFloat.iter_pos f p x)).
    rewrite !IH, Pos2Nat.inj_xO.
    replace (2 * Pos.to_nat p)%nat with (Pos.to_nat p + Pos.to_nat p)%nat by lia.
    now rewrite Nat.iter_add.
  - reflexivity.
Qed.

Lemma shr_1_spec q r s : 0 <= q ->
  shr_1 (Build_shr_record q r s) = Build_shr_record (q / 2) (Z.odd q) (r || s).
Proof.
  intros Hq. rewrite <- Z.div2_div.
  destruct q as [|[p|p|]|p]; try lia; reflexivity.
Qed.

Lemma shr_record_of_loc_eq q l :
  shr_record_of_loc q l =
  Build_shr_record q
    (match l with loc_Inexact Eq | loc_Inexact Gt => true | _ => false end)
    (match l with loc_Inexact Lt | loc_Inexact Gt => true | _ => false end).
Proof. destruct l as [|[]]; reflexivity. Qed.

Lemma shr_1_frac num den : 0 <= num -> 0 < den ->
  shr_1 (rec_of_frac num den) = rec_of_frac num (den * 2).
Proof.
  intros Hn Hd. unfold rec_of_frac.
  assert (Hq : num / (den * 2) = num / den / 2) by (rewrite Z.div_div; lia).
  assert (Hr : num mod (den * 2) = num mod den + den * ((num / den) mod 2)).
  { rewrite Z.rem_mul_r by lia. reflexivity. }
  pose proof (Z.mod_pos_bound num den Hd) as Br.
  pose proof (Z.div_pos num den Hn Hd) as Bq.
  rewrite Hq, Hr. rewrite !shr_record_of_loc_eq, shr_1_spec by trivial.
  rewrite Zmod_odd. unfold loc_of_frac.
  remember (num / den) as q. remember (num mod den) as r.
  f_equal.
  - destruct (Z.odd q).
    + destruct (Z.eqb_spec (r + den * 1) 0); try lia.
      destruct (Z.compare_spec (2 * (r + den * 1)) (den * 2)); try lia; reflexivity.
    + replace (r + den * 0) with r by lia.
      destruct (Z.eqb_spec r 0); trivial.
      destruct (Z.compare_spec (2 * r) (den * 2)); try lia; reflexivity.
  - destruct (Z.odd q).
    + destruct (Z.eqb_spec (r + den * 1) 0); try lia.
      destruct (Z.eqb_spec r 0) as [R0|R0].
      * subst r. rewrite R0.
        destruct (Z.compare_spec (2 * (0 + den * 1)) (den * 2)); try lia; reflexivity.
      * destruct (Z.compare_spec (2 * (r + den * 1)) (den * 2)); try lia.
        destruct (2 * r ?= den); reflexivity.
    + replace (r + den * 0) with r by lia.
      destruct (Z.eqb_spec r 0); trivial.
      destruct (Z.compare_spec (2 * r) (den * 2)); try lia.
      destruct (2 * r ?= den); reflexivity.
Qed.

Lemma shr_iter_frac (n : nat) num den : 0 <= num -> 0 < den ->
  Nat.iter n shr_1 (rec_of_frac num den) = rec_of_frac num (den * 2 ^ Z.of_nat n).
Proof.
  intros Hn Hd. induction n as [|n IH].
  - simpl. now rewrite Z.mul_1_r.
  - rewrite Nat.iter_succ, IH, shr_1_frac; trivial.
    + f_equal. rewrite Nat2Z.inj_succ, Z.pow_succ_r by lia. ring.
    + assert (0 < 2 ^ Z.of_nat n) by (apply Z.pow_pos_nonneg; lia). nia.
Qed.

Lemma shr_frac num den e n : 0 <= num -> 0 < den -> 0 <= n ->
  shr (rec_of_frac num den) e n = (rec_of_frac num (den * 2 ^ n), e + n).
Proof.
  intros Hn Hd H0. destruct n as [|p|p]; try lia.
  - simpl. now rewrite Z.mul_1_r, Z.add_0_r.
  - unfold shr. rewrite iter_pos_nat, shr_iter_frac by trivial.
    now rewrite positive_nat_Z.
Qed.

Lemma loc_of_rec_of_frac num den :
  loc_of_shr_record (rec_of_frac num den) = loc_of_frac (num mod den) den.
Proof.
  unfold rec_of_frac. destruct (loc_of_frac (num mod den) den) as [|[]]; reflexivity.
Qed.

Lemma shr_m_rec_of_frac num den : shr_m (rec_of_frac num den) = num / den.
Proof.
  unfold rec_of_frac. destruct (loc_of_frac (num mod den) den) as [|[]]; reflexivity.
Qed.

Lemma round_frac num den : 0 < den ->
  round_nearest_even (num / den) (loc_of_frac (num mod den) den) = Py.rne_div num den.
Proof.
  intros Hd. unfold loc_of_frac, Py.rne_div, round_nearest_even.
  destruct (Z.eqb_spec (num mod den) 0) as [E|E].
  - rewrite E. change (2 * 0) with 0. destruct (Z.compare_spec 0 den); lia.
  - destruct (2 * (num mod den) ?= den); reflexivity.
Qed.

Local Open Scope Z_scope.

(** ** [binary_round_aux] on a fraction *)

Lemma fexp_eq e : SpecFloat.fexp prec emax e = Z.max (e - 53) (-1074).
Proof. reflexivity. Qed.

Lemma Zdigits2_spec q : 0 <= q -> 0 <= Zdigits2 q /\ q < 2 ^ Zdigits2 q /\
  (0 < q -> 2 ^ (Zdigits2 q - 1) <= q).
Proof.
  intros Hq. destruct q as [|p|p]; try lia.
  - simpl. lia.
  - simpl Zdigits2. pose proof (digits2_pos_spec p). lia.
Qed.

Lemma pow2_pos k : 0 <= k -> 0 < 2 ^ k.
Proof. intros; apply Z.pow_pos_nonneg; lia. Qed.

Lemma rne_div_one_pow k : 1 <= k -> Py.rne_div 1 (2 ^ k) = 0.
Proof.
  intros Hk. unfold Py.rne_div.
  assert (2 <= 2 ^ k).
  { change 2 with (2 ^ 1) at 1. apply Z.pow_le_mono_r; lia. }
  rewrite Z.div_small, Z.mod_small by lia.
  destruct (Z.compare_spec (2 * 1) (2 ^ k)); try lia; reflexivity.
Qed.

Lemma rnd_q_bounds num den : 0 <= num -> 0 < den ->
  0 <= num / den /\ num / den * den <= num < (num / den + 1) * den.
Proof.
  intros Hnum Hden. pose proof (Z.div_mod num den ltac:(lia)).
  pose proof (Z.mod_pos_bound num den Hden).
  split; [apply Z.div_pos; lia | nia].
Qed.

Section RoundAux.
Variables (num den e : Z).
Hypothesis Hnum : 0 <= num.
Hypothesis Hden : 0 < den.
Hypothesis He : e <= rnd_exp num den e.

Let q := num / den.
Let d := Zdigits2 q.
Let E := rnd_exp num den e.
Let n := E - e.
Let m1 := rnd_man num den e.

Lemma rnd_E_eq : E = Z.max (d + e - 53) (-1074).
Proof. unfold E, rnd_exp. rewrite fexp_eq. fold q. fold d. lia. Qed.

Lemma rnd_man_nonneg : 0 <= m1.
Proof.
  unfold m1, rnd_man. fold E. fold n.
  assert (0 < den * 2 ^ n) by (pose proof (pow2_pos n ltac:(unfold n; lia)); nia).
  rewrite <- (rne_div_exact 0 (den * 2 ^ n)) by trivial.
  apply rne_div_mono; trivial. nia.
Qed.

Lemma rnd_man_upper : m1 <= 2 ^ 53.
Proof.
  unfold m1, rnd_man. fold E. fold n.
  pose proof (rnd_q_bounds num den Hnum Hden) as (Hq & Hl & Hu). fold q in Hq, Hl, Hu.
  pose proof (Zdigits2_spec q Hq) as (Hd0 & Hd1 & _). fold d in Hd0, Hd1.
  pose proof rnd_E_eq as HE.
  assert (Hn : 0 <= n) by (unfold n; lia).
  pose proof (pow2_pos n Hn) as Pn. pose proof (pow2_pos d Hd0) as Pd.
  assert (Hnum' : num <= 2 ^ d * den) by nia.
  destruct (Z_le_gt_dec n d) as [L|G].
  - assert (X : 2 ^ d = 2 ^ (d - n) * 2 ^ n).
    { rewrite <- Z.pow_add_r by lia. f_equal. lia. }
    transitivity (Py.rne_div (2 ^ (d - n) * (den * 2 ^ n)) (den * 2 ^ n)).
    + apply rne_div_mono; nia.
    + rewrite rne_div_exact by nia. apply Z.pow_le_mono_r; lia.
  - assert (X : 2 ^ n = 2 ^ d * 2 ^ (n - d)).
    { rewrite <- Z.pow_add_r by lia. f_equal. lia. }
    transitivity (Py.rne_div 1 (2 ^ (n - d))).
    + pose proof (pow2_pos (n - d) ltac:(lia)). apply rne_div_mono; nia.
    + rewrite rne_div_one_pow by lia. apply Z.pow_nonneg; lia.
Qed.

Lemma rnd_man_lower : -1074 < E -> 2 ^ 52 <= m1.
Proof.
  intros HE1. unfold m1, rnd_man. fold E. fold n.
  pose proof (rnd_q_bounds num den Hnum Hden) as (Hq & Hl & Hu). fold q in Hq, Hl, Hu.
  pose proof (Zdigits2_spec q Hq) as (Hd0 & Hd1 & Hd2). fold d in Hd0, Hd1, Hd2.
  pose proof rnd_E_eq as HE.
  assert (Hn : 0 <= n) by (unfold n; lia).
  assert (Hq0 : 0 < q).
  { destruct (Z.eq_dec q 0) as [Q0|Q0]; try lia.
    exfalso. unfold d in HE. rewrite Q0 in HE. simpl in HE. unfold n in Hn. lia. }
  specialize (Hd2 Hq0).
  assert (Hnd : n = d - 53) by (unfold n; lia).
  pose proof (pow2_pos n Hn) as Pn.
  assert (X : 2 ^ (d - 1) = 2 ^ 52 * 2 ^ n).
  { rewrite <- Z.pow_add_r by lia. f_equal. lia. }
  assert (Y : 2 ^ (d - 1) * den <= q * den) by (apply Z.mul_le_mono_nonneg_r; lia).
  rewrite X in Y.
  assert (P : 0 < den * 2 ^ n) by nia.
  rewrite <- (rne_div_exact (2 ^ 52) (den * 2 ^ n)) at 1 by trivial.
  apply rne_div_mono; trivial.
  apply Z.mul_le_mono_nonneg_r; lia.
Qed.

Lemma rnd_E_lower : -1074 <= E.
Proof. pose proof rnd_E_eq. lia. Qed.

Lemma binary_round_aux_frac s :
  binary_round_aux prec emax s q e (loc_of_frac (num mod den) den) =
    if m1 =? 0 then S754_zero s
    else if m1 =? 2 ^ 53 then
      (if E + 1 <=? 971 then S754_finite s (Z.to_pos (2 ^ 52)) (E + 1) else S754_infinity s)
    else if E <=? 971 then S754_finite s (Z.to_pos m1) E else S754_infinity s.
Proof.
  pose proof rnd_man_nonneg as M0. pose proof rnd_man_upper as M1.
  pose proof rnd_E_lower as E0.
  assert (Hn : 0 <= n) by (unfold n; lia).
  unfold binary_round_aux.
  assert (S1 : shr_fexp prec emax q e (loc_of_frac (num mod den) den)
               = (rec_of_frac num (den * 2 ^ n), E)).
  { unfold shr_fexp. fold d. change (SpecFloat.fexp prec emax (d + e)) with E.
    fold n. change (shr_record_of_loc q (loc_of_frac (num mod den) den))
      with (rec_of_frac num den).
    rewrite shr_frac by trivial. f_equal. unfold n. lia. }
  rewrite S1.
  assert (Pn : 0 < den * 2 ^ n) by (pose proof (pow2_pos n Hn); nia).
  rewrite shr_m_rec_of_frac, loc_of_rec_of_frac, round_frac by trivial.
  change (Py.rne_div num (den * 2 ^ n)) with m1.
  unfold shr_fexp.
  destruct (Z.eqb_spec m1 0) as [Z0|Z0].
  - rewrite Z0. simpl Zdigits2. rewrite fexp_eq.
    assert (Hs : Z.max (0 + E - 53) (-1074) - E <= 0) by lia.
    unfold shr. destruct (Z.max (0 + E - 53) (-1074) - E) as [|p|p]; try lia; reflexivity.
  - destruct (Z.eqb_spec m1 (2 ^ 53)) as [Z1|Z1].
    + rewrite Z1. change (Zdigits2 (2 ^ 53)) with 54. rewrite fexp_eq.
      replace (Z.max (54 + E - 53) (-1074) - E) with 1 by lia.
      simpl shr. simpl shr_m. cbv iota beta.
      change (Z.sub emax prec) with 971.
      reflexivity.
    + assert (Hm : 0 < m1 < 2 ^ 53) by lia.
      pose proof (Zdigits2_spec m1 M0) as (D0 & D1 & D2). specialize (D2 ltac:(lia)).
      assert (Zdigits2 m1 <= 53).
      { destruct (Z_le_gt_dec (Zdigits2 m1) 53); trivial. exfalso.
        assert (2 ^ 53 <= 2 ^ (Zdigits2 m1 - 1)) by (apply Z.pow_le_mono_r; lia). lia. }
      rewrite fexp_eq.
      assert (Hs : Z.max (Zdigits2 m1 + E - 53) (-1074) - E <= 0) by lia.
      unfold shr. destruct (Z.max (Zdigits2 m1 + E - 53) (-1074) - E) as [|p|p]; try lia.
      * simpl shr_m. destruct m1 as [|p|p]; try lia. reflexivity.
      * simpl shr_m. destruct m1 as [|p'|p']; try lia. reflexivity.
Qed.
End RoundAux.

Local Open Scope Z_scope.

(** ** The real value of a rounded fraction *)

Lemma IZR_pow2 k : 0 <= k -> IZR (2 ^ k) = bpow k.
Proof. intros; now rewrite bpow_IZR. Qed.

Lemma clamp_id v : (v <= bpow 1024)%R -> clamp v = v.
Proof. intros; unfold clamp; now apply Rmin_left. Qed.

Lemma clamp_big v : (bpow 1024 <= v)%R -> clamp v = bpow 1024.
Proof. intros; unfold clamp; now apply Rmin_right. Qed.

Lemma clamp_mono u v : (u <= v)%R -> (clamp u <= clamp v)%R.
Proof. intros; unfold clamp. now apply Rle_min_compat_r. Qed.

Lemma clamp_nonneg v : (0 <= v)%R -> (0 <= clamp v)%R.
Proof.
  intros. unfold clamp. apply Rmin_glb; trivial. pose proof (bpow_pos 1024); lra.
Qed.

Lemma clamp_le_big v : (clamp v <= bpow 1024)%R.
Proof. unfold clamp. apply Rmin_r. Qed.

Section RoundAuxR.
Variables (num den e : Z).
Hypothesis Hnum : 0 <= num.
Hypothesis Hden : 0 < den.
Hypothesis He : e <= rnd_exp num den e.

Lemma rnd_val_nonneg : (0 <= rnd_val num den e)%R.
Proof.
  unfold rnd_val. pose proof (rnd_man_nonneg num den e Hnum Hden He) as H.
  apply IZR_le in H. pose proof (bpow_pos (rnd_exp num den e)). nra.
Qed.

Lemma binary_round_aux_R s :
  SF2R (binary_round_aux prec emax s (num / den) e (loc_of_frac (num mod den) den))
  = (sgn s * clamp (rnd_val num den e))%R.
Proof.
  rewrite binary_round_aux_frac by trivial.
  pose proof (rnd_man_nonneg num den e Hnum Hden He) as M0.
  pose proof (rnd_man_upper num den e Hnum Hden He) as M1.
  pose proof (rnd_man_lower num den e Hnum Hden He) as M2.
  pose proof (rnd_E_lower num den e) as E0.
  unfold rnd_val.
  set (m1 := rnd_man num den e) in *. set (E := rnd_exp num den e) in *.
  pose proof (bpow_pos E) as PE.
  destruct (Z.eqb_spec m1 0) as [Z0|Z0].
  - rewrite Z0. simpl. rewrite clamp_id; [lra|]. pose proof (bpow_pos 1024). lra.
  - destruct (Z.eqb_spec m1 (2 ^ 53)) as [Z1|Z1].
    + rewrite Z1. rewrite IZR_pow2 by lia. rewrite <- bpow_add.
      destruct (Z.leb_spec (E + 1) 971) as [L|L].
      * unfold SF2R. rewrite Z2Pos.id by (apply pow2_pos; lia).
        rewrite IZR_pow2 by lia. rewrite <- bpow_add.
        rewrite clamp_id by (apply bpow_le; lia). do 2 f_equal. lia.
      * unfold SF2R. rewrite clamp_big by (apply bpow_le; lia). reflexivity.
    + destruct (Z.leb_spec E 971) as [L|L].
      * unfold SF2R. rewrite Z2Pos.id by lia.
        rewrite clamp_id; trivial.
        assert (IZR m1 <= bpow 53)%R by (rewrite <- IZR_pow2 by lia; apply IZR_le; lia).
        pose proof (bpow_le (53 + E) 1024 ltac:(lia)) as B. rewrite bpow_add in B.
        nra.
      * unfold SF2R. rewrite clamp_big; trivial.
        specialize (M2 ltac:(lia)).
        assert (bpow 52 <= IZR m1)%R by (rewrite <- IZR_pow2 by lia; apply IZR_le; lia).
        pose proof (bpow_le 1024 (52 + E) ltac:(lia)) as B. rewrite bpow_add in B.
        nra.
Qed.

(** the value being rounded lies between powers of two given by the digits *)
Lemma rnd_arg_bounds :
  let v := (IZR num / IZR den * bpow e)%R in
  (v < bpow (Zdigits2 (num / den) + e))%R /\
  (0 < num / den -> (bpow (Zdigits2 (num / den) - 1 + e) <= v)%R).
Proof.
  intros v.
  pose proof (rnd_q_bounds num den Hnum Hden) as (Hq & Hl & Hu).
  pose proof (Zdigits2_spec (num / den) Hq) as (Hd0 & Hd1 & Hd2).
  set (q := num / den) in *. set (d := Zdigits2 q) in *.
  assert (Pd : (0 < IZR den)%R) by (apply IZR_lt; lia).
  pose proof (bpow_pos e) as Pe.
  assert (Ht : IZR num = (IZR num / IZR den * IZR den)%R) by (field; lra).
  assert (A1 : (IZR q * IZR den <= IZR num)%R) by (rewrite <- mult_IZR; apply IZR_le; lia).
  assert (A2 : (IZR num < IZR (q + 1) * IZR den)%R) by (rewrite <- mult_IZR; apply IZR_lt; lia).
  subst v. set (t := (IZR num / IZR den)%R) in *.
  assert (Q1 : (IZR q <= t)%R) by nra.
  assert (Q2 : (t < IZR (q + 1))%R) by nra.
  split.
  - rewrite bpow_add. rewrite <- (IZR_pow2 d) by lia.
    assert (IZR (q + 1) <= IZR (2 ^ d))%R by (apply IZR_le; lia).
    nra.
  - intros Hq0. specialize (Hd2 Hq0).
    assert (1 <= d).
    { destruct (Z.eq_dec d 0) as [D|D]; [rewrite D in Hd1; simpl in Hd1; lia | lia]. }
    rewrite bpow_add. rewrite <- (IZR_pow2 (d - 1)) by lia.
    assert (IZR (2 ^ (d - 1)) <= IZR q)%R by (apply IZR_le; lia).
    assert (0 <= IZR (2 ^ (d - 1)))%R by (apply IZR_le; apply Z.pow_nonneg; lia).
    nra.
Qed.
End RoundAuxR.

Lemma bpow_lt_inv a b : (bpow a < bpow b)%R -> a < b.
Proof.
  intros H. destruct (Z_lt_le_dec a b); trivial.
  pose proof (bpow_le b a ltac:(lia)). lra.
Qed.

Lemma rnd_val_mono num1 den1 e1 num2 den2 e2 :
  0 <= num1 -> 0 < den1 -> e1 <= rnd_exp num1 den1 e1 ->
  0 <= num2 -> 0 < den2 -> e2 <= rnd_exp num2 den2 e2 ->
  (IZR num1 / IZR den1 * bpow e1 <= IZR num2 / IZR den2 * bpow e2)%R ->
  (rnd_val num1 den1 e1 <= rnd_val num2 den2 e2)%R.
Proof.
  intros Hn1 Hd1 He1 Hn2 Hd2 He2 Hv.
  pose proof (rnd_arg_bounds num1 den1 e1 Hn1 Hd1) as (U1 & L1).
  pose proof (rnd_arg_bounds num2 den2 e2 Hn2 Hd2) as (U2 & L2).
  pose proof (rnd_E_eq num1 den1 e1) as EE1.
  pose proof (rnd_E_eq num2 den2 e2) as EE2.
  pose proof (rnd_q_bounds num1 den1 Hn1 Hd1) as (Hq1 & _).
  cbv zeta in *.
  assert (HE : rnd_exp num1 den1 e1 <= rnd_exp num2 den2 e2).
  { destruct (Z.eq_dec (num1 / den1) 0) as [Q0|Q0].
    - rewrite Q0 in EE1. simpl in EE1. lia.
    - specialize (L1 ltac:(lia)).
      assert (Zdigits2 (num1 / den1) - 1 + e1 < Zdigits2 (num2 / den2) + e2)
        by (apply bpow_lt_inv; lra).
      lia. }
  unfold rnd_val.
  set (E1 := rnd_exp num1 den1 e1) in *. set (E2 := rnd_exp num2 den2 e2) in *.
  destruct (Z.eq_dec E1 E2) as [EQ|NE].
  - rewrite <- EQ. pose proof (bpow_pos E1).
    apply Rmult_le_compat_r; [lra|]. apply IZR_le.
    unfold rnd_man. fold E1. fold E2. rewrite <- EQ.
    pose proof (pow2_pos (E1 - e1) ltac:(lia)) as P1.
    pose proof (pow2_pos (E1 - e2) ltac:(lia)) as P2.
    apply rne_div_mono; try nia.
    apply le_IZR. rewrite !mult_IZR. rewrite !IZR_pow2 by lia.
    assert (Pd1 : (0 < IZR den1)%R) by (apply IZR_lt; lia).
    assert (Pd2 : (0 < IZR den2)%R) by (apply IZR_lt; lia).
    assert (B1 : bpow e1 = (bpow E1 * / bpow (E1 - e1))%R).
    { replace e1 with (E1 + - (E1 - e1)) at 1 by lia. rewrite bpow_add.
      f_equal. pose proof (bpow_opp_mul (E1 - e1)). pose proof (bpow_pos (E1 - e1)).
      apply Rmult_eq_reg_l with (bpow (E1 - e1)); [|lra]. rewrite H0. field. lra. }
    assert (B2 : bpow e2 = (bpow E1 * / bpow (E1 - e2))%R).
    { replace e2 with (E1 + - (E1 - e2)) at 1 by lia. rewrite bpow_add.
      f_equal. pose proof (bpow_opp_mul (E1 - e2)). pose proof (bpow_pos (E1 - e2)).
      apply Rmult_eq_reg_l with (bpow (E1 - e2)); [|lra]. rewrite H0. field. lra. }
    rewrite B1, B2 in Hv.
    pose proof (bpow_pos (E1 - e1)) as Q1. pose proof (bpow_pos (E1 - e2)) as Q2.
    set (a1 := bpow (E1 - e1)) in *. set (a2 := bpow (E1 - e2)) in *.
    set (b := bpow E1) in *.
    assert (Hv' : (IZR num1 / IZR den1 * / a1 <= IZR num2 / IZR den2 * / a2)%R).
    { apply Rmult_le_reg_r with b; trivial. lra. }
    assert (X : (IZR num1 * (IZR den2 * a2) =
                 (IZR num1 / IZR den1 * / a1) * (IZR den1 * a1 * (IZR den2 * a2)))%R)
      by (field; lra).
    assert (Y : (IZR num2 * (IZR den1 * a1) =
                 (IZR num2 / IZR den2 * / a2) * (IZR den1 * a1 * (IZR den2 * a2)))%R)
      by (field; lra).
    rewrite X, Y. apply Rmult_le_compat_r; trivial.
    assert (0 < IZR den1 * a1)%R by nra. assert (0 < IZR den2 * a2)%R by nra. nra.
  - assert (LT : E1 < E2) by lia.
    pose proof (rnd_man_upper num1 den1 e1 Hn1 Hd1 He1) as M1.
    pose proof (rnd_man_lower num2 den2 e2 Hn2 Hd2 He2 ltac:(fold E2; lia)) as M2.
    apply IZR_le in M1, M2. rewrite IZR_pow2 in M1, M2 by lia.
    pose proof (bpow_le (53 + E1) (52 + E2) ltac:(lia)) as B. rewrite !bpow_add in B.
    pose proof (bpow_pos E1). pose proof (bpow_pos E2).
    fold E1 in M1. fold E2 in M2. nra.
Qed.

Local Open Scope Z_scope.

(** ** The rounding relation, valid floats and their comparison *)

Lemma frac_nonneg num den e : 0 <= num -> 0 < den ->
  (0 <= IZR num / IZR den * bpow e)%R.
Proof.
  intros Hn Hd. apply IZR_le in Hn. apply IZR_lt in Hd. pose proof (bpow_pos e).
  apply Rmult_le_pos; [|lra]. apply Rmult_le_pos; trivial.
  apply Rlt_le, Rinv_0_lt_compat; trivial.
Qed.

Lemma rounds_nonneg v r : rounds v r -> (0 <= v)%R /\ (0 <= r)%R.
Proof.
  intros [num den e Hn Hd He -> ->]. split.
  - now apply frac_nonneg.
  - apply clamp_nonneg. now apply rnd_val_nonneg.
Qed.

Lemma rounds_le_big v r : rounds v r -> (r <= bpow 1024)%R.
Proof. intros [num den e Hn Hd He -> ->]. apply clamp_le_big. Qed.

Lemma rounds_mono v1 r1 v2 r2 :
  rounds v1 r1 -> rounds v2 r2 -> (v1 <= v2)%R -> (r1 <= r2)%R.
Proof.
  intros [n1 d1 e1 Hn1 Hd1 He1 -> ->] [n2 d2 e2 Hn2 Hd2 He2 -> ->] H.
  apply clamp_mono. now apply rnd_val_mono.
Qed.

Lemma rounds_zero r : rounds 0 r -> r = 0%R.
Proof.
  intros H. pose proof (rounds_nonneg _ _ H) as [_ H0].
  assert (Z : rounds 0 0).
  { apply (rounds_intro _ _ 0 1 (-1074)); try lia.
    - vm_compute. discriminate.
    - unfold Rdiv. now rewrite !Rmult_0_l.
    - unfold rnd_val. replace (rnd_man 0 1 (-1074)) with 0 by (vm_compute; reflexivity).
      rewrite Rmult_0_l. rewrite clamp_id; trivial. pose proof (bpow_pos 1024); lra. }
  pose proof (rounds_mono _ _ _ _ H Z ltac:(lra)). lra.
Qed.

Lemma rounds_s_mono v1 r1 v2 r2 :
  rounds_s v1 r1 -> rounds_s v2 r2 -> (v1 <= v2)%R -> (r1 <= r2)%R.
Proof.
  intros [[P1 H1]|[P1 H1]] [[P2 H2]|[P2 H2]] H.
  - eapply rounds_mono; eauto.
  - assert (v1 = 0%R) by lra. assert (v2 = 0%R) by lra. subst.
    apply rounds_zero in H1. rewrite Ropp_0 in H2. apply rounds_zero in H2. lra.
  - apply rounds_nonneg in H1, H2. lra.
  - assert (- r2 <= - r1)%R by (eapply rounds_mono; eauto; lra). lra.
Qed.

Lemma rounds_s_bounds v r : rounds_s v r -> (- bpow 1024 <= r <= bpow 1024)%R.
Proof.
  intros [[P H]|[P H]]; pose proof (rounds_le_big _ _ H); apply rounds_nonneg in H;
    pose proof (bpow_pos 1024); lra.
Qed.

(** valid floats *)
Lemma bounded_spec m e : SpecFloat.bounded prec emax m e = true ->
  e = Z.max (Z.pos (digits2_pos m) + e - 53) (-1074) /\ e <= 971.
Proof.
  unfold SpecFloat.bounded, canonical_mantissa. rewrite andb_true_iff, Z.eqb_eq, Z.leb_le.
  rewrite fexp_eq. change (Z.sub emax prec) with 971. lia.
Qed.

Lemma finite_mag (m : positive) e :
  (bpow (Z.pos (digits2_pos m) - 1 + e) <= IZR (Z.pos m) * bpow e < bpow (Z.pos (digits2_pos m) + e))%R.
Proof.
  pose proof (digits2_pos_spec m) as [L U]. rewrite !bpow_add.
  rewrite <- (IZR_pow2 (Z.pos (digits2_pos m) - 1)), <- (IZR_pow2 (Z.pos (digits2_pos m))) by lia.
  apply IZR_le in L. apply IZR_lt in U.
  pose proof (bpow_pos e). split; nra.
Qed.

Lemma bounded_lt_big m e : SpecFloat.bounded prec emax m e = true ->
  (IZR (Z.pos m) * bpow e < bpow 1024)%R.
Proof.
  intros H. apply bounded_spec in H. pose proof (finite_mag m e) as [_ U].
  pose proof (bpow_le (Z.pos (digits2_pos m) + e) 1024 ltac:(lia)). lra.
Qed.

Lemma rounds_bounded m e : SpecFloat.bounded prec emax m e = true ->
  rounds (IZR (Z.pos m) * bpow e) (IZR (Z.pos m) * bpow e).
Proof.
  intros H. pose proof (bounded_lt_big m e H) as B. apply bounded_spec in H as [H1 H2].
  assert (E : rnd_exp (Z.pos m) 1 e = e).
  { unfold rnd_exp. rewrite Z.div_1_r, fexp_eq. simpl Zdigits2. lia. }
  apply (rounds_intro _ _ (Z.pos m) 1 e); try lia.
  - unfold Rdiv. rewrite Rinv_1. ring.
  - unfold rnd_val, rnd_man. rewrite E, Z.sub_diag. simpl (1 * 2 ^ 0).
    replace (Py.rne_div (Z.pos m) 1) with (Z.pos m).
    + rewrite clamp_id; lra.
    + rewrite <- (Z.mul_1_r (Z.pos m)) at 2. now rewrite rne_div_exact.
Qed.

Lemma valid_bounds x : valid_binary x = true ->
  (- bpow 1024 <= SF2R x <= bpow 1024)%R.
Proof.
  pose proof (bpow_pos 1024) as P.
  destruct x as [s|s| |s m e]; simpl; intros H; try lra.
  - destruct s; simpl; lra.
  - pose proof (bounded_lt_big m e H). pose proof (finite_mag m e) as [L _].
    pose proof (bpow_pos (Z.pos (digits2_pos m) - 1 + e)).
    destruct s; simpl; lra.
Qed.

Lemma mag_lt (m1 : positive) e1 (m2 : positive) e2 :
  SpecFloat.bounded prec emax m1 e1 = true -> SpecFloat.bounded prec emax m2 e2 = true ->
  e1 < e2 -> (IZR (Z.pos m1) * bpow e1 < IZR (Z.pos m2) * bpow e2)%R.
Proof.
  intros H1 H2 L. apply bounded_spec in H1 as [A1 _], H2 as [A2 _].
  pose proof (finite_mag m1 e1) as [_ U]. pose proof (finite_mag m2 e2) as [Lo _].
  pose proof (bpow_le (Z.pos (digits2_pos m1) + e1) (Z.pos (digits2_pos m2) - 1 + e2) ltac:(lia)).
  lra.
Qed.

Lemma SFcompare_R x y c : valid_binary x = true -> valid_binary y = true ->
  SFcompare x y = Some c -> cmp_R c (SF2R x) (SF2R y).
Proof.
  pose proof (bpow_pos 1024) as P.
  destruct x as [sx|sx| |sx mx ex], y as [sy|sy| |sy my ey]; simpl; intros Vx Vy H;
    try discriminate.
  - injection H as <-. reflexivity.
  - injection H as <-. destruct sy; simpl; lra.
  - injection H as <-. pose proof (finite_mag my ey) as [L _].
    pose proof (bpow_pos (Z.pos (digits2_pos my) - 1 + ey)).
    destruct sy; simpl; lra.
  - injection H as <-. destruct sx; simpl; lra.
  - injection H as <-. destruct sx, sy; simpl; lra.
  - injection H as <-. pose proof (bounded_lt_big my ey Vy).
    pose proof (finite_mag my ey) as [L _].
    pose proof (bpow_pos (Z.pos (digits2_pos my) - 1 + ey)).
    destruct sx, sy; simpl; lra.
  - injection H as <-. pose proof (finite_mag mx ex) as [L _].
    pose proof (bpow_pos (Z.pos (digits2_pos mx) - 1 + ex)).
    destruct sx; simpl; lra.
  - injection H as <-. pose proof (bounded_lt_big mx ex Vx).
    pose proof (finite_mag mx ex) as [L _].
    pose proof (bpow_pos (Z.pos (digits2_pos mx) - 1 + ex)).
    destruct sx, sy; simpl; lra.
  - injection H as <-.
    pose proof (finite_mag mx ex) as [Lx _]. pose proof (finite_mag my ey) as [Ly _].
    pose proof (bpow_pos (Z.pos (digits2_pos mx) - 1 + ex)).
    pose proof (bpow_pos (Z.pos (digits2_pos my) - 1 + ey)).
    pose proof (bpow_pos ex) as Pex.
    rewrite Pos.compare_cont_spec. simpl.
    destruct sx, sy; simpl; try lra.
    + destruct (Z.compare_spec ex ey) as [E|E|E].
      * subst ey. rewrite Pos.compare_antisym.
        destruct (Pos.compare_spec my mx) as [M|M|M]; simpl.
        -- now subst.
        -- assert (IZR (Z.pos my) < IZR (Z.pos mx))%R by (apply IZR_lt; lia). nra.
        -- assert (IZR (Z.pos mx) < IZR (Z.pos my))%R by (apply IZR_lt; lia). nra.
      * pose proof (mag_lt mx ex my ey Vx Vy E). simpl. lra.
      * pose proof (mag_lt my ey mx ex Vy Vx ltac:(lia)). simpl. lra.
    + destruct (Z.compare_spec ex ey) as [E|E|E].
      * subst ey.
        destruct (Pos.compare_spec mx my) as [M|M|M]; simpl.
        -- now subst.
        -- assert (IZR (Z.pos mx) < IZR (Z.pos my))%R by (apply IZR_lt; lia). nra.
        -- assert (IZR (Z.pos my) < IZR (Z.pos mx))%R by (apply IZR_lt; lia). nra.
      * pose proof (mag_lt mx ex my ey Vx Vy E). simpl. lra.
      * pose proof (mag_lt my ey mx ex Vy Vx ltac:(lia)). simpl. lra.
Qed.

Lemma SFcompare_nan_free x y : is_nan x = false -> is_nan y = false ->
  exists c, SFcompare x y = Some c.
Proof.
  destruct x as [sx|sx| |sx mx ex], y as [sy|sy| |sy my ey]; simpl; intros; try discriminate;
    eexists; reflexivity.
Qed.

Lemma SFleb_R x y : valid_binary x = true -> valid_binary y = true ->
  SFleb x y = true <-> is_nan x = false /\ is_nan y = false /\ (SF2R x <= SF2R y)%R.
Proof.
  intros Vx Vy. unfold SFleb. split.
  - destruct (SFcompare x y) as [c|] eqn:E; try discriminate.
    pose proof (SFcompare_R x y c Vx Vy E) as C.
    intros H. repeat split.
    + destruct x; trivial. discriminate.
    + destruct x, y; trivial; discriminate.
    + destruct c; simpl in C; try lra; discriminate.
  - intros (Nx & Ny & H).
    destruct (SFcompare_nan_free x y Nx Ny) as [c E]. rewrite E.
    pose proof (SFcompare_R x y c Vx Vy E) as C.
    destruct c; simpl in C; trivial. lra.
Qed.

Local Open Scope Z_scope.

(** ** The real value of sums, differences and products *)

Lemma pos_iter_xO (m d : positive) : Z.pos (Pos.iter xO m d) = Z.pos m * 2 ^ Z.pos d.
Proof.
  induction d as [|d IH] using Pos.peano_ind.
  - simpl. lia.
  - rewrite Pos.iter_succ, Pos2Z.inj_xO, IH, Pos2Z.inj_succ, Z.pow_succ_r by lia. ring.
Qed.

Lemma shl_align_spec mx ex ex' :
  snd (shl_align mx ex ex') = Z.min ex ex' /\
  Z.pos (fst (shl_align mx ex ex')) = Z.pos mx * 2 ^ (ex - Z.min ex ex').
Proof.
  unfold shl_align. destruct (ex' - ex) as [|d|d] eqn:E; cbn [fst snd].
  - assert (ex' = ex) by lia. subst. rewrite Z.min_id, Z.sub_diag, Z.pow_0_r. lia.
  - replace (Z.min ex ex') with ex by lia. rewrite Z.sub_diag, Z.pow_0_r. lia.
  - replace (Z.min ex ex') with ex' by lia. rewrite pos_iter_xO. split; trivial.
    do 2 f_equal. lia.
Qed.

Lemma digits2_shift (m mz : positive) k : 0 <= k -> Z.pos mz = Z.pos m * 2 ^ k ->
  Z.pos (digits2_pos mz) = Z.pos (digits2_pos m) + k.
Proof.
  intros Hk H. apply digits2_unique. rewrite H.
  pose proof (digits2_pos_spec m) as [L U]. pose proof (pow2_pos k Hk).
  replace (Z.pos (digits2_pos m) + k - 1) with (Z.pos (digits2_pos m) - 1 + k) by lia.
  rewrite !Z.pow_add_r by lia. split; nia.
Qed.

Lemma rounds_0 : rounds 0 0.
Proof.
  apply (rounds_intro _ _ 0 1 (-1074)); try lia.
  - vm_compute. discriminate.
  - unfold Rdiv. now rewrite !Rmult_0_l.
  - unfold rnd_val. replace (rnd_man 0 1 (-1074)) with 0 by (vm_compute; reflexivity).
    rewrite Rmult_0_l. rewrite clamp_id; trivial. pose proof (bpow_pos 1024); lra.
Qed.

Lemma loc_of_frac_exact m : loc_of_frac (m mod 1) 1 = loc_Exact.
Proof. now rewrite Z.mod_1_r. Qed.

(** rounding an integer mantissa whose exponent is not above the canonical one *)
Lemma binary_round_aux_exact s (m : positive) e :
  e <= SpecFloat.fexp prec emax (Z.pos (digits2_pos m) + e) ->
  exists r, SF2R (binary_round_aux prec emax s (Z.pos m) e loc_Exact) = (sgn s * r)%R /\
            rounds (IZR (Z.pos m) * bpow e) r /\
            is_nan (binary_round_aux prec emax s (Z.pos m) e loc_Exact) = false.
Proof.
  intros He.
  assert (He' : e <= rnd_exp (Z.pos m) 1 e).
  { unfold rnd_exp. rewrite Z.div_1_r. exact He. }
  pose proof (binary_round_aux_R (Z.pos m) 1 e ltac:(lia) ltac:(lia) He' s) as H.
  pose proof (binary_round_aux_frac (Z.pos m) 1 e ltac:(lia) ltac:(lia) He' s) as F.
  rewrite Z.div_1_r, loc_of_frac_exact in H, F.
  exists (clamp (rnd_val (Z.pos m) 1 e)). repeat split; trivial.
  - apply (rounds_intro _ _ (Z.pos m) 1 e); try lia; trivial.
    unfold Rdiv. rewrite Rinv_1. ring.
  - rewrite F. repeat match goal with |- context [if ?b then _ else _] => destruct b end;
      reflexivity.
Qed.

Lemma binary_round_R s (m : positive) e :
  exists r, SF2R (binary_round prec emax s m e) = (sgn s * r)%R /\
            rounds (IZR (Z.pos m) * bpow e) r /\
            is_nan (binary_round prec emax s m e) = false.
Proof.
  unfold binary_round.
  pose proof (shl_align_spec m e (SpecFloat.fexp prec emax (Z.pos (digits2_pos m) + e))) as [A B].
  destruct (shl_align m e (SpecFloat.fexp prec emax (Z.pos (digits2_pos m) + e))) as [mz ez].
  cbn [fst snd] in A, B.
  set (E := SpecFloat.fexp prec emax (Z.pos (digits2_pos m) + e)) in *.
  rewrite <- A in B.
  assert (Hk : 0 <= e - ez) by lia.
  pose proof (digits2_shift m mz (e - ez) Hk B) as D.
  assert (He : ez <= SpecFloat.fexp prec emax (Z.pos (digits2_pos mz) + ez)).
  { rewrite D. replace (Z.pos (digits2_pos m) + (e - ez) + ez) with (Z.pos (digits2_pos m) + e) by lia.
    fold E. lia. }
  destruct (binary_round_aux_exact s mz ez He) as (r & R1 & R2 & R3).
  exists r. repeat split; trivial.
  replace (IZR (Z.pos m) * bpow e)%R with (IZR (Z.pos mz) * bpow ez)%R; trivial.
  rewrite B. rewrite mult_IZR, IZR_pow2 by lia.
  rewrite Rmult_assoc, <- bpow_add. do 2 f_equal. lia.
Qed.

Lemma binary_normalize_R z e sz :
  rounds_s (IZR z * bpow e) (SF2R (binary_normalize prec emax z e sz)) /\
  is_nan (binary_normalize prec emax z e sz) = false.
Proof.
  pose proof (bpow_pos e) as Pe.
  destruct z as [|p|p]; simpl binary_normalize.
  - split; trivial. left. simpl. rewrite Rmult_0_l. split; [lra|apply rounds_0].
  - destruct (binary_round_R false p e) as (r & R1 & R2 & R3). split; trivial.
    left. rewrite R1. simpl. rewrite Rmult_1_l. split; trivial.
    apply rounds_nonneg in R2. tauto.
  - destruct (binary_round_R true p e) as (r & R1 & R2 & R3). split; trivial.
    right. rewrite R1. simpl.
    change (Z.neg p) with (- Z.pos p). rewrite opp_IZR.
    replace (- (- IZR (Z.pos p) * bpow e))%R with (IZR (Z.pos p) * bpow e)%R by ring.
    replace (- (-1 * r))%R with r by ring. split; trivial.
    apply rounds_nonneg in R2. lra.
Qed.

Lemma rounds_s_valid x : finz x = true -> valid_binary x = true ->
  rounds_s (SF2R x) (SF2R x).
Proof.
  destruct x as [s|s| |s m e]; simpl; try discriminate; intros _ V.
  - left. split; [lra|apply rounds_0].
  - pose proof (rounds_bounded m e V) as H. pose proof (rounds_nonneg _ _ H) as [P _].
    destruct s; simpl.
    + right. split; [lra|].
      replace (- (-1 * (IZR (Z.pos m) * bpow e)))%R with (IZR (Z.pos m) * bpow e)%R by ring.
      trivial.
    + left. rewrite Rmult_1_l. tauto.
Qed.

Lemma cond_Zopp_IZR s z : IZR (cond_Zopp s z) = (sgn s * IZR z)%R.
Proof. destruct s; simpl; [rewrite opp_IZR|]; ring. Qed.

Lemma aligned_R s (m : positive) e ez : ez <= e ->
  (IZR (cond_Zopp s (Z.pos (fst (shl_align m e ez)))) * bpow ez
   = sgn s * (IZR (Z.pos m) * bpow e))%R.
Proof.
  intros H. pose proof (shl_align_spec m e ez) as [_ B].
  rewrite cond_Zopp_IZR, B. replace (Z.min e ez) with ez by lia.
  rewrite mult_IZR, IZR_pow2 by lia.
  assert (X : bpow e = (bpow (e - ez) * bpow ez)%R) by (rewrite <- bpow_add; f_equal; lia).
  rewrite X. ring.
Qed.

Lemma SFadd_R x y : finz x = true -> finz y = true ->
  valid_binary x = true -> valid_binary y = true ->
  rounds_s (SF2R x + SF2R y) (SF2R (SFadd prec emax x y)) /\
  is_nan (SFadd prec emax x y) = false.
Proof.
  destruct x as [sx|sx| |sx mx ex], y as [sy|sy| |sy my ey]; try discriminate;
    intros _ _ Vx Vy.
  - split; [|destruct sx, sy; reflexivity].
    replace (SF2R (SFadd prec emax (S754_zero sx) (S754_zero sy))) with 0%R
      by (destruct sx, sy; reflexivity).
    simpl. rewrite Rplus_0_l. left; split; [lra|apply rounds_0].
  - split; trivial. simpl SFadd. simpl (SF2R (S754_zero sx)). rewrite Rplus_0_l.
    now apply rounds_s_valid.
  - split; trivial. simpl SFadd. simpl (SF2R (S754_zero sy)). rewrite Rplus_0_r.
    now apply rounds_s_valid.
  - unfold SFadd.
    pose proof (binary_normalize_R
      (cond_Zopp sx (Z.pos (fst (shl_align mx ex (Z.min ex ey)))) +
       cond_Zopp sy (Z.pos (fst (shl_align my ey (Z.min ex ey))))) (Z.min ex ey) false) as [H N].
    split; trivial.
    rewrite plus_IZR, Rmult_plus_distr_r, !aligned_R in H by lia. exact H.
Qed.

Lemma SFopp_R x : SF2R (SFopp x) = (- SF2R x)%R.
Proof. destruct x as [s|s| |s m e]; simpl; try lra; destruct s; simpl; lra. Qed.

Lemma SFsub_R x y : finz x = true -> finz y = true ->
  valid_binary x = true -> valid_binary y = true ->
  rounds_s (SF2R x - SF2R y) (SF2R (SFsub prec emax x y)) /\
  is_nan (SFsub prec emax x y) = false.
Proof.
  destruct x as [sx|sx| |sx mx ex], y as [sy|sy| |sy my ey]; try discriminate;
    intros _ _ Vx Vy.
  - split; [|destruct sx, sy; reflexivity].
    replace (SF2R (SFsub prec emax (S754_zero sx) (S754_zero sy))) with 0%R
      by (destruct sx, sy; reflexivity).
    simpl. rewrite Rminus_0_r. left; split; [lra|apply rounds_0].
  - split; trivial. simpl SFsub. simpl (SF2R (S754_zero sx)).
    replace (0 - SF2R (S754_finite sy my ey))%R with (SF2R (S754_finite (negb sy) my ey))
      by (destruct sy; simpl; lra).
    now apply rounds_s_valid.
  - split; trivial. simpl SFsub. simpl (SF2R (S754_zero sy)). rewrite Rminus_0_r.
    now apply rounds_s_valid.
  - unfold SFsub.
    pose proof (binary_normalize_R
      (cond_Zopp sx (Z.pos (fst (shl_align mx ex (Z.min ex ey)))) -
       cond_Zopp sy (Z.pos (fst (shl_align my ey (Z.min ex ey))))) (Z.min ex ey) false) as [H N].
    split; trivial.
    rewrite minus_IZR in H. unfold Rminus in H.
    rewrite Rmult_plus_distr_r, <- Ropp_mult_distr_l, !aligned_R in H by lia. exact H.
Qed.

Lemma sgn_xorb a b : sgn (xorb a b) = (sgn a * sgn b)%R.
Proof. destruct a, b; simpl; lra. Qed.

Lemma SFmul_R x y : finz x = true -> finz y = true ->
  valid_binary x = true -> valid_binary y = true ->
  rounds_s (SF2R x * SF2R y) (SF2R (SFmul prec emax x y)) /\
  is_nan (SFmul prec emax x y) = false.
Proof.
  destruct x as [sx|sx| |sx mx ex], y as [sy|sy| |sy my ey]; try discriminate;
    intros _ _ Vx Vy.
  1-3: split; trivial; simpl; rewrite ?Rmult_0_l, ?Rmult_0_r; left; split;
         [lra|apply rounds_0].
  unfold SFmul.
  simpl in Vx, Vy. apply bounded_spec in Vx as [Cx _], Vy as [Cy _].
  pose proof (digits2_pos_spec mx) as [Lx Ux]. pose proof (digits2_pos_spec my) as [Ly Uy].
  pose proof (digits2_pos_spec (mx * my)) as [Lp Up].
  assert (D : Z.pos (digits2_pos mx) + Z.pos (digits2_pos my) - 1 <= Z.pos (digits2_pos (mx * my))).
  { assert (P : 2 ^ (Z.pos (digits2_pos mx) - 1) * 2 ^ (Z.pos (digits2_pos my) - 1)
                < 2 ^ Z.pos (digits2_pos (mx * my))).
    { rewrite Pos2Z.inj_mul in Up.
      pose proof (pow2_pos (Z.pos (digits2_pos mx) - 1) ltac:(lia)).
      pose proof (pow2_pos (Z.pos (digits2_pos my) - 1) ltac:(lia)). nia. }
    rewrite <- Z.pow_add_r in P by lia.
    apply Z.pow_lt_mono_r_iff in P; lia. }
  assert (He : ex + ey <= SpecFloat.fexp prec emax (Z.pos (digits2_pos (mx * my)) + (ex + ey))).
  { rewrite fexp_eq. lia. }
  destruct (binary_round_aux_exact (xorb sx sy) (mx * my) (ex + ey) He) as (r & R1 & R2 & R3).
  change (Z.pos mx * Z.pos my) with (Z.pos (mx * my)).
  split; trivial. rewrite R1.
  pose proof (rounds_nonneg _ _ R2) as [P0 P1].
  assert (V : (SF2R (S754_finite sx mx ex) * SF2R (S754_finite sy my ey)
               = sgn (xorb sx sy) * (IZR (Z.pos (mx * my)) * bpow (ex + ey)))%R).
  { simpl. rewrite sgn_xorb, Pos2Z.inj_mul, mult_IZR, bpow_add. ring. }
  rewrite V. destruct (xorb sx sy); simpl.
  - right. split; [lra|].
    replace (- (-1 * (IZR (Z.pos (mx * my)) * bpow (ex + ey))))%R
      with (IZR (Z.pos (mx * my)) * bpow (ex + ey))%R by ring.
    replace (- (-1 * r))%R with r by ring. trivial.
  - left. rewrite !Rmult_1_l. tauto.
Qed.

Local Open Scope Z_scope.

(** ** The comparisons of [float] and the monotone operations *)

Lemma SFltb_R x y : valid_binary x = true -> valid_binary y = true ->
  SFltb x y = true <-> is_nan x = false /\ is_nan y = false /\ (SF2R x < SF2R y)%R.
Proof.
  intros Vx Vy. unfold SFltb. split.
  - destruct (SFcompare x y) as [c|] eqn:E; try discriminate.
    pose proof (SFcompare_R x y c Vx Vy E) as C.
    intros H. repeat split.
    + destruct x; trivial. discriminate.
    + destruct x, y; trivial; discriminate.
    + destruct c; simpl in C; try lra; discriminate.
  - intros (Nx & Ny & H).
    destruct (SFcompare_nan_free x y Nx Ny) as [c E]. rewrite E.
    pose proof (SFcompare_R x y c Vx Vy E) as C.
    destruct c; simpl in C; trivial; lra.
Qed.

Lemma leb_R x y :
  (x <=? y)%float = true <-> fnan x = false /\ fnan y = false /\ (FR x <= FR y)%R.
Proof. rewrite leb_spec. apply SFleb_R; apply Prim2SF_valid. Qed.

Lemma ltb_R x y :
  (x <? y)%float = true <-> fnan x = false /\ fnan y = false /\ (FR x < FR y)%R.
Proof. rewrite ltb_spec. apply SFltb_R; apply Prim2SF_valid. Qed.

Lemma leb_refl x : fnan x = false -> (x <=? x)%float = true.
Proof. intros H. apply leb_R. repeat split; trivial. lra. Qed.

Lemma leb_trans x y z :
  (x <=? y)%float = true -> (y <=? z)%float = true -> (x <=? z)%float = true.
Proof. rewrite !leb_R. intros (A & B & C) (D & E & F). repeat split; trivial. lra. Qed.

Lemma ltb_leb x y : (x <? y)%float = true -> (x <=? y)%float = true.
Proof. rewrite ltb_R, leb_R. intros (A & B & C). repeat split; trivial. lra. Qed.

Lemma ltb_leb_trans x y z :
  (x <? y)%float = true -> (y <=? z)%float = true -> (x <? z)%float = true.
Proof. rewrite !ltb_R, leb_R. intros (A & B & C) (D & E & F). repeat split; trivial. lra. Qed.

Lemma not_ltb_leb x y : fnan x = false -> fnan y = false ->
  (y <? x)%float = false -> (x <=? y)%float = true.
Proof.
  intros Nx Ny H. apply leb_R. repeat split; trivial.
  destruct (Rle_lt_dec (FR x) (FR y)) as [L|L]; trivial.
  assert ((y <? x)%float = true) by (apply ltb_R; tauto). congruence.
Qed.

Lemma not_leb_ltb x y : fnan x = false -> fnan y = false ->
  (x <=? y)%float = false -> (y <? x)%float = true.
Proof.
  intros Nx Ny H. apply ltb_R. repeat split; trivial.
  destruct (Rle_lt_dec (FR x) (FR y)) as [L|L]; trivial.
  assert ((x <=? y)%float = true) by (apply leb_R; tauto). congruence.
Qed.

Lemma leb_nonnan x y : (x <=? y)%float = true -> fnan x = false /\ fnan y = false.
Proof. rewrite leb_R. tauto. Qed.

(** a monotone exact function followed by rounding is monotone on floats *)
Lemma op_mono (op : spec_float -> spec_float) (h : R -> R) :
  (forall u v, (u <= v)%R -> (h u <= h v)%R) ->
  (forall X, finz X = true -> valid_binary X = true ->
     rounds_s (h (SF2R X)) (SF2R (op X)) /\ is_nan (op X) = false) ->
  (forall s, op (S754_infinity s) = S754_infinity s) ->
  forall X Y, valid_binary X = true -> valid_binary Y = true ->
    valid_binary (op X) = true -> valid_binary (op Y) = true ->
    SFleb X Y = true -> SFleb (op X) (op Y) = true.
Proof.
  intros Hh Hop Hinf X Y VX VY VoX VoY H.
  apply SFleb_R in H as (NX & NY & H); trivial.
  apply SFleb_R; trivial.
  pose proof (valid_bounds _ VoX) as BX. pose proof (valid_bounds _ VoY) as BY.
  pose proof (bpow_pos 1024) as P.
  assert (Hfin : forall Z, finz Z = true -> valid_binary Z = true ->
                   (- bpow 1024 < SF2R Z < bpow 1024)%R).
  { intros [s|s| |s m e]; simpl; try discriminate; intros _ V; [lra|].
    pose proof (bounded_lt_big m e V). pose proof (finite_mag m e) as [L _].
    pose proof (bpow_pos (Z.pos (digits2_pos m) - 1 + e)).
    destruct s; simpl; lra. }
  assert (HnY : is_nan (op Y) = false).
  { destruct Y as [s|s| |s m e]; try discriminate;
      [apply Hop; trivial | now rewrite Hinf | apply Hop; trivial]. }
  assert (HnX : is_nan (op X) = false).
  { destruct X as [s|s| |s m e]; try discriminate;
      [apply Hop; trivial | now rewrite Hinf | apply Hop; trivial]. }
  repeat split; trivial.
  destruct (finz X) eqn:FX, (finz Y) eqn:FY.
  - destruct (Hop X FX VX) as [RX _]. destruct (Hop Y FY VY) as [RY _].
    eapply rounds_s_mono; eauto.
  - destruct Y as [s|s| |s m e]; try discriminate.
    rewrite Hinf in *. pose proof (Hfin X FX VX). destruct s; simpl in *; lra.
  - destruct X as [s|s| |s m e]; try discriminate.
    rewrite Hinf in *. pose proof (Hfin Y FY VY). destruct s; simpl in *; lra.
  - destruct X as [s|s| |s m e]; try discriminate.
    destruct Y as [s'|s'| |s' m' e']; try discriminate.
    rewrite !Hinf. exact H.
Qed.

Local Open Scope float_scope.

Lemma sub_mono c x y : finz (Prim2SF c) = true ->
  (x <=? y) = true -> (x - c <=? y - c) = true.
Proof.
  intros Fc H. rewrite leb_spec in *. rewrite !sub_spec.
  apply (op_mono (fun X => SF64sub X (Prim2SF c)) (fun v => (v - FR c)%R)); trivial;
    try apply Prim2SF_valid; try (rewrite <- sub_spec; apply Prim2SF_valid).
  - intros; lra.
  - intros X FX VX. apply SFsub_R; trivial. apply Prim2SF_valid.
  - intros s. destruct (Prim2SF c); try discriminate; reflexivity.
Qed.

Lemma add_mono c x y : finz (Prim2SF c) = true ->
  (x <=? y) = true -> (c + x <=? c + y) = true.
Proof.
  intros Fc H. rewrite leb_spec in *. rewrite !add_spec.
  apply (op_mono (fun X => SF64add (Prim2SF c) X) (fun v => (FR c + v)%R)); trivial;
    try apply Prim2SF_valid; try (rewrite <- add_spec; apply Prim2SF_valid).
  - intros; lra.
  - intros X FX VX. apply SFadd_R; trivial. apply Prim2SF_valid.
  - intros s. destruct (Prim2SF c); try discriminate; reflexivity.
Qed.

Lemma mul_mono c x y : (0 <? c) = true -> finz (Prim2SF c) = true ->
  (x <=? y) = true -> (x * c <=? y * c) = true.
Proof.
  intros Pc Fc H. rewrite leb_spec in *. rewrite !mul_spec.
  apply ltb_R in Pc as (_ & _ & Pc).
  assert (Z0 : FR 0 = 0%R) by reflexivity. rewrite Z0 in Pc.
  apply (op_mono (fun X => SF64mul X (Prim2SF c)) (fun v => (v * FR c)%R)); trivial;
    try apply Prim2SF_valid; try (rewrite <- mul_spec; apply Prim2SF_valid).
  - intros; nra.
  - intros X FX VX. apply SFmul_R; trivial. apply Prim2SF_valid.
  - intros s. unfold FR in Pc.
    destruct (Prim2SF c) as [s'|s'| |s' m e]; try discriminate; simpl in Pc; try lra.
    destruct s'; simpl in *.
    + pose proof (finite_mag m e) as [L _].
      pose proof (bpow_pos (Z.pos (digits2_pos m) - 1 + e)). lra.
    + now rewrite xorb_false_r.
Qed.

Local Open Scope Z_scope.

(** ** The error of one rounding *)

Lemma Rabs_bound x a : (Rabs x <= a)%R -> (- a <= x <= a)%R.
Proof. unfold Rabs. destruct (Rcase_abs x); lra. Qed.

(** A value of the normal range below [2^k] rounds within half a unit in
    the last place of that binade. *)
Lemma rounds_error v r k : rounds v r ->
  (bpow (-1022) <= v < bpow k)%R -> k <= 1023 ->
  (Rabs (r - v) <= bpow (k - 54))%R.
Proof.
  intros [num den e Hn Hd He Hv Hr] [Lv Uv] Hk.
  pose proof (rnd_arg_bounds num den e Hn Hd) as (U & L). cbv zeta in U, L.
  rewrite <- Hv in U, L.
  pose proof (rnd_E_eq num den e) as EE.
  pose proof (rnd_q_bounds num den Hn Hd) as (Hq & _ & _).
  set (q := num / den) in *. set (E := rnd_exp num den e) in *.
  assert (Q0 : 0 < q).
  { destruct (Z.eq_dec q 0) as [Q|Q]; [|lia]. exfalso.
    rewrite Q in *. simpl Zdigits2 in *.
    assert (e <= -1074) by lia.
    pose proof (bpow_le e (-1074) ltac:(lia)). pose proof (bpow_lt (-1074) (-1022) ltac:(lia)).
    simpl in U. lra. }
  specialize (L Q0).
  set (D := Zdigits2 q + e) in *.
  replace (Zdigits2 q - 1 + e) with (D - 1) in L by (unfold D; lia).
  assert (D1 : -1022 < D) by (apply bpow_lt_inv; lra).
  assert (D2 : D - 1 < k) by (apply bpow_lt_inv; lra).
  assert (HE : E = D - 53) by lia.
  (* the mantissa is within one half *)
  assert (Hs : 0 <= E - e) by lia.
  pose proof (pow2_pos (E - e) Hs) as Ps.
  pose proof (rne_div_spec num (den * 2 ^ (E - e)) ltac:(nia)) as (S & _ & _).
  cbv zeta in S.
  set (m1 := rnd_man num den e) in *.
  change (Py.rne_div num (den * 2 ^ (E - e))) with m1 in S.
  assert (Pd : (0 < IZR den)%R) by (apply IZR_lt; lia).
  assert (PE : (0 < bpow (E - e))%R) by apply bpow_pos.
  destruct S as [S1 S2]. apply IZR_le in S1, S2.
  rewrite !mult_IZR, (IZR_pow2 (E - e)) in S1, S2 by lia.
  rewrite minus_IZR, mult_IZR in S1. rewrite plus_IZR, mult_IZR in S2.
  assert (Hnum : IZR num = (v * IZR den * bpow (E - e) * / bpow E)%R).
  { rewrite Hv. replace (E - e) with (E + - e) by lia. rewrite bpow_add.
    pose proof (bpow_pos e). pose proof (bpow_pos E).
    assert (X : (bpow (- e) * bpow e = 1)%R) by (rewrite <- bpow_add, Z.add_opp_diag_l; reflexivity).
    replace (IZR num / IZR den * bpow e * IZR den * (bpow E * bpow (- e)) * / bpow E)%R
      with (IZR num * (bpow (- e) * bpow e))%R by (field; lra).
    rewrite X. ring. }
  assert (Err : (- bpow (E - 1) <= IZR m1 * bpow E - v <= bpow (E - 1))%R).
  { pose proof (bpow_pos E) as PbE.
    assert (X1 : bpow E = (2 * bpow (E - 1))%R).
    { replace E with (1 + (E - 1)) at 1 by lia. rewrite bpow_add.
      replace (bpow 1) with 2%R by (unfold bpow; simpl; lra). reflexivity. }
    set (W := (IZR den * bpow (E - e))%R) in *.
    assert (PW : (0 < W)%R) by (unfold W; apply Rmult_lt_0_compat; assumption).
    assert (Hn2 : (IZR num * bpow E = v * W)%R).
    { rewrite Hnum. unfold W. field. lra. }
    assert (A1 : ((2 * IZR m1 - 1) * W * bpow E <= 2 * (IZR num * bpow E))%R).
    { apply (Rmult_le_compat_r (bpow E)) in S1; [|lra]. lra. }
    assert (A2 : (2 * (IZR num * bpow E) <= (2 * IZR m1 + 1) * W * bpow E)%R).
    { apply (Rmult_le_compat_r (bpow E)) in S2; [|lra]. lra. }
    rewrite Hn2 in A1, A2.
    assert (B1 : ((2 * IZR m1 - 1) * bpow E <= 2 * v)%R).
    { apply (Rmult_le_reg_r W); trivial. lra. }
    assert (B2 : (2 * v <= (2 * IZR m1 + 1) * bpow E)%R).
    { apply (Rmult_le_reg_r W); trivial. lra. }
    lra. }
  assert (EK : (bpow (E - 1) <= bpow (k - 54))%R) by (apply bpow_le; lia).
  assert (Hc : clamp (rnd_val num den e) = rnd_val num den e).
  { apply clamp_id. unfold rnd_val. fold m1. fold E.
    pose proof (bpow_le k 1023 Hk). pose proof (bpow_le (k - 54) 1023 ltac:(lia)).
    assert (bpow 1024 = 2 * bpow 1023)%R.
    { replace 1024 with (1 + 1023) by lia. rewrite bpow_add.
      replace (bpow 1) with 2%R by (unfold bpow; simpl; lra). reflexivity. }
    lra. }
  rewrite Hr, Hc. unfold rnd_val. fold m1. fold E. apply Rabs_le. lra.
Qed.

(** Every integer below [2^53] times a power of two of the range is a
    value that rounding keeps. *)
Lemma rounds_int n e : 0 <= n < 2 ^ 53 -> -1074 <= e ->
  (IZR n * bpow e <= bpow 1024)%R ->
  rounds (IZR n * bpow e) (IZR n * bpow e).
Proof.
  intros [N0 N1] He Hb.
  destruct n as [|p|p]; try lia.
  { rewrite Rmult_0_l. apply rounds_0. }
  pose proof (digits2_pos_spec p) as [L U].
  set (d := Z.pos (digits2_pos p)) in *.
  assert (Hd : 1 <= d <= 53).
  { split; [unfold d; lia|].
    destruct (Z_le_gt_dec d 53); trivial. exfalso.
    assert (2 ^ 53 <= 2 ^ (d - 1)) by (apply Z.pow_le_mono_r; lia). lia. }
  set (j := Z.min (53 - d) (e + 1074)).
  assert (Hj : 0 <= j) by (unfold j; lia).
  pose proof (pow2_pos j Hj) as Pj.
  assert (Hdig : Zdigits2 (Z.pos p * 2 ^ j) = d + j).
  { destruct (Z.pos p * 2 ^ j) as [|pz|pz] eqn:Ez; try lia.
    simpl Zdigits2. apply (digits2_shift p pz j Hj). symmetry. exact Ez. }
  assert (HE : rnd_exp (Z.pos p * 2 ^ j) 1 (e - j) = e - j).
  { unfold rnd_exp. rewrite Z.div_1_r, Hdig, fexp_eq. unfold j. lia. }
  apply (rounds_intro _ _ (Z.pos p * 2 ^ j) 1 (e - j)); try lia.
  - rewrite mult_IZR, IZR_pow2 by lia.
    replace e with (j + (e - j)) at 1 by lia. rewrite bpow_add. field.
  - unfold rnd_val, rnd_man. rewrite HE, Z.sub_diag.
    change (1 * 2 ^ 0) with 1.
    rewrite <- (Z.mul_1_r (Z.pos p * 2 ^ j)) at 1. rewrite rne_div_exact by lia.
    assert (X : (IZR (Z.pos p * 2 ^ j) * bpow (e - j) = IZR (Z.pos p) * bpow e)%R).
    { rewrite mult_IZR, IZR_pow2 by lia.
      replace e with (j + (e - j)) at 2 by lia. rewrite bpow_add. ring. }
    rewrite X. symmetry. now apply clamp_id.
Qed.

Local Open Scope Z_scope.

(** ** The factors [0.40] and [0.60] of a total *)

Lemma bpow_succ k : bpow (k + 1) = (2 * bpow k)%R.
Proof.
  rewrite bpow_add. replace (bpow 1) with 2%R by (unfold bpow; simpl; lra). ring.
Qed.

Lemma bpow_inv k : (bpow (- k) * bpow k = 1)%R.
Proof. rewrite <- bpow_add, Z.add_opp_diag_l. reflexivity. Qed.

(** The factors [0.40] and [0.60], as floats, add up to one. *)
Lemma factors_40_60 :
  (FR 0.40 + FR 0.60 = 1 /\ / 4 <= FR 0.40 <= / 2 /\ / 2 <= FR 0.60 <= 1)%R.
Proof.
  assert (E4 : Prim2SF 0.40 = S754_finite false 7205759403792794 (-54)) by reflexivity.
  assert (E6 : Prim2SF 0.60 = S754_finite false 5404319552844595 (-53)) by reflexivity.
  unfold FR. rewrite E4, E6. simpl SF2R.
  pose proof (bpow_succ (-54)) as B. simpl Z.add in B.
  pose proof (bpow_inv 54) as I. rewrite <- (IZR_pow2 54) in I by lia.
  change (2 ^ 54) with 18014398509481984 in I.
  change (bpow (- (54))) with (bpow (-54)) in I.
  set (x := bpow (-54)) in *. rewrite B. repeat split; lra.
Qed.

Lemma finz_of_R x : is_nan x = false -> (Rabs (SF2R x) < bpow 1024)%R -> finz x = true.
Proof.
  pose proof (bpow_pos 1024) as P.
  destruct x as [s|s| |s m e]; trivial; try discriminate.
  intros _ H. exfalso. simpl in H. destruct s; simpl in H.
  - rewrite Rabs_left in H by lra. lra.
  - rewrite Rabs_right in H by lra. lra.
Qed.

Lemma rounds_s_pos v r : (0 < v)%R -> rounds_s v r -> rounds v r.
Proof. intros P [[_ H]|[N _]]; trivial. lra. Qed.

(** A float between [2^-1000] and [2^1000] is normal and positive. *)
Lemma normal_range t :
  (0x1p-1000 <=? t)%float = true -> (t <=? 0x1p1000)%float = true ->
  exists m e, Prim2SF t = S754_finite false m e /\
    2 ^ 52 <= Z.pos m < 2 ^ 53 /\ -1053 < e <= 948.
Proof.
  intros L U. apply leb_R in L as (_ & N & L), U as (_ & _ & U).
  assert (E1 : FR 0x1p-1000 = bpow (-1000)).
  { assert (E : Prim2SF 0x1p-1000 = S754_finite false 4503599627370496 (-1052)) by reflexivity.
    unfold FR. rewrite E. simpl SF2R. change 4503599627370496 with (2 ^ 52).
    rewrite IZR_pow2, <- bpow_add by lia. simpl Z.add. lra. }
  assert (E2 : FR 0x1p1000 = bpow 1000).
  { assert (E : Prim2SF 0x1p1000 = S754_finite false 4503599627370496 948) by reflexivity.
    unfold FR. rewrite E. simpl SF2R. change 4503599627370496 with (2 ^ 52).
    rewrite IZR_pow2, <- bpow_add by lia. simpl Z.add. lra. }
  rewrite E1 in L. rewrite E2 in U.
  pose proof (Prim2SF_valid t) as V. unfold fnan, FR in *.
  pose proof (bpow_pos (-1000)) as P0. pose proof (bpow_lt 1000 1024 ltac:(lia)) as P1.
  destruct (Prim2SF t) as [s|s| |s m e]; simpl in L, U; try discriminate; try lra.
  - destruct s; simpl in L, U; lra.
  - pose proof (finite_mag m e) as [ML MU].
    pose proof (bpow_pos (Z.pos (digits2_pos m) - 1 + e)).
    destruct s; simpl in L, U; [lra|].
    rewrite Rmult_1_l in L, U.
    simpl in V. apply bounded_spec in V as [C B].
    assert (A1 : -1000 < Z.pos (digits2_pos m) + e) by (apply bpow_lt_inv; lra).
    assert (A2 : Z.pos (digits2_pos m) - 1 + e < 1001).
    { apply bpow_lt_inv. pose proof (bpow_lt 1000 1001 ltac:(lia)). lra. }
    pose proof (digits2_pos_spec m) as [DL DU].
    assert (D : Z.pos (digits2_pos m) = 53) by lia. rewrite D in *.
    exists m, e. repeat split; trivial; try lia.
Qed.

(** The parts [t * 0.40] and [t * 0.60] of a total [t] of the normal range
    add up to [t] within one unit in its last place. *)
Lemma split_error t :
  (0x1p-1000 <=? t)%float = true -> (t <=? 0x1p1000)%float = true ->
  fnan (t * 0.40 + t * 0.60)%float = false /\
  (Rabs (FR (t * 0.40 + t * 0.60)%float - FR t) <= FR t * bpow (-52))%R.
Proof.
  intros L U. destruct (normal_range t L U) as (m & e & Ht & [M0 M1] & [E0 E1]).
  pose proof (Prim2SF_valid t) as Vt.
  destruct factors_40_60 as (C & [C4l C4u] & [C6l C6u]).
  set (T := FR t).
  assert (HT : T = (IZR (Z.pos m) * bpow e)%R).
  { unfold T, FR. rewrite Ht. simpl. ring. }
  set (u := bpow e).
  assert (Pu : (0 < u)%R) by apply bpow_pos.
  assert (TL : (bpow 52 * u <= T)%R).
  { rewrite HT. fold u. rewrite <- (IZR_pow2 52) by lia. apply IZR_le in M0. nra. }
  assert (TU : (T <= bpow 53 * u - u)%R).
  { rewrite HT. fold u. rewrite <- (IZR_pow2 53) by lia.
    assert (Z.pos m <= 2 ^ 53 - 1) by lia. apply IZR_le in H. rewrite minus_IZR in H. nra. }
  assert (K52 : (bpow 52 * u = bpow (52 + e))%R) by (unfold u; now rewrite bpow_add).
  assert (K53 : (bpow 53 * u = bpow (53 + e))%R) by (unfold u; now rewrite bpow_add).
  assert (S1 : bpow (53 + e) = (2 * bpow (52 + e))%R)
    by (rewrite <- bpow_succ; f_equal; lia).
  assert (S2 : bpow (52 + e) = (2 * bpow (51 + e))%R)
    by (rewrite <- bpow_succ; f_equal; lia).
  assert (S3 : bpow (51 + e) = (2 * bpow (50 + e))%R)
    by (rewrite <- bpow_succ; f_equal; lia).
  assert (U1 : u = (2 * bpow (e - 1))%R)
    by (unfold u; rewrite <- bpow_succ; f_equal; lia).
  assert (U2 : bpow (e - 1) = (2 * bpow (e - 2))%R)
    by (rewrite <- bpow_succ; f_equal; lia).
  pose proof (bpow_pos (50 + e)) as P50. pose proof (bpow_pos (e - 2)) as Pe2.
  pose proof (bpow_le (-1022) (50 + e) ltac:(lia)) as Lo.
  (* the two products *)
  assert (F4 : finz (Prim2SF 0.40) = true) by reflexivity.
  assert (F6 : finz (Prim2SF 0.60) = true) by reflexivity.
  assert (Ft : finz (Prim2SF t) = true) by (rewrite Ht; reflexivity).
  destruct (SFmul_R (Prim2SF t) (Prim2SF 0.40) Ft F4 Vt (Prim2SF_valid _)) as [Ra Na].
  destruct (SFmul_R (Prim2SF t) (Prim2SF 0.60) Ft F6 Vt (Prim2SF_valid _)) as [Rb Nb].
  change (SFmul prec emax) with SF64mul in Ra, Rb, Na, Nb.
  rewrite <- mul_spec in Ra, Rb, Na, Nb.
  fold (FR t) (FR 0.40) (FR (t * 0.40)%float) in Ra.
  fold (FR t) (FR 0.60) (FR (t * 0.60)%float) in Rb. fold T in Ra, Rb.
  set (a := (t * 0.40)%float) in *. set (b := (t * 0.60)%float) in *.
  apply rounds_s_pos in Ra; [|nra]. apply rounds_s_pos in Rb; [|nra].
  assert (Ea : (Rabs (FR a - T * FR 0.40) <= bpow (e - 2))%R).
  { replace (e - 2) with (52 + e - 54) by lia. apply rounds_error; trivial; [|lia].
    split; nra. }
  assert (Eb : (Rabs (FR b - T * FR 0.60) <= bpow (e - 1))%R).
  { replace (e - 1) with (53 + e - 54) by lia. apply rounds_error; trivial; [|lia].
    split; nra. }
  apply Rabs_bound in Ea, Eb.
  pose proof (bpow_le (53 + e) 1001 ltac:(lia)) as Hi.
  pose proof (bpow_lt 1001 1024 ltac:(lia)) as Hi'.
  assert (Fa : finz (Prim2SF a) = true).
  { apply finz_of_R; trivial. fold (FR a). apply Rabs_def1; nra. }
  assert (Fb : finz (Prim2SF b) = true).
  { apply finz_of_R; trivial. fold (FR b). apply Rabs_def1; nra. }
  destruct (SFadd_R (Prim2SF a) (Prim2SF b) Fa Fb (Prim2SF_valid _) (Prim2SF_valid _))
    as [Rs Ns].
  change (SFadd prec emax) with SF64add in Rs, Ns. rewrite <- add_spec in Rs, Ns.
  fold (FR a) (FR b) (FR (a + b)%float) in Rs.
  split; [exact Ns|].
  assert (Sum : (T - u <= FR a + FR b <= T + u)%R) by nra.
  (* the floats next to the total *)
  assert (Rlo : rounds_s (T - u) (T - u)).
  { left. split; [nra|].
    replace (T - u)%R with (IZR (Z.pos m - 1) * bpow e)%R
      by (rewrite minus_IZR, HT; unfold u; ring).
    apply rounds_int; try lia.
    rewrite minus_IZR. fold u. fold u in HT. nra. }
  assert (Rhi : rounds_s (T + u) (T + u)).
  { left. split; [nra|].
    destruct (Z.eq_dec (Z.pos m + 1) (2 ^ 53)) as [Top|Top].
    - replace (T + u)%R with (IZR (2 ^ 52) * bpow (e + 1))%R.
      + apply rounds_int; try lia.
        rewrite IZR_pow2, <- bpow_add by lia. apply bpow_le. lia.
      + rewrite bpow_succ. fold u. rewrite HT. fold u.
        assert (X : IZR (Z.pos m) = (IZR (2 ^ 53) - 1)%R)
          by (rewrite <- Top, plus_IZR; ring).
        rewrite X. change (2 ^ 53) with (2 * 2 ^ 52). rewrite mult_IZR. ring.
    - replace (T + u)%R with (IZR (Z.pos m + 1) * bpow e)%R
        by (rewrite plus_IZR, HT; unfold u; ring).
      apply rounds_int; try lia.
      rewrite plus_IZR. fold u. fold u in HT. nra. }
  pose proof (rounds_s_mono _ _ _ _ Rlo Rs (proj1 Sum)) as Lo'.
  pose proof (rounds_s_mono _ _ _ _ Rs Rhi (proj2 Sum)) as Hi''.
  assert (X : (bpow (-52) * bpow 52 = 1)%R) by apply (bpow_inv 52).
  assert (Y : (u <= T * bpow (-52))%R).
  { pose proof (bpow_pos (-52)) as P.
    apply (Rmult_le_compat_l (bpow (-52))) in TL; [|lra].
    replace (bpow (-52) * (bpow 52 * u))%R with ((bpow (-52) * bpow 52) * u)%R in TL by ring.
    rewrite X in TL. lra. }
  apply Rabs_le. lra.
Qed.

Local Open Scope float_scope.

(** ** The INSS withholding is monotone *)

Lemma loop_monotone_nil total lower :
  fnan total = false -> loop_monotone [] total lower.
Proof.
  intros N g1 g2 _ _. exists total, total. repeat split; now apply leb_refl.
Qed.

Lemma faixa_mono total lower rate g g' :
  finz (Prim2SF total) = true -> finz (Prim2SF lower) = true ->
  (0 <? rate) = true -> finz (Prim2SF rate) = true ->
  (g <=? g') = true ->
  (total + (g - lower) * rate <=? total + (g' - lower) * rate) = true.
Proof.
  intros Ft Fl Pr Fr H.
  apply add_mono; trivial. apply mul_mono; trivial. now apply sub_mono.
Qed.

Lemma loop_monotone_cons i upper rest total lower rate :
  Py.getitem INSS_RATES i = Ok rate ->
  finz (Prim2SF total) = true -> finz (Prim2SF lower) = true ->
  (0 <? rate) = true -> finz (Prim2SF rate) = true ->
  (lower <=? upper) = true ->
  (total <=? total + (lower - lower) * rate) = true ->
  loop_monotone rest (total + (upper - lower) * rate) upper ->
  loop_monotone ((i, upper) :: rest) total lower.
Proof.
  intros Hi Ft Fl Pr Fr Hlu Hbase IH g1 g2 H1 H12.
  destruct (leb_nonnan _ _ H12) as [N1 N2].
  destruct (leb_nonnan _ _ Hlu) as [_ Nu].
  assert (Hf : forall g g', (g <=? g') = true ->
            (total + (g - lower) * rate <=? total + (g' - lower) * rate) = true)
    by (intros; now apply faixa_mono).
  assert (Hlow : forall g, (lower <=? g) = true ->
            (total <=? total + (g - lower) * rate) = true)
    by (intros g Hg; eapply leb_trans; [exact Hbase | now apply Hf]).
  simpl inss_loop. rewrite Hi. simpl py_bind. unfold Py.gtb.
  destruct (upper <? g1) eqn:G1, (upper <? g2) eqn:G2.
  - destruct (IH g1 g2 (ltb_leb _ _ G1) H12) as (v1 & v2 & E1 & E2 & L & T).
    exists v1, v2. repeat split; trivial.
    eapply leb_trans; [apply (Hlow upper Hlu) | exact T].
  - rewrite (ltb_leb_trans _ _ _ G1 H12) in G2. discriminate.
  - destruct (IH g2 g2 (ltb_leb _ _ G2) (leb_refl _ N2)) as (v & v' & E & E' & _ & T).
    exists (total + (g1 - lower) * rate), v. repeat split; trivial.
    + eapply leb_trans; [|exact T]. apply Hf. now apply not_ltb_leb.
    + now apply Hlow.
  - exists (total + (g1 - lower) * rate), (total + (g2 - lower) * rate).
    repeat split; trivial; [now apply Hf | now apply Hlow].
Qed.

Lemma inss_loop_monotone : loop_monotone (Py.enumerate INSS_LIMITS) 0 0.
Proof.
  change (Py.enumerate INSS_LIMITS)
    with [(0%nat, 1518.00); (1%nat, 2793.88); (2%nat, 4190.83); (3%nat, 8157.41)].
  repeat (eapply loop_monotone_cons; [reflexivity | reflexivity | reflexivity
          | reflexivity | reflexivity | reflexivity | reflexivity | ]).
  apply loop_monotone_nil. reflexivity.
Qed.

(** C2. The INSS withholding is monotone: for all gross salaries [g1 <= g2]
    (as binary64 floats, the comparison being Python's), [calcular_inss]
    returns on both and [calcular_inss g1 <= calcular_inss g2]. *)
Theorem calcular_inss_monotone (g1 g2 : float) :
  (g1 <=? g2) = true ->
  exists v1 v2,
    calcular_inss g1 = Ok v1 /\ calcular_inss g2 = Ok v2 /\ (v1 <=? v2) = true.
Proof.
  intros H. destruct (leb_nonnan _ _ H) as [N1 N2].
  assert (N0 : fnan 0 = false) by reflexivity.
  unfold calcular_inss.
  destruct (g2 <=? 0) eqn:G2.
  - rewrite (leb_trans _ _ _ H G2). exists 0, 0. repeat split; reflexivity.
  - assert (P2 : (0 <=? g2) = true) by (apply ltb_leb, not_leb_ltb; trivial).
    destruct (g1 <=? 0) eqn:G1.
    + destruct (inss_loop_monotone g2 g2 P2 (leb_refl _ N2)) as (v & v' & E & _ & _ & T).
      exists 0, v. repeat split; trivial.
    + assert (P1 : (0 <=? g1) = true) by (apply ltb_leb, not_leb_ltb; trivial).
      destruct (inss_loop_monotone g1 g2 P1 H) as (v1 & v2 & E1 & E2 & L & _).
      exists v1, v2. tauto.
Qed.


(** The salaries 2000 and 3000. *)
Lemma calcular_inss_monotone_witness :
  (2000 <=? 3000) = true /\
  exists v1 v2,
    calcular_inss 2000 = Ok v1 /\ calcular_inss 3000 = Ok v2 /\ (v1 <=? v2) = true.
Proof.
  split; [reflexivity | apply (calcular_inss_monotone 2000 3000); reflexivity].
Defined.

Local Open Scope string_scope.
Local Open Scope float_scope.

(** ** Point values and ceiling of the INSS withholding *)

Lemma ltb_trans x y z : (x <? y) = true -> (y <? z) = true -> (x <? z) = true.
Proof. rewrite !ltb_R. intros (A & B & C) (D & E & F). repeat split; trivial. lra. Qed.

Lemma ltb_not_leb x y : (x <? y) = true -> (y <=? x) = false.
Proof.
  intros H. destruct (y <=? x) eqn:E; trivial.
  apply ltb_R in H. apply leb_R in E. lra.
Qed.

Lemma leb_not_gtb x y : (x <=? y) = true -> Py.gtb x y = false.
Proof.
  intros H. unfold Py.gtb. destruct (y <? x) eqn:E; trivial.
  apply ltb_R in E. apply leb_R in H. lra.
Qed.

(** C3. Point values of the INSS withholding: it is [0] for every gross
    salary [g <= 0], in particular for [0] and [-5], and at the ceiling of
    the first bracket [calcular_inss(1518.00) = 1518.00 * 0.075], the float
    that the literal [113.85] denotes. *)
Theorem inss_point_values :
  (forall g, (g <=? 0) = true -> calcular_inss g = Ok 0) /\
  calcular_inss 0 = Ok 0 /\
  calcular_inss (-5) = Ok 0 /\
  calcular_inss 1518.00 = Ok (1518.00 * 0.075) /\
  1518.00 * 0.075 = 113.85.
Proof.
  split; [|repeat split; reflexivity].
  intros g H. unfold calcular_inss. now rewrite H.
Qed.

(** The salary [-5]. *)
Lemma inss_point_values_witness :
  (-5 <=? 0) = true /\ calcular_inss (-5) = Ok 0.
Proof.
  split; [reflexivity | apply (proj1 inss_point_values (-5)); reflexivity].
Defined.

(** C4. The contribution ceiling: for every gross salary above the last
    limit 8157.41, [calcular_inss] returns one constant, the sum over the
    four brackets of [(upper - lower) * rate] in the order of the loop;
    nothing is charged on the part of the salary above the last limit. *)
Theorem inss_ceiling (g : float) :
  (8157.41 <? g) = true ->
  calcular_inss g = Ok teto_inss /\
  teto_inss = 0 + (1518.00 - 0) * 0.075 + (2793.88 - 1518.00) * 0.09
                + (4190.83 - 2793.88) * 0.12 + (8157.41 - 4190.83) * 0.14.
Proof.
  intros H. split; [|reflexivity].
  assert (H3 : (4190.83 <? g) = true) by (eapply ltb_trans; [|exact H]; reflexivity).
  assert (H2 : (2793.88 <? g) = true) by (eapply ltb_trans; [|exact H]; reflexivity).
  assert (H1 : (1518.00 <? g) = true) by (eapply ltb_trans; [|exact H]; reflexivity).
  assert (H0 : (0 <? g) = true) by (eapply ltb_trans; [|exact H]; reflexivity).
  unfold calcular_inss. rewrite (ltb_not_leb _ _ H0).
  change (Py.enumerate INSS_LIMITS)
    with [(0%nat, 1518.00); (1%nat, 2793.88); (2%nat, 4190.83); (3%nat, 8157.41)].
  cbn [inss_loop]. unfold Py.gtb.
  change (Py.getitem INSS_RATES 0) with (Ok 0.075).
  change (Py.getitem INSS_RATES 1) with (Ok 0.09).
  change (Py.getitem INSS_RATES 2) with (Ok 0.12).
  change (Py.getitem INSS_RATES 3) with (Ok 0.14).
  cbn [py_bind]. rewrite H1, H2, H3, H. reflexivity.
Qed.

(** The salary 9000. *)
Lemma inss_ceiling_witness :
  (8157.41 <? 9000) = true /\ calcular_inss 9000 = Ok teto_inss.
Proof.
  split; [reflexivity | apply (inss_ceiling 9000); reflexivity].
Defined.

Local Open Scope string_scope.
Local Open Scope float_scope.

(** ** The meal voucher and the days of a month *)

Lemma truediv_100 x : Py.truediv x 100.0 = Ok (x / 100.0).
Proof. reflexivity. Qed.

(** [float(n)] is defined for every day count below [2^1023]. *)
Lemma float_of_int_total (z : Z) : (0 <= z <= 2 ^ 1023)%Z ->
  exists f, Py.float_of_int z = Ok f.
Proof.
  intros Hz. unfold Py.float_of_int.
  destruct (binary_normalize_R z 0 false) as [R _].
  destruct (binary_normalize prec emax z 0 false) as [s|s| |s m e] eqn:E;
    try (eexists; reflexivity).
  exfalso. simpl SF2R in R.
  replace (IZR z * bpow 0)%R with (IZR z) in R by (unfold bpow; simpl; lra).
  assert (V : SpecFloat.bounded prec emax (Z.to_pos (2 ^ 52)) 971 = true) by reflexivity.
  pose proof (rounds_bounded _ _ V) as B.
  assert (T : (IZR (Z.pos (Z.to_pos (2 ^ 52))) * bpow 971 = bpow 1023)%R).
  { change (Z.pos (Z.to_pos (2 ^ 52))) with (2 ^ 52)%Z.
    rewrite IZR_pow2 by lia. rewrite <- bpow_add. reflexivity. }
  rewrite T in B.
  assert (Hv : (0 <= IZR z <= bpow 1023)%R).
  { rewrite <- IZR_pow2 by lia. split; apply IZR_le; lia. }
  pose proof (bpow_lt 1023 1024 ltac:(lia)) as L. pose proof (bpow_pos 1023) as P.
  destruct R as [[_ R]|[R0 R]].
  - pose proof (rounds_mono _ _ _ _ R B ltac:(lra)) as M.
    pose proof (rounds_nonneg _ _ R) as [_ N].
    destruct s; simpl sgn in *; lra.
  - assert (Z0 : IZR z = 0%R) by lra. rewrite Z0, Ropp_0 in R.
    apply rounds_zero in R. destruct s; simpl sgn in *; lra.
Qed.

(** C6. The discount of the meal voucher is gated by its three inputs:
    [calcular_vr] returns [(valor_vr * dias_vr) * (percentual / 100)] when
    the percentage, the unit value and the number of days are all strictly
    positive, and [0] as soon as one of them is zero or negative; for
    [calcular_vr(20, 22, 50)] that is [220.0].  The product takes the day
    count through [float], which is defined for every count up to
    [2^1023]. *)
Theorem calcular_vr_gating (valor_vr : float) (dias_vr : Z) (percentual : float) :
  (forall dias, (0 <? percentual) = true -> (0 <? valor_vr) = true -> (0 < dias_vr)%Z ->
     Py.float_of_int dias_vr = Ok dias ->
     calcular_vr valor_vr dias_vr percentual = Ok ((valor_vr * dias) * (percentual / 100))) /\
  ((0 <? percentual) = true -> (0 <? valor_vr) = true -> (0 < dias_vr <= 2 ^ 1023)%Z ->
     exists dias, Py.float_of_int dias_vr = Ok dias /\
       calcular_vr valor_vr dias_vr percentual = Ok ((valor_vr * dias) * (percentual / 100))) /\
  ((percentual <=? 0) = true \/ (valor_vr <=? 0) = true \/ (dias_vr <= 0)%Z ->
     calcular_vr valor_vr dias_vr percentual = Ok 0) /\
  calcular_vr 20 22 50 = Ok 220 /\ (20 * 22) * 0.5 = 220.
Proof.
  assert (A : forall dias, (0 <? percentual) = true -> (0 <? valor_vr) = true ->
            (0 < dias_vr)%Z -> Py.float_of_int dias_vr = Ok dias ->
            calcular_vr valor_vr dias_vr percentual
              = Ok ((valor_vr * dias) * (percentual / 100))).
  { intros dias Hp Hv Hd Hf. unfold calcular_vr, Py.gtb, Py.mul_float_int.
    rewrite Hp, Hv. replace (dias_vr >? 0)%Z with true by (symmetry; apply Z.gtb_lt; lia).
    cbn [andb]. rewrite Hf. reflexivity. }
  split; [exact A|]. split; [|split; [|split; reflexivity]].
  - intros Hp Hv Hd. destruct (float_of_int_total dias_vr ltac:(lia)) as [dias Hf].
    exists dias. split; trivial. apply A; trivial; lia.
  - intros H. unfold calcular_vr.
    destruct H as [H|[H|H]].
    + now rewrite (leb_not_gtb _ _ H).
    + rewrite (leb_not_gtb _ _ H). now rewrite andb_false_r.
    + replace (dias_vr >? 0)%Z with false by (symmetry; rewrite Z.gtb_ltb; apply Z.ltb_ge; lia).
      now rewrite andb_false_r.
Qed.

(** A voucher of 20.50 for 22 days, at 10% and at 0%. *)
Lemma calcular_vr_gating_witness :
  calcular_vr 20.5 22 10 = Ok ((20.5 * 22) * (10 / 100)) /\
  calcular_vr 20.5 22 0 = Ok 0.
Proof.
  split.
  - apply (proj1 (calcular_vr_gating 20.5 22 10) 22); reflexivity.
  - apply (proj1 (proj2 (proj2 (calcular_vr_gating 20.5 22 0)))). left. reflexivity.
Defined.

Lemma isleap_gregorian year : calendar.isleap year = true <-> gregorian_leap year.
Proof.
  unfold calendar.isleap, gregorian_leap.
  rewrite andb_true_iff, orb_true_iff, negb_true_iff, Z.eqb_neq, !Z.eqb_eq.
  rewrite <- !Z.mod_divide by lia. split.
  - intros [H4 H]. split; trivial. tauto.
  - intros [H4 H]. split; trivial.
    destruct (Z.eq_dec (year mod 100) 0); destruct (Z.eq_dec (year mod 400) 0); tauto.
Qed.

Lemma days_in_month_spec year month : (1 <= month <= 12)%Z ->
  days_of_month year month (calendar.days_in_month year month).
Proof.
  intros H. unfold calendar.days_in_month.
  assert (month = 1 \/ month = 2 \/ month = 3 \/ month = 4 \/ month = 5 \/ month = 6 \/
          month = 7 \/ month = 8 \/ month = 9 \/ month = 10 \/ month = 11 \/ month = 12)%Z
    as C by lia.
  destruct C as [->|[->|[->|[->|[->|[->|[->|[->|[->|[->|[->| ->]]]]]]]]]]]; simpl;
    try (apply days_31; simpl; tauto); try (apply days_30; simpl; tauto).
  destruct (calendar.isleap year) eqn:L.
  - apply days_feb_leap. now apply isleap_gregorian.
  - apply days_feb_common. rewrite <- isleap_gregorian. congruence.
Qed.

Lemma days_of_month_unique year month n n' :
  days_of_month year month n -> days_of_month year month n' -> n = n'.
Proof.
  intros H H'. inversion H; inversion H'; subst; trivial; simpl in *; try tauto;
    intuition lia.
Qed.

(** C8. The check of the worked days: [verificar_dias_validos] returns
    [False] when the month is outside 1..12, and otherwise [True] exactly
    when [0 <= dias <= n], [n] being the number of days of the month under
    the Gregorian leap-year rule; it accepts (2024, 2, 29) and rejects
    (2023, 2, 29) and (2025, 13, 1). *)
Theorem verificar_dias_validos_spec (ano mes dias : Z) :
  ((mes < 1 \/ 12 < mes)%Z -> verificar_dias_validos ano mes dias = Ok false) /\
  ((1 <= mes <= 12)%Z ->
     exists n, days_of_month ano mes n /\
       verificar_dias_validos ano mes dias = Ok ((0 <=? dias) && (dias <=? n))%Z) /\
  verificar_dias_validos 2024 2 29 = Ok true /\
  verificar_dias_validos 2023 2 29 = Ok false /\
  verificar_dias_validos 2025 13 1 = Ok false.
Proof.
  split; [|split; [|repeat split; reflexivity]].
  - intros H. unfold verificar_dias_validos.
    replace ((mes <? 1) || (mes >? 12))%Z with true; trivial.
    symmetry. apply orb_true_iff. rewrite Z.ltb_lt, Z.gtb_lt. lia.
  - intros H. exists (calendar.days_in_month ano mes). split.
    + now apply days_in_month_spec.
    + unfold verificar_dias_validos, calendar.monthrange.
      replace ((mes <? 1) || (mes >? 12))%Z with false.
      * replace ((1 <=? mes) && (mes <=? 12))%Z with true; trivial.
        symmetry. apply andb_true_iff. rewrite !Z.leb_le. lia.
      * symmetry. apply orb_false_iff. rewrite Z.ltb_ge, Z.gtb_ltb, Z.ltb_ge. lia.
Qed.

(** Month 0 of 2025, and February of 1900, a century that is not leap. *)
Lemma verificar_dias_validos_witness :
  verificar_dias_validos 2025 0 10 = Ok false /\
  exists n, days_of_month 1900 2 n /\
    verificar_dias_validos 1900 2 29 = Ok ((0 <=? 29) && (29 <=? n))%Z.
Proof.
  split.
  - apply (proj1 (verificar_dias_validos_spec 2025 0 10)). lia.
  - apply (proj1 (proj2 (verificar_dias_validos_spec 1900 2 29))). lia.
Defined.

Local Open Scope string_scope.
Local Open Scope float_scope.

(** ** The result text *)

Lemma SFeqb_R x y : valid_binary x = true -> valid_binary y = true ->
  SFeqb x y = true -> (SF2R x = SF2R y)%R.
Proof.
  intros Vx Vy. unfold SFeqb.
  destruct (SFcompare x y) as [c|] eqn:E; try discriminate.
  pose proof (SFcompare_R x y c Vx Vy E) as C.
  destruct c; simpl in C; trivial; discriminate.
Qed.

Lemma gtb_0_neq_0 x : Py.gtb x 0 = true -> (x =? 0) = false.
Proof.
  unfold Py.gtb. intros H. apply ltb_R in H as (_ & _ & H).
  destruct (x =? 0) eqn:E; trivial. rewrite eqb_spec in E.
  apply SFeqb_R in E; try apply Prim2SF_valid. fold (FR x) in E. fold (FR 0) in E. lra.
Qed.

Lemma calcular_inss_total g : exists v, calcular_inss g = Ok v.
Proof.
  unfold calcular_inss. destruct (g <=? 0); [eexists; reflexivity|].
  change (Py.enumerate INSS_LIMITS)
    with [(0%nat, 1518.00); (1%nat, 2793.88); (2%nat, 4190.83); (3%nat, 8157.41)].
  cbn [inss_loop].
  change (Py.getitem INSS_RATES 0) with (Ok 0.075).
  change (Py.getitem INSS_RATES 1) with (Ok 0.09).
  change (Py.getitem INSS_RATES 2) with (Ok 0.12).
  change (Py.getitem INSS_RATES 3) with (Ok 0.14).
  cbn [py_bind].
  repeat match goal with |- context [if ?b then _ else _] => destruct b end;
    eexists; reflexivity.
Qed.

Lemma calcular_insalubridade_total p : exists r, calcular_insalubridade p = Ok r.
Proof.
  unfold calcular_insalubridade. destruct (p <=? 0); eexists; reflexivity.
Qed.

Lemma calcular_vt_total s p : exists v, calcular_vt s p = Ok v.
Proof.
  unfold calcular_vt. destruct (Py.gtb p 0 && Py.gtb s 0); eexists; reflexivity.
Qed.

Lemma calcular_vr_total v d p dias : Py.float_of_int d = Ok dias ->
  exists r, calcular_vr v d p = Ok r.
Proof.
  intros H. unfold calcular_vr, Py.mul_float_int. rewrite H.
  destruct (Py.gtb p 0 && Py.gtb v 0 && (d >? 0)%Z); eexists; reflexivity.
Qed.

Lemma calcular_vr_exn v d p e : calcular_vr v d p = Raise e -> e = OverflowError.
Proof.
  unfold calcular_vr, Py.mul_float_int, Py.float_of_int.
  destruct (Py.gtb p 0 && Py.gtb v 0 && (d >? 0)%Z); try discriminate.
  destruct (binary_normalize prec emax d 0 false); simpl; congruence.
Qed.

Lemma percentual_inss_total sb inss :
  exists r,
    (if Py.gtb sb 0 then q <- Py.truediv inss sb ;; Ok (q * 100.0) else Ok 0.0) = Ok r /\
    (Py.gtb sb 0 = true -> r = inss / sb * 100.0) /\
    (Py.gtb sb 0 = false -> r = 0).
Proof.
  destruct (Py.gtb sb 0) eqn:G.
  - unfold Py.truediv. rewrite (gtb_0_neq_0 _ G). simpl.
    eexists; repeat split; trivial; discriminate.
  - eexists; repeat split; trivial; discriminate.
Qed.

Local Open Scope string_scope.
Local Open Scope float_scope.

(** ** The split of the insalubridade *)

(** At 29% the two parts do not add up to the total: the sum is one unit
    in the last place below it. *)
Lemma insalubridade_split_not_exact :
  exists total parte40 parte60,
    (0 <? 29) = true /\
    calcular_insalubridade 29 = Ok (total, parte40, parte60) /\
    (parte40 + parte60 =? total) = false.
Proof.
  do 3 eexists. split; [reflexivity|]. split; [vm_compute; reflexivity|].
  vm_compute. reflexivity.
Qed.

(** Every percentage from 0.01 to 100.00 in steps of 0.01. *)
Lemma split_within_rounding_grid :
  forallb (fun n => split_within_rounding (percentual_de_centesimos (Z.of_nat n)))
    (seq 1 (Z.to_nat 10000)) = true.
Proof. vm_compute. reflexivity. Qed.

(** C5, amended. [calcular_insalubridade] returns [(0, 0, 0)] for every
    percentage [p <= 0], and for [p > 0] the total [1518.00 * (p / 100)]
    with the parts [total * 0.40] and [total * 0.60].  The two parts add up
    to the total within one rounding error, not always exactly: as real
    numbers, [|(parte40 + parte60) - total| <= total * 2^-52] whenever the
    total is a float between [2^-1000] and [2^1000]; and the same bound,
    computed with the floats, holds for every percentage of two decimals
    from 0.01 to 100.00. *)
Theorem calcular_insalubridade_spec (p : float) :
  ((p <=? 0) = true -> calcular_insalubridade p = Ok (0, 0, 0)) /\
  ((0 <? p) = true ->
     calcular_insalubridade p
       = Ok (SALARIO_MINIMO * (p / 100), SALARIO_MINIMO * (p / 100) * 0.40,
             SALARIO_MINIMO * (p / 100) * 0.60)) /\
  SALARIO_MINIMO = 1518.00 /\
  (forall total parte40 parte60,
     calcular_insalubridade p = Ok (total, parte40, parte60) ->
     (0x1p-1000 <=? total) = true -> (total <=? 0x1p1000) = true ->
     (Rabs (FR (parte40 + parte60) - FR total) <= FR total * bpow (-52))%R) /\
  (forall n, (1 <= n <= 10000)%Z ->
     split_within_rounding (percentual_de_centesimos n) = true).
Proof.
  split; [|split; [|split; [reflexivity|split]]].
  - intros H. unfold calcular_insalubridade. now rewrite H.
  - intros H. unfold calcular_insalubridade. rewrite (ltb_not_leb _ _ H). reflexivity.
  - intros total parte40 parte60 H L U. unfold calcular_insalubridade in H.
    destruct (p <=? 0).
    + injection H as <- _ _. discriminate L.
    + cbn [Py.truediv py_bind] in H.
      change (100 =? 0) with false in H. cbn [py_bind] in H.
      injection H as Ht <- <-. rewrite Ht.
      now apply split_error.
  - intros n Hn. pose proof split_within_rounding_grid as G.
    rewrite forallb_forall in G. specialize (G (Z.to_nat n)).
    rewrite Z2Nat.id in G by lia. apply G. apply in_seq. lia.
Qed.

(** The percentages 0, 20 and 29. *)
Lemma calcular_insalubridade_spec_witness :
  calcular_insalubridade 0 = Ok (0, 0, 0) /\
  calcular_insalubridade 20 = Ok (1518.00 * (20 / 100), 1518.00 * (20 / 100) * 0.40,
                                  1518.00 * (20 / 100) * 0.60) /\
  (Rabs (FR (1518.00 * (29 / 100) * 0.40 + 1518.00 * (29 / 100) * 0.60)
         - FR (1518.00 * (29 / 100)))
   <= FR (1518.00 * (29 / 100)) * bpow (-52))%R /\
  split_within_rounding (percentual_de_centesimos 2900) = true.
Proof.
  split; [apply (proj1 (calcular_insalubridade_spec 0)); reflexivity|].
  split; [apply (proj1 (proj2 (calcular_insalubridade_spec 20))); reflexivity|].
  split.
  - apply (proj1 (proj2 (proj2 (proj2 (calcular_insalubridade_spec 29))))
             (1518.00 * (29 / 100)) (1518.00 * (29 / 100) * 0.40)
             (1518.00 * (29 / 100) * 0.60)); reflexivity.
  - apply (proj2 (proj2 (proj2 (proj2 (calcular_insalubridade_spec 0)))) 2900%Z). lia.
Defined.

Local Open Scope Z_scope.

(** ** The quotient of two integers *)

Lemma new_location_frac d r : 0 < d -> 0 <= r < d ->
  new_location d r = loc_of_frac r d.
Proof.
  intros Hd Hr. unfold new_location, loc_of_frac, new_location_even, new_location_odd.
  destruct (Z.even d) eqn:Ev; destruct (Z.eqb_spec r 0); trivial.
  f_equal.
  assert (Od : Z.odd d = true) by (rewrite <- Z.negb_even, Ev; reflexivity).
  apply Z.odd_spec in Od as [k Hk].
  destruct (Z.compare_spec (2 * r + 1) d), (Z.compare_spec (2 * r) d); trivial; lia.
Qed.

Lemma fexp_mono a b : a <= b -> SpecFloat.fexp prec emax a <= SpecFloat.fexp prec emax b.
Proof. rewrite !fexp_eq. lia. Qed.

Lemma Zdigits2_ge q k : 0 <= k -> 2 ^ k <= q -> k + 1 <= Zdigits2 q.
Proof.
  intros Hk H. pose proof (pow2_pos k Hk).
  pose proof (Zdigits2_spec q ltac:(lia)) as (D0 & D1 & _).
  destruct (Z_lt_le_dec (Zdigits2 q) (k + 1)); trivial.
  assert (2 ^ Zdigits2 q <= 2 ^ k) by (apply Z.pow_le_mono_r; lia). lia.
Qed.

Lemma Zdigits2_le q k : 0 <= k -> 0 <= q < 2 ^ k -> Zdigits2 q <= k.
Proof.
  intros Hk H.
  destruct (Z.eq_dec q 0) as [->|Q]; [simpl; lia|].
  pose proof (Zdigits2_spec q ltac:(lia)) as (D0 & _ & D2). specialize (D2 ltac:(lia)).
  destruct (Z_le_gt_dec (Zdigits2 q) k); trivial.
  assert (2 ^ k <= 2 ^ (Zdigits2 q - 1)) by (apply Z.pow_le_mono_r; lia). lia.
Qed.

Section IntegerQuotient.
Variables (p d : positive).

Let e' := Z.min (SpecFloat.fexp prec emax (Z.pos (digits2_pos p) - Z.pos (digits2_pos d))) 0.
Let num := Z.pos p * 2 ^ (- e').

Lemma quot_num_pos : 0 < num.
Proof.
  unfold num. pose proof (pow2_pos (- e') ltac:(unfold e'; lia)). nia.
Qed.

Lemma SFdiv_core_int :
  SFdiv_core_binary prec emax (Z.pos p) 0 (Z.pos d) 0
  = (num / Z.pos d, e', loc_of_frac (num mod Z.pos d) (Z.pos d)).
Proof.
  unfold SFdiv_core_binary. cbn [Zdigits2].
  rewrite !Z.add_0_r, !Z.sub_0_r. fold e'.
  assert (He : e' <= 0) by (unfold e'; lia).
  assert (Hm : match 0 - e' with
               | 0 => Z.pos p
               | Z.pos _ => Z.shiftl (Z.pos p) (0 - e')
               | Z.neg _ => 0
               end = num).
  { unfold num. replace (0 - e') with (- e') by lia.
    destruct (- e') as [|s|s] eqn:S; try lia.
    rewrite Z.shiftl_mul_pow2 by lia. reflexivity. }
  rewrite Hm.
  pose proof (Z.mod_pos_bound num (Z.pos d) ltac:(lia)) as B.
  unfold Z.div, Z.modulo in *.
  destruct (Z.div_eucl num (Z.pos d)) as [q r].
  rewrite new_location_frac by lia. reflexivity.
Qed.

Lemma quot_exp_ok : e' <= rnd_exp num (Z.pos d) e'.
Proof.
  unfold rnd_exp.
  assert (He : e' <= 0) by (unfold e'; lia).
  pose proof quot_num_pos as Hn.
  pose proof (digits2_pos_spec p) as [Lp Up]. pose proof (digits2_pos_spec d) as [Ld Ud].
  set (dp := Z.pos (digits2_pos p)) in *. set (dd := Z.pos (digits2_pos d)) in *.
  pose proof (rnd_q_bounds num (Z.pos d) ltac:(lia) ltac:(lia)) as (Hq & _ & Hu).
  set (q := num / Z.pos d) in *.
  assert (Hdig : dp - dd <= Zdigits2 q + e').
  { destruct (Z_le_gt_dec (dp - dd - e') 0) as [L|G].
    - pose proof (Zdigits2_spec q Hq). lia.
    - assert (2 ^ (dp - dd - e' - 1) <= q).
      { assert (X : 2 ^ (dp - 1) * 2 ^ (- e') = 2 ^ (dp - dd - e' - 1) * 2 ^ dd).
        { rewrite <- !Z.pow_add_r by lia. f_equal. lia. }
        pose proof (pow2_pos (- e') ltac:(lia)).
        pose proof (pow2_pos (dp - dd - e' - 1) ltac:(lia)).
        assert (Y : 2 ^ (dp - dd - e' - 1) * 2 ^ dd <= num).
        { rewrite <- X. unfold num. apply Z.mul_le_mono_nonneg_r; lia. }
        assert (W : 2 ^ (dp - dd - e' - 1) * Z.pos d <= 2 ^ (dp - dd - e' - 1) * 2 ^ dd)
          by (apply Z.mul_le_mono_nonneg_l; lia).
        destruct (Z_le_gt_dec (2 ^ (dp - dd - e' - 1)) q); trivial. exfalso.
        assert ((q + 1) * Z.pos d <= 2 ^ (dp - dd - e' - 1) * Z.pos d)
          by (apply Z.mul_le_mono_nonneg_r; lia).
        lia. }
      pose proof (Zdigits2_ge q (dp - dd - e' - 1) ltac:(lia) H). lia. }
  apply fexp_mono in Hdig. unfold e' at 1. fold dp. fold dd. lia.
Qed.

Lemma SFdiv_int sx sy :
  SFdiv prec emax (S754_finite sx p 0) (S754_finite sy d 0)
  = binary_round_aux prec emax (xorb sx sy) (num / Z.pos d) e'
      (loc_of_frac (num mod Z.pos d) (Z.pos d)).
Proof. unfold SFdiv. now rewrite SFdiv_core_int. Qed.
End IntegerQuotient.

Local Open Scope Z_scope.

(** ** Hundredths recovered from the nearest float *)

Lemma rne_div_unique n d q : 0 < d ->
  (2 * q - 1) * d < 2 * n < (2 * q + 1) * d -> Py.rne_div n d = q.
Proof.
  intros Hd [L U]. pose proof (rne_div_spec n d Hd) as (A & _ & _). cbv zeta in A.
  set (q' := Py.rne_div n d) in *.
  destruct (Z.lt_trichotomy q' q) as [H|[H|H]]; trivial; exfalso.
  - assert ((2 * q' + 1) * d <= (2 * q - 1) * d) by (apply Z.mul_le_mono_nonneg_r; lia). lia.
  - assert ((2 * q + 1) * d <= (2 * q' - 1) * d) by (apply Z.mul_le_mono_nonneg_r; lia). lia.
Qed.

Lemma binary_round_aux_valid s num den e :
  0 <= num -> 0 < den -> e <= rnd_exp num den e ->
  valid_binary (binary_round_aux prec emax s (num / den) e (loc_of_frac (num mod den) den))
  = true.
Proof.
  intros Hn Hd He. rewrite binary_round_aux_frac by trivial.
  pose proof (rnd_man_nonneg num den e Hn Hd He) as M0.
  pose proof (rnd_man_upper num den e Hn Hd He) as M1.
  pose proof (rnd_man_lower num den e Hn Hd He) as M2.
  pose proof (rnd_E_lower num den e) as E0.
  set (m1 := rnd_man num den e) in *. set (E := rnd_exp num den e) in *.
  destruct (Z.eqb_spec m1 0); trivial.
  destruct (Z.eqb_spec m1 (2 ^ 53)).
  - destruct (Z.leb_spec (E + 1) 971); trivial.
    unfold valid_binary, SpecFloat.bounded, canonical_mantissa.
    change (Z.pos (digits2_pos (Z.to_pos (2 ^ 52)))) with 53.
    rewrite fexp_eq. change (Z.sub emax prec) with 971.
    apply andb_true_iff. rewrite Z.eqb_eq, Z.leb_le. lia.
  - destruct (Z.leb_spec E 971); trivial.
    unfold valid_binary, SpecFloat.bounded, canonical_mantissa.
    rewrite fexp_eq. change (Z.sub emax prec) with 971.
    apply andb_true_iff. rewrite Z.eqb_eq, Z.leb_le. split; trivial.
    assert (Hm : 0 < m1 < 2 ^ 53) by lia.
    pose proof (Zdigits2_le m1 53 ltac:(lia) ltac:(lia)) as D.
    destruct m1 as [|pm|pm]; try lia. simpl Z.to_pos. simpl Zdigits2 in D.
    destruct (Z.eq_dec E (-1074)) as [->|NE]; [lia|].
    specialize (M2 ltac:(lia)).
    pose proof (Zdigits2_ge (Z.pos pm) 52 ltac:(lia) M2) as D'. simpl Zdigits2 in D'. lia.
Qed.

(** The float nearest to [p / 100] prints back as [p] hundredths, as long
    as the floats around it are less than a hundredth apart. *)
Lemma cents_of_decimal neg (p : positive) : Z.pos p < 100 * 2 ^ 46 ->
  exists m e,
    Py.sf_of_decimal neg (Z.pos p) (-2) = S754_finite neg m e /\
    valid_binary (S754_finite neg m e) = true /\
    Py.cents_of m e = Z.pos p.
Proof.
  intros Hp. unfold Py.sf_of_decimal.
  replace (Z.to_pos (Z.pos p * 10 ^ Z.max (-2) 0)) with p
    by (change (10 ^ Z.max (-2) 0) with 1; rewrite Z.mul_1_r; reflexivity).
  change (Z.to_pos (10 ^ Z.max (- -2) 0)) with 100%positive.
  rewrite SFdiv_int. rewrite xorb_false_r.
  set (e' := Z.min (SpecFloat.fexp prec emax (Z.pos (digits2_pos p) - Z.pos (digits2_pos 100))) 0).
  set (num := Z.pos p * 2 ^ (- e')).
  pose proof (quot_exp_ok p 100) as He. fold e' in He. fold num in He.
  pose proof (quot_num_pos p 100) as Hn. fold e' in Hn. fold num in Hn.
  assert (He0 : e' <= 0) by (unfold e'; lia).
  pose proof (binary_round_aux_valid neg num 100 e' ltac:(lia) ltac:(lia) He) as V.
  rewrite binary_round_aux_frac in * by (trivial; lia).
  pose proof (rnd_man_nonneg num 100 e' ltac:(lia) ltac:(lia) He) as M0.
  pose proof (rnd_E_eq num 100 e') as EE.
  pose proof (rne_div_spec num (100 * 2 ^ (rnd_exp num 100 e' - e'))) as S.
  fold (rnd_man num 100 e') in S.
  set (m1 := rnd_man num 100 e') in *. set (E := rnd_exp num 100 e') in *.
  pose proof (pow2_pos (- e') ltac:(lia)) as Ps.
  pose proof (pow2_pos (E - e') ltac:(lia)) as Pn.
  specialize (S ltac:(lia)). cbv zeta in S. destruct S as (S & _ & _).
  (* the exponent *)
  pose proof (rnd_q_bounds num 100 ltac:(lia) ltac:(lia)) as (Hq & Hl & _).
  assert (HE : E <= -7).
  { assert (Hq2 : num / 100 < 2 ^ (46 - e')).
    { assert (T : 2 ^ (46 - e') = 2 ^ 46 * 2 ^ (- e'))
        by (rewrite <- Z.pow_add_r by lia; f_equal; lia).
      apply Z.div_lt_upper_bound; [lia|]. rewrite T. unfold num. nia. }
    pose proof (Zdigits2_le (num / 100) (46 - e') ltac:(lia) ltac:(lia)). lia. }
  assert (HK : 128 <= 2 ^ (- E)).
  { change 128 with (2 ^ 7). apply Z.pow_le_mono_r; lia. }
  (* the mantissa is within half a hundredth *)
  assert (X : 2 ^ (E - e') * 2 ^ (- E) = 2 ^ (- e')).
  { rewrite <- Z.pow_add_r by lia. f_equal. lia. }
  assert (B : (2 * m1 - 1) * 100 <= 2 * (Z.pos p * 2 ^ (- E)) <= (2 * m1 + 1) * 100).
  { destruct S as [S1 S2]. unfold num in S1, S2.
    apply (Z.mul_le_mono_nonneg_r _ _ (2 ^ (- E))) in S1, S2; try lia.
    replace ((2 * m1 - 1) * (100 * 2 ^ (E - e')) * 2 ^ (- E))
      with ((2 * m1 - 1) * 100 * (2 ^ (E - e') * 2 ^ (- E))) in S1 by ring.
    replace ((2 * m1 + 1) * (100 * 2 ^ (E - e')) * 2 ^ (- E))
      with ((2 * m1 + 1) * 100 * (2 ^ (E - e') * 2 ^ (- E))) in S2 by ring.
    rewrite X in S1, S2.
    replace (2 * (Z.pos p * 2 ^ (- e')) * 2 ^ (- E))
      with (2 * (Z.pos p * 2 ^ (- E)) * 2 ^ (- e')) in S1, S2 by ring.
    apply Z.mul_le_mono_pos_r in S1, S2; lia. }
  set (K := 2 ^ (- E)) in *.
  assert (Hm1 : 0 < m1) by nia.
  destruct (Z.eqb_spec m1 0); try lia.
  destruct (Z.eqb_spec m1 (2 ^ 53)) as [M53|M53].
  - destruct (Z.leb_spec (E + 1) 971); try lia.
    do 2 eexists. split; [reflexivity|]. split; [exact V|].
    unfold Py.cents_of, Py.scaled_num, Py.scaled_den.
    replace (Z.max (E + 1) 0) with 0 by lia. replace (Z.max (- (E + 1)) 0) with (- E - 1) by lia.
    change (Z.max 2 0) with 2. change (Z.max (- (2)) 0) with 0.
    change (Z.pos (Z.to_pos (2 ^ 52))) with (2 ^ 52).
    rewrite Z.pow_0_r, !Z.mul_1_r.
    assert (K2 : K = 2 * 2 ^ (- E - 1)).
    { unfold K. rewrite <- Z.pow_succ_r by lia. f_equal. lia. }
    apply rne_div_unique; [apply pow2_pos; lia|]. rewrite M53 in B. lia.
  - destruct (Z.leb_spec E 971); try lia.
    do 2 eexists. split; [reflexivity|]. split; [exact V|].
    unfold Py.cents_of, Py.scaled_num, Py.scaled_den.
    replace (Z.max E 0) with 0 by lia. replace (Z.max (- E) 0) with (- E) by lia.
    change (Z.max 2 0) with 2. change (Z.max (- (2)) 0) with 0.
    rewrite Z2Pos.id by lia. rewrite Z.pow_0_r, !Z.mul_1_r. fold K.
    apply rne_div_unique; lia.
Qed.

Local Open Scope string_scope.
Local Open Scope Z_scope.

(** ** Decimal digits *)

Lemma uint_only_digit d : only is_digit (NilEmpty.string_of_uint d) = true.
Proof. induction d; simpl; auto. Qed.

Lemma digits_value_cons c l acc :
  digits_value (c :: l) acc
  = digits_value l (10 * acc + match Py.digit_val c with Some d => d | None => 0 end).
Proof. reflexivity. Qed.

Lemma uint_value_acc d : forall acc,
  digits_value (list_ascii_of_string (NilEmpty.string_of_uint d)) (Z.pos acc)
  = Z.pos (Pos.of_uint_acc d acc).
Proof.
  induction d; intros acc; cbn [NilEmpty.string_of_uint list_ascii_of_string Pos.of_uint_acc];
    try reflexivity; rewrite digits_value_cons; (etransitivity; [|apply IHd]); f_equal;
    match goal with |- context [Py.digit_val ?c] =>
      let v := eval vm_compute in (Py.digit_val c) in change (Py.digit_val c) with v end;
    cbv iota; lia.
Qed.

Lemma uint_value d :
  digits_value (list_ascii_of_string (NilEmpty.string_of_uint d)) 0
  = Z.of_N (Pos.of_uint d).
Proof.
  induction d; cbn [NilEmpty.string_of_uint list_ascii_of_string Pos.of_uint];
    try reflexivity; rewrite digits_value_cons;
    match goal with |- context [Py.digit_val ?c] =>
      let v := eval vm_compute in (Py.digit_val c) in change (Py.digit_val c) with v end;
    cbv iota; try exact IHd;
    (etransitivity; [|apply (uint_value_acc d)]); f_equal.
Qed.

Lemma str_int_pos (p : positive) : Py.str_int (Z.pos p) = NilEmpty.string_of_uint (Pos.to_uint p).
Proof.
  unfold Py.str_int. cbn [Z.to_int NilZero.string_of_int].
  unfold NilZero.string_of_uint.
  pose proof (Unsigned.to_uint_nonnil p) as H.
  destruct (Pos.to_uint p); try reflexivity. congruence.
Qed.

Lemma str_int_digits n : 0 <= n ->
  only is_digit (Py.str_int n) = true /\
  digits_value (list_ascii_of_string (Py.str_int n)) 0 = n /\
  Py.str_int n <> "".
Proof.
  intros Hn. destruct n as [|p|p]; try lia.
  - repeat split. discriminate.
  - rewrite str_int_pos. repeat split.
    + apply uint_only_digit.
    + rewrite uint_value, Unsigned.of_to. reflexivity.
    + pose proof (Unsigned.to_uint_nonnil p) as H.
      destruct (Pos.to_uint p); try discriminate. congruence.
Qed.

Lemma digits_value_app l1 l2 acc :
  digits_value (l1 ++ l2) acc = digits_value l2 (digits_value l1 acc).
Proof. unfold digits_value. apply fold_left_app. Qed.

Lemma digits_value_acc l : forall acc,
  digits_value l acc = acc * 10 ^ Z.of_nat (List.length l) + digits_value l 0.
Proof.
  induction l as [|c l IH]; intros acc.
  - simpl. lia.
  - rewrite !digits_value_cons, IH, (IH (10 * 0 + _)).
    cbn [List.length]. rewrite Nat2Z.inj_succ, Z.pow_succ_r by lia. ring.
Qed.

(** *** [digitpart] on a run of digits *)

Lemma digit_val_is_digit c : is_digit c = true -> exists k, Py.digit_val c = Some k.
Proof. unfold is_digit. destruct (Py.digit_val c) as [k|]; [eauto|discriminate]. Qed.

Lemma digitpart_tail_stops r acc nd : stops r -> Py.digitpart_tail r acc nd = (acc, nd, r).
Proof.
  destruct r as [|c r]; simpl; trivial. intros [H1 H2]. now rewrite H1, H2.
Qed.

Lemma digitpart_tail_digits s : forall r acc nd,
  only is_digit s = true -> stops r ->
  Py.digitpart_tail (list_ascii_of_string s ++ r) acc nd
  = (digits_value (list_ascii_of_string s) acc, nd + Z.of_nat (String.length s), r).
Proof.
  induction s as [|c s IH]; intros r acc nd Hs Hr.
  - simpl. rewrite digitpart_tail_stops by trivial. now rewrite Z.add_0_r.
  - simpl in Hs. apply andb_true_iff in Hs as [Hc Hs].
    destruct (digit_val_is_digit c Hc) as [k Hk].
    cbn [list_ascii_of_string app Py.digitpart_tail String.length]. rewrite Hk.
    rewrite IH by trivial. rewrite digits_value_cons, Hk. f_equal. f_equal. lia.
Qed.

Lemma digitpart_digits s r acc :
  only is_digit s = true -> s <> "" -> stops r ->
  Py.digitpart (list_ascii_of_string s ++ r) acc
  = Some (digits_value (list_ascii_of_string s) acc, Z.of_nat (String.length s), r).
Proof.
  intros Hs Hne Hr. destruct s as [|c s]; [congruence|].
  simpl in Hs. apply andb_true_iff in Hs as [Hc Hs].
  destruct (digit_val_is_digit c Hc) as [k Hk].
  cbn [list_ascii_of_string app Py.digitpart String.length]. rewrite Hk.
  rewrite digitpart_tail_digits by trivial. rewrite digits_value_cons, Hk.
  do 3 f_equal. lia.
Qed.

Local Open Scope string_scope.
Local Open Scope Z_scope.

(** ** Texts *)

Lemma append_assoc (a b c : string) : (a ++ b) ++ c = a ++ (b ++ c).
Proof. induction a as [|x a IH]; simpl; trivial. now rewrite IH. Qed.

Lemma append_nil_r (a : string) : a ++ "" = a.
Proof. induction a as [|x a IH]; simpl; trivial. now rewrite IH. Qed.

Lemma only_app P s1 s2 : only P (s1 ++ s2) = only P s1 && only P s2.
Proof. induction s1 as [|c s IH]; simpl; trivial. now rewrite IH, andb_assoc. Qed.

Lemma only_weaken (P Q : ascii -> bool) s :
  (forall c, P c = true -> Q c = true) -> only P s = true -> only Q s = true.
Proof.
  intros H. induction s as [|c s IH]; simpl; trivial.
  rewrite !andb_true_iff. intros [Hc Hs]. auto.
Qed.

Lemma is_digit_neq c x : is_digit x = false -> is_digit c = true -> Ascii.eqb c x = false.
Proof.
  intros Hx Hc. destruct (Ascii.eqb_spec c x); trivial. subst. congruence.
Qed.

Lemma is_digit_not_space c : is_digit c = true -> Py.is_space c = false.
Proof.
  unfold is_digit, Py.digit_val, Py.is_space.
  destruct ((48 <=? Z.of_nat (nat_of_ascii c)) && (Z.of_nat (nat_of_ascii c) <=? 57)) eqn:E;
    try discriminate.
  intros _. apply andb_true_iff in E as [E1 E2]. apply Z.leb_le in E1, E2.
  apply orb_false_iff. split; apply andb_false_iff; rewrite !Z.leb_gt; lia.
Qed.

Lemma replace_app old new s1 s2 :
  Py.replace old new (s1 ++ s2) = Py.replace old new s1 ++ Py.replace old new s2.
Proof.
  induction s1 as [|c s IH]; simpl; trivial.
  destruct (Ascii.eqb c old); rewrite IH; trivial.
  now rewrite append_assoc.
Qed.

Lemma replace_none old new s :
  only (fun c => negb (Ascii.eqb c old)) s = true -> Py.replace old new s = s.
Proof.
  induction s as [|c s IH]; simpl; trivial.
  rewrite andb_true_iff, negb_true_iff. intros [Hc Hs]. now rewrite Hc, IH.
Qed.

Lemma replace_digits old new s :
  is_digit old = false -> only is_digit s = true -> Py.replace old new s = s.
Proof.
  intros Ho Hs. apply replace_none. revert Hs. apply only_weaken.
  intros c Hc. now rewrite (is_digit_neq c old Ho Hc).
Qed.

Lemma group3_cons sep c s :
  Py.group3 sep (String c s)
  = String c ((if (Nat.eqb (Nat.modulo (String.length s) 3) 0)
                    && negb (Nat.eqb (String.length s) 0)
               then sep else "") ++ Py.group3 sep s).
Proof. reflexivity. Qed.

Lemma replace_group3 a new s :
  only (fun c => negb (Ascii.eqb c a)) s = true ->
  Py.replace a new (Py.group3 (String a "") s) = Py.group3 new s.
Proof.
  induction s as [|c s IH]; [reflexivity|].
  cbn [only]. rewrite andb_true_iff, negb_true_iff. intros [Hc Hs].
  rewrite !group3_cons.
  generalize ((Nat.eqb (Nat.modulo (String.length s) 3) 0)
                && negb (Nat.eqb (String.length s) 0)). intros b.
  cbn [Py.replace]. rewrite Hc. f_equal.
  rewrite replace_app, IH by trivial. f_equal.
  destruct b; [|reflexivity].
  cbn [Py.replace]. rewrite Ascii.eqb_refl. now rewrite append_nil_r.
Qed.

Lemma group3_empty s : Py.group3 "" s = s.
Proof.
  induction s as [|c s IH]; [reflexivity|].
  rewrite group3_cons, IH. now destruct (_ && _).
Qed.

Lemma only_group3 P sep s :
  only P sep = true -> only P s = true -> only P (Py.group3 sep s) = true.
Proof.
  intros Hsep. induction s as [|c s IH]; [reflexivity|].
  rewrite group3_cons. cbn [only]. rewrite !andb_true_iff. intros [Hc Hs]. split; trivial.
  rewrite only_app, IH by trivial. rewrite andb_true_r.
  destruct (_ && _); trivial.
Qed.

Lemma lstrip_id s : only (fun c => negb (Py.is_space c)) s = true -> Py.lstrip s = s.
Proof.
  destruct s as [|c s]; simpl; trivial.
  rewrite andb_true_iff, negb_true_iff. intros [Hc _]. now rewrite Hc.
Qed.

Lemma rstrip_id s : only (fun c => negb (Py.is_space c)) s = true -> Py.rstrip s = s.
Proof.
  induction s as [|c s IH]; simpl; trivial.
  rewrite andb_true_iff, negb_true_iff. intros [Hc Hs]. rewrite IH by trivial.
  destruct s; trivial. now rewrite Hc.
Qed.

Lemma strip_id s : only (fun c => negb (Py.is_space c)) s = true -> Py.strip s = s.
Proof. intros H. unfold Py.strip. now rewrite lstrip_id, rstrip_id. Qed.

Lemma is_c_space_is_space c : Py.is_c_space c = true -> Py.is_space c = true.
Proof.
  unfold Py.is_c_space, Py.is_space. set (n := Z.of_nat (nat_of_ascii c)).
  rewrite !orb_true_iff, !andb_true_iff, !Z.leb_le, Z.eqb_eq. lia.
Qed.

Lemma not_space_not_c_space c : negb (Py.is_space c) = true -> Py.is_c_space c = false.
Proof.
  rewrite negb_true_iff. intros H. destruct (Py.is_c_space c) eqn:E; trivial.
  apply is_c_space_is_space in E. congruence.
Qed.

Lemma lstrip_c_id s : only (fun c => negb (Py.is_space c)) s = true -> Py.lstrip_c s = s.
Proof.
  destruct s as [|c s]; simpl; trivial.
  rewrite andb_true_iff. intros [Hc _]. now rewrite (not_space_not_c_space c Hc).
Qed.

Lemma rstrip_c_id s : only (fun c => negb (Py.is_space c)) s = true -> Py.rstrip_c s = s.
Proof.
  induction s as [|c s IH]; simpl; trivial.
  rewrite andb_true_iff. intros [Hc Hs]. rewrite IH by trivial.
  destruct s; trivial. now rewrite (not_space_not_c_space c Hc).
Qed.

Lemma list_ascii_app s1 s2 :
  list_ascii_of_string (s1 ++ s2) = (list_ascii_of_string s1 ++ list_ascii_of_string s2)%list.
Proof. induction s1 as [|c s IH]; simpl; trivial. now rewrite IH. Qed.

Lemma str_digit k : 0 <= k <= 9 ->
  exists c, Py.str_int k = String c "" /\ Py.digit_val c = Some k.
Proof.
  intros H.
  assert (k = 0 \/ k = 1 \/ k = 2 \/ k = 3 \/ k = 4 \/ k = 5 \/ k = 6 \/ k = 7 \/ k = 8 \/ k = 9)
    as C by lia.
  destruct C as [->|[->|[->|[->|[->|[->|[->|[->|[->| ->]]]]]]]]];
    eexists; split; reflexivity.
Qed.

Lemma two_digits_spec r : 0 <= r < 100 ->
  exists c1 c2,
    Py.two_digits r = String c1 (String c2 "") /\
    is_digit c1 = true /\ is_digit c2 = true /\
    forall acc, digits_value [c1; c2] acc = 100 * acc + r.
Proof.
  intros H. unfold Py.two_digits.
  pose proof (Z.div_mod r 10 ltac:(lia)) as E.
  pose proof (Z.mod_pos_bound r 10 ltac:(lia)) as B.
  assert (Ha : 0 <= r / 10 <= 9).
  { split; [apply Z.div_pos; lia|]. apply Z.lt_succ_r, Z.div_lt_upper_bound; lia. }
  destruct (str_digit (r / 10) Ha) as (c1 & -> & V1).
  destruct (str_digit (r mod 10) ltac:(lia)) as (c2 & -> & V2).
  exists c1, c2. unfold is_digit. rewrite V1, V2. repeat split.
  intros acc. unfold digits_value. cbn [fold_left]. rewrite V1, V2. lia.
Qed.

Local Open Scope string_scope.
Local Open Scope Z_scope.

(** ** The text of [formatar_valor] *)

Lemma rne_div_nonneg num den : 0 <= num -> 0 < den -> 0 <= Py.rne_div num den.
Proof.
  intros Hn Hd. rewrite <- (rne_div_exact 0 den Hd). apply rne_div_mono; lia.
Qed.

Lemma cents_of_nonneg m e : 0 <= Py.cents_of m e.
Proof.
  unfold Py.cents_of, Py.scaled_num, Py.scaled_den.
  pose proof (pow2_pos (Z.max e 0) ltac:(lia)).
  pose proof (pow2_pos (Z.max (- e) 0) ltac:(lia)).
  assert (0 < 10 ^ Z.max 2 0) by (apply Z.pow_pos_nonneg; lia).
  assert (0 < 10 ^ Z.max (- (2)) 0) by (apply Z.pow_pos_nonneg; lia).
  apply rne_div_nonneg; nia.
Qed.

Lemma cents_parts c : 0 <= c -> 0 <= c / 100 /\ 0 <= c mod 100 < 100 /\ 100 * (c / 100) + c mod 100 = c.
Proof.
  intros H. pose proof (Z.div_mod c 100 ltac:(lia)).
  pose proof (Z.mod_pos_bound c 100 ltac:(lia)).
  repeat split; try lia; apply Z.div_pos; lia.
Qed.

Lemma only_sign P s : P "-"%char = true -> only P (Py.sign_str s) = true.
Proof. intros H. destruct s; simpl; rewrite ?H; trivial. Qed.

Lemma nonspace_texto s c : 0 <= c ->
  only (fun x => negb (Py.is_space x)) (texto_brasileiro s c) = true.
Proof.
  intros Hc. destruct (cents_parts c Hc) as (Hi & Hf & _).
  destruct (str_int_digits (c / 100) Hi) as (Di & _ & _).
  unfold texto_brasileiro.
  destruct (two_digits_spec (c mod 100) Hf) as (c1 & c2 & -> & D1 & D2 & _).
  rewrite !only_app.
  rewrite only_sign by reflexivity.
  rewrite only_group3; [| reflexivity |].
  - cbn [only]. now rewrite (is_digit_not_space c1 D1), (is_digit_not_space c2 D2).
  - revert Di. apply only_weaken. intros x Hx. now rewrite (is_digit_not_space x Hx).
Qed.

Local Open Scope float_scope.

Lemma finite_sign x s m e : Prim2SF x = S754_finite s m e -> (x <? 0) = s.
Proof.
  intros H. rewrite ltb_spec, H. change (Prim2SF 0) with (S754_zero false).
  destruct s; reflexivity.
Qed.

(** The text of [formatar_valor] under the Brazilian conventions. *)
Lemma formatar_valor_pt_BR x s m e : Prim2SF x = S754_finite s m e ->
  formatar_valor locale.pt_BR x = texto_brasileiro s (Py.cents_of m e).
Proof.
  intros H. unfold formatar_valor, locale.currency, locale.pt_BR.
  cbn [locale.negative_sign]. rewrite (finite_sign x s m e H).
  unfold locale.localize. rewrite abs_spec, H. cbn [SFabs].
  cbn [locale.mon_thousands_sep locale.mon_decimal_point].
  change (if s then "-" else "")%string with (Py.sign_str s).
  fold (texto_brasileiro s (Py.cents_of m e)).
  apply strip_id, nonspace_texto, cents_of_nonneg.
Qed.

(** The same text comes from the fallback, when [locale.currency] raises. *)
Lemma formatar_valor_C x s m e : Prim2SF x = S754_finite s m e ->
  formatar_valor locale.C x = texto_brasileiro s (Py.cents_of m e).
Proof.
  intros H. unfold formatar_valor, locale.currency, locale.C.
  unfold Py.format_2f. rewrite H. unfold Py.fixed2, texto_brasileiro.
  pose proof (cents_of_nonneg m e) as Hc. set (c := Py.cents_of m e) in *.
  destruct (cents_parts c Hc) as (Hi & Hf & _).
  destruct (str_int_digits (c / 100)%Z Hi) as (Di & _ & _).
  destruct (two_digits_spec (c mod 100)%Z Hf) as (c1 & c2 & -> & D1 & D2 & _).
  set (I := Py.str_int (c / 100)) in *.
  assert (Hsign : forall old new, is_digit old = false -> Ascii.eqb "-" old = false ->
             Py.replace old new (Py.sign_str s) = Py.sign_str s).
  { intros old new _ Ho. destruct s; cbn [Py.sign_str Py.replace]; rewrite ?Ho; trivial. }
  assert (HI : forall old, is_digit old = false ->
             only (fun a => negb (Ascii.eqb a old)) I = true).
  { intros old Ho. revert Di. apply only_weaken. intros a Ha.
    now rewrite (is_digit_neq a old Ho Ha). }
  assert (HF : forall old new, is_digit old = false ->
             Py.replace old new (String c1 (String c2 "")) = String c1 (String c2 "")).
  { intros old new Ho. apply replace_digits; trivial. cbn [only]. now rewrite D1, D2. }
  assert (E1 : Py.replace "," "X" (Py.sign_str s ++ Py.group3 "," I ++ "." ++ String c1 (String c2 ""))
               = Py.sign_str s ++ Py.group3 "X" I ++ "." ++ String c1 (String c2 "")).
  { rewrite !replace_app, (Hsign ","%char) by reflexivity.
    rewrite (replace_group3 ","%char) by (apply HI; reflexivity).
    now rewrite (HF ","%char) by reflexivity. }
  assert (E2 : Py.replace "." "," (Py.sign_str s ++ Py.group3 "X" I ++ "." ++ String c1 (String c2 ""))
               = Py.sign_str s ++ Py.group3 "X" I ++ "," ++ String c1 (String c2 "")).
  { rewrite !replace_app, (Hsign "."%char) by reflexivity.
    rewrite (replace_none "."%char _ (Py.group3 "X" I))
      by (apply only_group3; [reflexivity | apply HI; reflexivity]).
    now rewrite (HF "."%char) by reflexivity. }
  assert (E3 : Py.replace "X" "." (Py.sign_str s ++ Py.group3 "X" I ++ "," ++ String c1 (String c2 ""))
               = Py.sign_str s ++ Py.group3 "." I ++ "," ++ String c1 (String c2 "")).
  { rewrite !replace_app, (Hsign "X"%char) by reflexivity.
    rewrite (replace_group3 "X"%char) by (apply HI; reflexivity).
    now rewrite (HF "X"%char) by reflexivity. }
  rewrite E1, E2, E3.
  reflexivity.
Qed.

Local Open Scope string_scope.
Local Open Scope Z_scope.

(** ** Parsing the text of an amount *)

Lemma eqb_app_nonempty a c b : String.eqb (a ++ String c b) "" = false.
Proof. destruct a; reflexivity. Qed.

Lemma lower_digit c : is_digit c = true -> Py.lower c = c.
Proof.
  unfold is_digit, Py.digit_val, Py.lower.
  destruct ((48 <=? Z.of_nat (nat_of_ascii c)) && (Z.of_nat (nat_of_ascii c) <=? 57)) eqn:E;
    try discriminate.
  intros _. apply andb_true_iff in E as [E1 E2]. apply Z.leb_le in E1, E2.
  replace (Nat.leb 65 (nat_of_ascii c)) with false; trivial.
  symmetry. apply Nat.leb_gt. lia.
Qed.

Lemma not_special c l : is_digit c = true ->
  let w := string_of_list_ascii (map Py.lower (c :: l)) in
  String.eqb w "inf" || String.eqb w "infinity" = false /\ String.eqb w "nan" = false.
Proof.
  intros Hc w. subst w. cbn [map string_of_list_ascii]. rewrite (lower_digit c Hc).
  cbn [String.eqb].
  rewrite (is_digit_neq c "i" eq_refl Hc), (is_digit_neq c "n" eq_refl Hc). split; reflexivity.
Qed.

(** [float] reads the digits of an amount, a point and two decimals as that
    number of hundredths. *)
Lemma float_of_str_amount s c : 0 <= c ->
  Py.float_of_str
    (Py.sign_str s ++ Py.str_int (c / 100) ++ "." ++ Py.two_digits (c mod 100))
  = Ok (SF2Prim (Py.sf_of_decimal s c (-2))).
Proof.
  intros Hc. destruct (cents_parts c Hc) as (Hi & Hf & Hsum).
  destruct (str_int_digits (c / 100) Hi) as (Di & Vi & Ni).
  destruct (two_digits_spec (c mod 100) Hf) as (c1 & c2 & -> & D1 & D2 & VF).
  set (ip := Py.str_int (c / 100)) in *.
  unfold Py.float_of_str, Py.sf_of_string.
  assert (NS : only (fun x => negb (Py.is_space x))
                 (Py.sign_str s ++ ip ++ "." ++ String c1 (String c2 "")) = true).
  { rewrite !only_app, only_sign by reflexivity. cbn [only andb].
    rewrite (is_digit_not_space c1 D1), (is_digit_not_space c2 D2).
    rewrite (only_weaken is_digit (fun x => negb (Py.is_space x)) ip); trivial.
    intros x Hx. now rewrite (is_digit_not_space x Hx). }
  rewrite (lstrip_c_id _ NS), (rstrip_c_id _ NS), !list_ascii_app.
  destruct ip as [|c0 ip'] eqn:EI; [congruence|].
  cbn [only] in Di. apply andb_true_iff in Di as [D0 Di'].
  assert (PS : Py.parse_sign (list_ascii_of_string (Py.sign_str s) ++
                 list_ascii_of_string (String c0 ip') ++
                 list_ascii_of_string "." ++ list_ascii_of_string (String c1 (String c2 "")))
               = (s, (list_ascii_of_string (String c0 ip') ++ "."%char :: [c1; c2])%list)).
  { destruct s; [reflexivity|].
    cbn [Py.sign_str list_ascii_of_string app Py.parse_sign].
    now rewrite (is_digit_neq c0 "-" eq_refl D0), (is_digit_neq c0 "+" eq_refl D0). }
  rewrite PS.
  cbn [list_ascii_of_string app].
  destruct (not_special c0 (list_ascii_of_string ip' ++ "."%char :: [c1; c2]) D0) as [W1 W2].
  cbv zeta in W1, W2. rewrite W1, W2.
  unfold Py.parse_number.
  change (c0 :: (list_ascii_of_string ip' ++ "."%char :: [c1; c2])%list)
    with (list_ascii_of_string (String c0 ip') ++ "."%char :: [c1; c2])%list.
  rewrite (digitpart_digits (String c0 ip') ("."%char :: [c1; c2]) 0);
    [| cbn [only]; now rewrite D0, Di' | discriminate | split; reflexivity].
  rewrite Ascii.eqb_refl.
  change [c1; c2] with (list_ascii_of_string (String c1 (String c2 "")) ++ [])%list.
  rewrite (digitpart_digits (String c1 (String c2 "")) []);
    [| cbn [only]; now rewrite D1, D2 | discriminate | exact Logic.I].
  cbn [Py.parse_exponent list_ascii_of_string String.length] in Vi |- *.
  rewrite VF, Vi. do 3 f_equal. lia.
Qed.

Local Open Scope float_scope.

Lemma limpar_formato_texto s c : (0 <= c)%Z ->
  limpar_formato (texto_brasileiro s c) = Ok (SF2Prim (Py.sf_of_decimal s c (-2))).
Proof.
  intros Hc. unfold limpar_formato.
  destruct (cents_parts c Hc) as (Hi & Hf & _).
  destruct (str_int_digits (c / 100)%Z Hi) as (Di & _ & _).
  rewrite <- (float_of_str_amount s c Hc).
  unfold texto_brasileiro.
  destruct (two_digits_spec (c mod 100)%Z Hf) as (c1 & c2 & -> & D1 & D2 & _).
  set (ip := Py.str_int (c / 100)) in *.
  replace (String.eqb (Py.sign_str s ++ Py.group3 "." ip ++ "," ++ String c1 (String c2 "")) "")
    with false.
  2:{ symmetry. rewrite <- append_assoc. apply eqb_app_nonempty. }
  f_equal.
  assert (Hsign : forall old new, Ascii.eqb "-" old = false ->
             Py.replace old new (Py.sign_str s) = Py.sign_str s).
  { intros old new Ho. destruct s; cbn [Py.sign_str Py.replace]; rewrite ?Ho; trivial. }
  assert (HI : forall old, is_digit old = false ->
             only (fun a => negb (Ascii.eqb a old)) ip = true).
  { intros old Ho. revert Di. apply only_weaken. intros a Ha.
    now rewrite (is_digit_neq a old Ho Ha). }
  assert (HF : forall old new, is_digit old = false ->
             Py.replace old new (String c1 (String c2 "")) = String c1 (String c2 "")).
  { intros old new Ho. apply replace_digits; trivial. cbn [only]. now rewrite D1, D2. }
  assert (E1 : Py.replace "." "" (Py.sign_str s ++ Py.group3 "." ip ++ "," ++ String c1 (String c2 ""))
               = Py.sign_str s ++ ip ++ "," ++ String c1 (String c2 "")).
  { rewrite !replace_app, (Hsign "."%char) by reflexivity.
    rewrite (replace_group3 "."%char) by (apply HI; reflexivity).
    rewrite group3_empty. now rewrite (HF "."%char) by reflexivity. }
  rewrite E1.
  rewrite !replace_app, (Hsign ","%char) by reflexivity.
  rewrite (replace_none ","%char _ ip) by (apply HI; reflexivity).
  now rewrite (HF ","%char) by reflexivity.
Qed.

Local Open Scope string_scope.
Local Open Scope Z_scope.

(** ** Floats that no hundredth separates: from [2^46] on *)

Lemma large_mantissa m e : SpecFloat.bounded prec emax m e = true -> -6 <= e ->
  2 ^ 52 <= Z.pos m < 2 ^ 53 /\ e <= 971.
Proof.
  intros Hv He. apply bounded_spec in Hv as [C B].
  pose proof (digits2_pos_spec m) as [L U].
  replace (Z.pos (digits2_pos m)) with 53 in * by lia. simpl in L. lia.
Qed.

Lemma pow2_split a b : 0 <= a -> 0 <= b -> 2 ^ (a + b) = 2 ^ a * 2 ^ b.
Proof. intros. now rewrite Z.pow_add_r. Qed.

(** The hundredths printed for such a float determine it: they lie in its
    binade, and nearer to it than half a unit in the last place. *)
Lemma large_cents m e : SpecFloat.bounded prec emax m e = true -> -6 <= e ->
  let c := Py.cents_of m e in
  100 * 2 ^ (52 + e) <= c < 100 * 2 ^ (53 + e) /\
  forall t, 0 <= t -> 0 <= e + t ->
    (2 * Z.pos m - 1) * (100 * 2 ^ (e + t)) < 2 * (c * 2 ^ t)
      < (2 * Z.pos m + 1) * (100 * 2 ^ (e + t)).
Proof.
  intros Hv He c. destruct (large_mantissa m e Hv He) as [[L U] _].
  assert (Hc : c = Py.rne_div (100 * Z.pos m * 2 ^ Z.max e 0) (2 ^ Z.max (- e) 0)).
  { unfold c, Py.cents_of, Py.scaled_num, Py.scaled_den.
    change (10 ^ Z.max 2 0) with 100. change (10 ^ Z.max (- (2)) 0) with 1.
    f_equal; ring. }
  destruct (Z_lt_le_dec e 0) as [Hneg|Hpos].
  - replace (Z.max e 0) with 0 in Hc by lia. replace (Z.max (- e) 0) with (- e) in Hc by lia.
    rewrite Z.pow_0_r, Z.mul_1_r in Hc.
    set (K := 2 ^ (- e)) in *.
    assert (PK : 0 < K) by (apply pow2_pos; lia).
    assert (K64 : K <= 2 ^ 6) by (apply Z.pow_le_mono_r; lia).
    pose proof (rne_div_spec (100 * Z.pos m) K PK) as (A & _ & _). cbv zeta in A.
    rewrite <- Hc in A.
    assert (E52 : 2 ^ (52 + e) * K = 2 ^ 52).
    { unfold K. rewrite <- Z.pow_add_r by lia. f_equal. lia. }
    assert (E53 : 2 ^ (53 + e) * K = 2 ^ 53).
    { unfold K. rewrite <- Z.pow_add_r by lia. f_equal. lia. }
    split; [split|].
    + rewrite <- (rne_div_exact (100 * 2 ^ (52 + e)) K PK), Hc.
      apply rne_div_mono; trivial.
      apply Z.mul_le_mono_nonneg_r; [lia|].
      rewrite <- Z.mul_assoc, E52. lia.
    + apply (Z.mul_lt_mono_pos_r K); trivial.
      rewrite <- Z.mul_assoc, E53. change (2 ^ 6) with 64 in K64. lia.
    + intros t Ht Het.
      assert (Et : 2 ^ t = K * 2 ^ (e + t)).
      { unfold K. rewrite <- Z.pow_add_r by lia. f_equal. lia. }
      pose proof (pow2_pos (e + t) Het) as PP. set (P := 2 ^ (e + t)) in *.
      rewrite Et. change (2 ^ 6) with 64 in K64.
      replace (2 * (c * (K * P))) with ((2 * c * K) * P) by ring.
      replace ((2 * Z.pos m - 1) * (100 * P)) with (((2 * Z.pos m - 1) * 100) * P) by ring.
      replace ((2 * Z.pos m + 1) * (100 * P)) with (((2 * Z.pos m + 1) * 100) * P) by ring.
      split; apply Z.mul_lt_mono_pos_r; trivial; lia.
  - replace (Z.max e 0) with e in Hc by lia. replace (Z.max (- e) 0) with 0 in Hc by lia.
    rewrite Z.pow_0_r in Hc.
    rewrite <- (Z.mul_1_r (100 * Z.pos m * 2 ^ e)) in Hc at 1.
    rewrite rne_div_exact in Hc by lia.
    pose proof (pow2_pos e Hpos) as Pe.
    split; [split|].
    + rewrite pow2_split by lia. rewrite Hc. nia.
    + rewrite pow2_split by lia. rewrite Hc. nia.
    + intros t Ht Het. rewrite pow2_split by lia.
      pose proof (pow2_pos t Ht) as Pt.
      assert (0 < 2 ^ e * 2 ^ t) by nia. set (P := 2 ^ e * 2 ^ t) in *.
      replace (2 * (c * 2 ^ t)) with (200 * Z.pos m * P) by (rewrite Hc; unfold P; ring).
      nia.
Qed.

Lemma large_amount_reparse s m e : SpecFloat.bounded prec emax m e = true -> -6 <= e ->
  Py.sf_of_decimal s (Py.cents_of m e) (-2) = S754_finite s m e.
Proof.
  intros Hv He. destruct (large_mantissa m e Hv He) as [[L U] E971].
  destruct (large_cents m e Hv He) as [[C1 C2] F]. cbv zeta in C1, C2, F.
  pose proof (pow2_pos (52 + e) ltac:(lia)) as P52.
  destruct (Py.cents_of m e) as [|p|p] eqn:Hc; try lia.
  unfold Py.sf_of_decimal.
  replace (Z.to_pos (Z.pos p * 10 ^ Z.max (-2) 0)) with p
    by (change (10 ^ Z.max (-2) 0) with 1; rewrite Z.mul_1_r; reflexivity).
  change (Z.to_pos (10 ^ Z.max (- -2) 0)) with 100%positive.
  rewrite SFdiv_int. rewrite xorb_false_r.
  set (e' := Z.min (SpecFloat.fexp prec emax (Z.pos (digits2_pos p) - Z.pos (digits2_pos 100))) 0).
  set (num := Z.pos p * 2 ^ (- e')).
  pose proof (quot_exp_ok p 100) as Hq. fold e' in Hq. fold num in Hq.
  pose proof (quot_num_pos p 100) as Hn. fold e' in Hn. fold num in Hn.
  assert (He0 : e' <= 0) by (unfold e'; lia).
  rewrite binary_round_aux_frac by (trivial; lia).
  pose proof (rnd_E_eq num 100 e') as EE.
  pose proof (pow2_pos (- e') ltac:(lia)) as Ps.
  (* the exponent *)
  assert (Q1 : 2 ^ (52 + e - e') <= num / 100).
  { apply Z.div_le_lower_bound; [lia|].
    replace (52 + e - e') with ((52 + e) + - e') by lia.
    rewrite pow2_split by lia. unfold num. nia. }
  assert (Q2 : num / 100 < 2 ^ (53 + e - e')).
  { apply Z.div_lt_upper_bound; [lia|].
    replace (53 + e - e') with ((53 + e) + - e') by lia.
    rewrite pow2_split by lia. unfold num. nia. }
  pose proof (Zdigits2_ge (num / 100) (52 + e - e') ltac:(lia) Q1) as D1.
  pose proof (pow2_pos (52 + e - e') ltac:(lia)) as P52'.
  pose proof (Zdigits2_le (num / 100) (53 + e - e') ltac:(lia) ltac:(lia)) as D2.
  assert (HE : rnd_exp num 100 e' = e) by lia.
  (* the mantissa *)
  assert (HM : rnd_man num 100 e' = Z.pos m).
  { unfold rnd_man. rewrite HE.
    assert (Ht : 0 <= e + - e') by lia.
    pose proof (pow2_pos _ Ht) as Pt.
    replace (e - e') with (e + - e') by lia.
    apply rne_div_unique; [lia|]. unfold num. apply F; lia. }
  rewrite HM, HE.
  destruct (Z.eqb_spec (Z.pos m) 0); try lia.
  destruct (Z.eqb_spec (Z.pos m) (2 ^ 53)); try lia.
  destruct (Z.leb_spec e 971); try lia.
  reflexivity.
Qed.

(** Every finite float from [2^46] on is read back from its own text. *)
Lemma large_decimal neg (p : positive) : 100 * 2 ^ 46 <= Z.pos p ->
  Py.sf_of_decimal neg (Z.pos p) (-2) = S754_infinity neg \/
  exists m e, Py.sf_of_decimal neg (Z.pos p) (-2) = S754_finite neg m e /\
    valid_binary (S754_finite neg m e) = true /\ -6 <= e.
Proof.
  intros Hp. unfold Py.sf_of_decimal.
  replace (Z.to_pos (Z.pos p * 10 ^ Z.max (-2) 0)) with p
    by (change (10 ^ Z.max (-2) 0) with 1; rewrite Z.mul_1_r; reflexivity).
  change (Z.to_pos (10 ^ Z.max (- -2) 0)) with 100%positive.
  rewrite SFdiv_int. rewrite xorb_false_r.
  set (e' := Z.min (SpecFloat.fexp prec emax (Z.pos (digits2_pos p) - Z.pos (digits2_pos 100))) 0).
  set (num := Z.pos p * 2 ^ (- e')).
  pose proof (quot_exp_ok p 100) as Hq. fold e' in Hq. fold num in Hq.
  pose proof (quot_num_pos p 100) as Hn. fold e' in Hn. fold num in Hn.
  assert (He0 : e' <= 0) by (unfold e'; lia).
  pose proof (binary_round_aux_valid neg num 100 e' ltac:(lia) ltac:(lia) Hq) as V.
  rewrite binary_round_aux_frac in * by (trivial; lia).
  pose proof (rnd_E_eq num 100 e') as EE.
  pose proof (rnd_man_lower num 100 e' ltac:(lia) ltac:(lia) Hq) as M2.
  pose proof (pow2_pos (- e') ltac:(lia)) as Ps.
  assert (Q1 : 2 ^ (46 - e') <= num / 100).
  { apply Z.div_le_lower_bound; [lia|].
    replace (46 - e') with (46 + - e') by lia.
    rewrite pow2_split by lia. unfold num. nia. }
  pose proof (Zdigits2_ge (num / 100) (46 - e') ltac:(lia) Q1) as D1.
  set (m1 := rnd_man num 100 e') in *. set (E := rnd_exp num 100 e') in *.
  assert (HE : -6 <= E) by lia.
  specialize (M2 ltac:(lia)).
  destruct (Z.eqb_spec m1 0); try lia.
  destruct (Z.eqb_spec m1 (2 ^ 53)).
  - destruct (Z.leb_spec (E + 1) 971); [right|left; reflexivity].
    do 2 eexists. split; [reflexivity|]. split; [exact V|lia].
  - destruct (Z.leb_spec E 971); [right|left; reflexivity].
    do 2 eexists. split; [reflexivity|]. split; [exact V|lia].
Qed.

(** ** The round trip *)

Lemma round_trip_finite loc x s m e :
  loc = locale.pt_BR \/ loc = locale.C ->
  Prim2SF x = S754_finite s m e ->
  Py.sf_of_decimal s (Py.cents_of m e) (-2) = S754_finite s m e ->
  limpar_formato (formatar_valor loc x) = Ok x.
Proof.
  intros Hl Hx Hr.
  assert (T : formatar_valor loc x = texto_brasileiro s (Py.cents_of m e)).
  { destruct Hl as [-> | ->]; [apply formatar_valor_pt_BR | apply formatar_valor_C]; exact Hx. }
  rewrite T, limpar_formato_texto by apply cents_of_nonneg.
  rewrite Hr, <- Hx, SF2Prim_Prim2SF. reflexivity.
Qed.

Lemma round_trip_infinite loc s :
  loc = locale.pt_BR \/ loc = locale.C ->
  limpar_formato (formatar_valor loc (SF2Prim (S754_infinity s))) = Ok (SF2Prim (S754_infinity s)).
Proof. intros [-> | ->]; destruct s; vm_compute; reflexivity. Qed.

Lemma round_trip_zero loc :
  loc = locale.pt_BR \/ loc = locale.C ->
  limpar_formato (formatar_valor loc (float_of_cents false 0)) = Ok (float_of_cents false 0).
Proof. intros [-> | ->]; vm_compute; reflexivity. Qed.

(** Under the [pt_BR] locale, and in the fallback that swaps the
    separators of the f-string when [locale.currency] raises, formatting
    then parsing is the identity on the amounts of two decimals: for every
    number [n >= 0] of hundredths and every sign, with [x] the float of
    [n / 100], [limpar_formato (formatar_valor x)] returns [x] itself. *)
Theorem format_parse_round_trip (loc : option locale.lconv) (neg : bool) (n : Z) :
  loc = locale.pt_BR \/ loc = locale.C ->
  0 <= n -> (n = 0 -> neg = false) ->
  limpar_formato (formatar_valor loc (float_of_cents neg n)) = Ok (float_of_cents neg n).
Proof.
  intros Hl Hn Hz. destruct n as [|p|p]; try lia.
  - rewrite Hz by reflexivity. now apply round_trip_zero.
  - unfold float_of_cents.
    destruct (Z_lt_le_dec (Z.pos p) (100 * 2 ^ 46)) as [Small|Large].
    + destruct (cents_of_decimal neg p Small) as (m & e & Hs & V & Hc).
      rewrite Hs. apply (round_trip_finite loc _ neg m e Hl).
      * now apply Prim2SF_SF2Prim.
      * now rewrite Hc.
    + destruct (large_decimal neg p Large) as [Hs | (m & e & Hs & V & He)]; rewrite Hs.
      * now apply round_trip_infinite.
      * apply (round_trip_finite loc _ neg m e Hl).
        -- now apply Prim2SF_SF2Prim.
        -- apply large_amount_reparse; trivial.
Qed.

(** The amounts 0, 1518.00, 8157.41 and 1000000.55. *)
Lemma format_parse_round_trip_witness :
  limpar_formato (formatar_valor locale.pt_BR 0) = Ok 0%float /\
  limpar_formato (formatar_valor locale.pt_BR 1518.00) = Ok 1518.00%float /\
  limpar_formato (formatar_valor locale.pt_BR 8157.41) = Ok 8157.41%float /\
  limpar_formato (formatar_valor locale.pt_BR 1000000.55) = Ok 1000000.55%float.
Proof.
  split; [|split; [|split]].
  - apply (format_parse_round_trip locale.pt_BR false 0); [now left | lia | reflexivity].
  - apply (format_parse_round_trip locale.pt_BR false 151800); [now left | lia | lia].
  - apply (format_parse_round_trip locale.pt_BR false 815741); [now left | lia | lia].
  - apply (format_parse_round_trip locale.pt_BR false 100000055); [now left | lia | lia].
Defined.

(** C7. The round trip fails when the process runs under a locale that
    groups with commas, which [setlocale(LC_ALL, '')] selects where
    [pt_BR.UTF-8] is not installed: under [en_US] the text of 1518.00 is
    "1,518.00", not the Brazilian "1.518,00" that the docstring of
    [formatar_valor] promises, and [limpar_formato] reads 1.518 from it. *)
Theorem round_trip_needs_brazilian_text :
  formatar_valor locale.en_US 1518.00 = "1,518.00" /\
  formatar_valor locale.pt_BR 1518.00 = "1.518,00" /\
  limpar_formato (formatar_valor locale.en_US 1518.00) = Ok 1.518%float /\
  limpar_formato (formatar_valor locale.en_US 1518.00) <> Ok 1518.00%float /\
  (abs (1.518 - 1518.00) <=? 1e-9 * 1518.00)%float = false.
Proof.
  split; [|split; [|split; [|split]]]; try (vm_compute; reflexivity).
  vm_compute. discriminate.
Qed.

Local Open Scope string_scope.
Local Open Scope Z_scope.

(** ** The digits of an [int] and the limit on their number *)

Lemma digits_value_nonneg l : forall acc, 0 <= acc -> 0 <= digits_value l acc.
Proof.
  induction l as [|c l IH]; intros acc H; [exact H|].
  rewrite digits_value_cons. apply IH.
  unfold Py.digit_val.
  destruct ((48 <=? Z.of_nat (nat_of_ascii c)) && (Z.of_nat (nat_of_ascii c) <=? 57)) eqn:E;
    [|lia].
  apply andb_true_iff in E. rewrite !Z.leb_le in E. lia.
Qed.

Lemma to_uint_head p :
  match Pos.to_uint p with
  | Decimal.Nil | Decimal.D0 _ => False
  | _ => True
  end.
Proof.
  pose proof (Unsigned.to_of (Pos.to_uint p)) as H.
  rewrite Unsigned.of_to in H. cbn [N.to_uint] in H.
  pose proof (Unsigned.to_uint_nonnil p) as N0.
  pose proof (Unsigned.to_uint_nonzero p) as N1.
  destruct (Pos.to_uint p) as [|u|u|u|u|u|u|u|u|u|u]; try exact Logic.I; [congruence|].
  unfold Decimal.unorm in H. cbn [Decimal.nzhead] in H.
  pose proof (nb_digits_nzhead u) as B.
  destruct (Decimal.nzhead u) eqn:E; try (rewrite <- H in B; simpl in B; lia).
  apply N1. exact H.
Qed.

Lemma length_list_ascii s : List.length (list_ascii_of_string s) = String.length s.
Proof. induction s as [|c s IH]; simpl; congruence. Qed.

Lemma digits_value_head c l k : Py.digit_val c = Some k -> 1 <= k ->
  10 ^ Z.of_nat (List.length l) <= digits_value (c :: l) 0.
Proof.
  intros Hc Hk. rewrite digits_value_cons, Hc, digits_value_acc.
  pose proof (digits_value_nonneg l 0 ltac:(lia)).
  assert (0 < 10 ^ Z.of_nat (List.length l)) by (apply Z.pow_pos_nonneg; lia). nia.
Qed.

Lemma str_int_length k L : 0 <= k < 10 ^ L -> 1 <= L ->
  Z.of_nat (String.length (Py.str_int k)) <= L.
Proof.
  intros [K0 K1] HL. destruct k as [|p|p]; try lia.
  { change (Py.str_int 0) with "0". simpl. lia. }
  destruct (str_int_digits (Z.pos p) K0) as (_ & V & _).
  rewrite str_int_pos in *. pose proof (to_uint_head p) as Hd.
  assert (G : forall c s, NilEmpty.string_of_uint (Pos.to_uint p) = String c s ->
            (exists j, Py.digit_val c = Some j /\ 1 <= j) ->
            Z.of_nat (String.length (String c s)) <= L).
  { intros c s E (j & Hj & J1). rewrite E in V. cbn [list_ascii_of_string] in V.
    pose proof (digits_value_head c (list_ascii_of_string s) j Hj J1) as B.
    rewrite V, length_list_ascii in B.
    assert (Z.of_nat (String.length s) < L).
    { apply (Z.pow_lt_mono_r_iff 10); lia. }
    cbn [String.length]. lia. }
  destruct (Pos.to_uint p) as [|u|u|u|u|u|u|u|u|u|u]; try contradiction;
    cbn [NilEmpty.string_of_uint] in *; eapply G; try reflexivity;
    eexists; (split; [vm_compute; reflexivity|lia]).
Qed.

Lemma str_int_neg (p : positive) :
  Py.str_int (Z.neg p) = String "-" (Py.str_int (Z.pos p)).
Proof.
  rewrite str_int_pos. unfold Py.str_int. cbn [Z.to_int NilZero.string_of_int].
  unfold NilZero.string_of_uint.
  pose proof (to_uint_head p) as H.
  destruct (Pos.to_uint p); try contradiction; reflexivity.
Qed.

(** An [int] of fewer than 640 digits is formatted whatever the limit. *)
Lemma format_int_small lim n : Z.abs n < 10 ^ 639 ->
  Py.format_int lim n = Ok (Py.str_int n).
Proof.
  intros H. unfold Py.format_int.
  assert (L : Z.of_nat (String.length (Py.str_int n)) <= 640).
  { destruct n as [|p|p].
    - pose proof (str_int_length 0 639 ltac:(lia) ltac:(lia)). lia.
    - pose proof (str_int_length (Z.pos p) 639 ltac:(lia) ltac:(lia)). lia.
    - rewrite str_int_neg. cbn [String.length].
      pose proof (str_int_length (Z.pos p) 639 ltac:(lia) ltac:(lia)). lia. }
  replace (640 <? Z.of_nat (String.length (Py.str_int n))) with false
    by (symmetry; apply Z.ltb_ge; exact L).
  reflexivity.
Qed.

Lemma format_int_exn lim n e : Py.format_int lim n = Raise e -> e = ValueError.
Proof. unfold Py.format_int. destruct (_ && _ && _); congruence. Qed.

(** *** The ints that convert to a float *)

Lemma binary_round_valid s (m : positive) e :
  valid_binary (binary_round prec emax s m e) = true.
Proof.
  unfold binary_round.
  pose proof (shl_align_spec m e (SpecFloat.fexp prec emax (Z.pos (digits2_pos m) + e))) as [A B].
  destruct (shl_align m e (SpecFloat.fexp prec emax (Z.pos (digits2_pos m) + e))) as [mz ez].
  cbn [fst snd] in A, B.
  set (E := SpecFloat.fexp prec emax (Z.pos (digits2_pos m) + e)) in *.
  rewrite <- A in B.
  assert (Hk : 0 <= e - ez) by lia.
  pose proof (digits2_shift m mz (e - ez) Hk B) as D.
  assert (He : ez <= rnd_exp (Z.pos mz) 1 ez).
  { unfold rnd_exp. rewrite Z.div_1_r. simpl Zdigits2. rewrite D.
    replace (Z.pos (digits2_pos m) + (e - ez) + ez) with (Z.pos (digits2_pos m) + e) by lia.
    fold E. lia. }
  pose proof (binary_round_aux_valid s (Z.pos mz) 1 ez ltac:(lia) ltac:(lia) He) as V.
  now rewrite Z.div_1_r, loc_of_frac_exact in V.
Qed.

Lemma rounds_big : rounds (bpow 1024) (bpow 1024).
Proof.
  pose proof (rounds_int 1 1024 ltac:(lia) ltac:(lia)) as H.
  rewrite Rmult_1_l in H. apply H. lra.
Qed.

(** An [int] that converts to a float is below [2^1024] in magnitude. *)
Lemma float_of_int_bound z x : Py.float_of_int z = Ok x -> Z.abs z < 2 ^ 1024.
Proof.
  unfold Py.float_of_int. intros H.
  destruct (Z.lt_ge_cases (Z.abs z) (2 ^ 1024)) as [|B]; trivial. exfalso.
  assert (Bp : forall s (p : positive), 2 ^ 1024 <= Z.pos p ->
             exists b, binary_round prec emax s p 0 = S754_infinity b).
  { intros s p Hp.
    destruct (binary_round_R s p 0) as (r & R1 & R2 & R3).
    pose proof (binary_round_valid s p 0) as V.
    assert (G : (bpow 1024 <= r)%R).
    { apply (rounds_mono _ _ _ _ rounds_big R2).
      apply IZR_le in Hp. rewrite IZR_pow2 in Hp by lia.
      replace (bpow 0) with 1%R by (unfold bpow; simpl; lra). lra. }
    pose proof (bpow_pos 1024) as P.
    destruct (binary_round prec emax s p 0) as [b|b| |b m e].
    - simpl in R1. destruct s; simpl in R1; lra.
    - now exists b.
    - discriminate.
    - simpl in R1. pose proof (bounded_lt_big m e V) as U.
      pose proof (finite_mag m e) as [L _].
      pose proof (bpow_pos (Z.pos (digits2_pos m) - 1 + e)).
      destruct s, b; simpl in R1; lra. }
  destruct z as [|p|p]; simpl Z.abs in B.
  - assert (0 < 2 ^ 1024) by (apply Z.pow_pos_nonneg; lia). lia.
  - simpl binary_normalize in H. destruct (Bp false p B) as [b E]. rewrite E in H. discriminate.
  - simpl binary_normalize in H. destruct (Bp true p B) as [b E]. rewrite E in H. discriminate.
Qed.

(** The third line of the result formats every day count that converts to
    a float. *)
Lemma format_int_of_float lim z x : Py.float_of_int z = Ok x ->
  Py.format_int lim z = Ok (Py.str_int z).
Proof.
  intros H. apply format_int_small. apply float_of_int_bound in H.
  assert (2 ^ 1024 < 10 ^ 639) by (vm_compute; reflexivity). lia.
Qed.

Local Open Scope string_scope.
Local Open Scope float_scope.

Lemma calcular_valores_total lim sb ad ip vvr dvr pvr pvt psa pod dias :
  Py.float_of_int dvr = Ok dias ->
  exists v, calcular_valores lim sb ad ip vvr dvr pvr pvt psa pod = Ok v.
Proof.
  intros Hd. unfold calcular_valores.
  destruct (calcular_inss_total sb) as [i ->].
  destruct (calcular_insalubridade_total ip) as [[[t a] b] ->].
  destruct (calcular_vr_total vvr dvr pvr dias Hd) as [r ->].
  destruct (calcular_vt_total sb pvt) as [x1 ->].
  destruct (calcular_vt_total sb psa) as [x2 ->].
  destruct (calcular_vt_total sb pod) as [x3 ->].
  cbn [py_bind]. rewrite truediv_100. cbn [py_bind].
  rewrite (format_int_of_float lim dvr dias Hd). cbn [py_bind].
  unfold Py.mul_float_int. rewrite Hd. cbn [py_bind].
  destruct (percentual_inss_total sb i) as (r' & -> & _). cbn [py_bind].
  eexists; reflexivity.
Qed.

Lemma calcular_valores_exn lim sb ad ip vvr dvr pvr pvt psa pod e :
  calcular_valores lim sb ad ip vvr dvr pvr pvt psa pod = Raise e ->
  e = OverflowError \/ e = ValueError.
Proof.
  unfold calcular_valores.
  destruct (calcular_inss_total sb) as [i ->].
  destruct (calcular_insalubridade_total ip) as [[[t a] b] ->].
  cbn [py_bind].
  destruct (calcular_vr vvr dvr pvr) as [r|e'] eqn:Evr.
  2:{ cbn [py_bind]. intros [= <-]. left. eapply calcular_vr_exn; eauto. }
  destruct (calcular_vt_total sb pvt) as [x1 ->].
  destruct (calcular_vt_total sb psa) as [x2 ->].
  destruct (calcular_vt_total sb pod) as [x3 ->].
  cbn [py_bind]. rewrite truediv_100. cbn [py_bind].
  destruct (Py.format_int lim dvr) as [t0|e'] eqn:Ef; cbn [py_bind].
  2:{ intros [= <-]. right. eapply format_int_exn; eauto. }
  unfold Py.mul_float_int, Py.float_of_int.
  destruct (binary_normalize prec emax dvr 0 false); cbn [py_bind];
    try (intros [= <-]; now left);
    destruct (percentual_inss_total sb i) as (r' & -> & _); cbn [py_bind]; discriminate.
Qed.

(** C9. The lines of the result: [get_resultados_string] never raises
    [ZeroDivisionError] and, when the day count converts to a float, the
    values are computed; the INSS line is always the eighth line and
    shows the effective rate [inss / gross * 100], which is [0] without
    any division when the gross salary is not positive; and each of the
    lines of VR, VT, health plan and dental plan is the notice
    "Sem desconto de ..." when its percentage is [0]. *)
Theorem breakdown_presentation (loc : option locale.lconv) (max_str_digits : Z)
    (sb ad ip vvr : float) (dvr : Z) (pvr pvt psa pod : float) :
  get_resultados_string loc max_str_digits sb ad ip vvr dvr pvr pvt psa pod
    <> Raise ZeroDivisionError /\
  (forall dias, Py.float_of_int dvr = Ok dias ->
     exists v, calcular_valores max_str_digits sb ad ip vvr dvr pvr pvt psa pod = Ok v) /\
  (forall v, calcular_valores max_str_digits sb ad ip vvr dvr pvr pvt psa pod = Ok v ->
     let ls := linhas loc sb ad dvr pvr pvt psa pod v in
     get_resultados_string loc max_str_digits sb ad ip vvr dvr pvr pvt psa pod
       = Ok (Py.join Py.nl ls) /\
     List.length ls = 19%nat /\
     nth_error ls 7 =
       Some (Py.nl ++ "- Valor Desconto INSS (" ++ Py.format_2f false (percentual_inss v)
               ++ "%): R$ " ++ formatar_valor loc (desconto_inss v)) /\
     ((0 <? sb) = true ->
        Py.truediv (desconto_inss v) sb = Ok (desconto_inss v / sb) /\
        percentual_inss v = desconto_inss v / sb * 100) /\
     ((0 <? sb) = false -> percentual_inss v = 0) /\
     ((pvr =? 0) = true -> nth_error ls 8 = Some (Py.nl ++ "- Sem desconto de VR.")) /\
     ((pvt =? 0) = true -> nth_error ls 9 = Some (Py.nl ++ "- Sem desconto de VT.")) /\
     ((psa =? 0) = true ->
        nth_error ls 10 = Some (Py.nl ++ "- Sem desconto de Plano de Saúde.")) /\
     ((pod =? 0) = true ->
        nth_error ls 11 = Some (Py.nl ++ "- Sem desconto de Plano Odontológico."))).
Proof.
  split; [|split].
  - unfold get_resultados_string.
    destruct (calcular_valores max_str_digits sb ad ip vvr dvr pvr pvt psa pod)
      as [v|e] eqn:E; cbn [py_bind]; try discriminate.
    apply calcular_valores_exn in E. destruct E; subst; discriminate.
  - intros dias H. eapply calcular_valores_total; eauto.
  - intros v Hv ls. unfold get_resultados_string. rewrite Hv. cbn [py_bind].
    assert (Hz : forall p, (p =? 0) = true -> Py.gtb p 0 = false).
    { intros p Hp. unfold Py.gtb. destruct (0 <? p) eqn:G; trivial.
      rewrite (gtb_0_neq_0 p G) in Hp. discriminate. }
    split; [reflexivity|]. split; [reflexivity|]. split; [reflexivity|].
    assert (Hpi : ((0 <? sb) = true -> percentual_inss v = desconto_inss v / sb * 100) /\
                  ((0 <? sb) = false -> percentual_inss v = 0)).
    { revert Hv. unfold calcular_valores.
      destruct (calcular_inss sb) as [i|]; [|discriminate].
      destruct (calcular_insalubridade ip) as [[[t a] b]|]; [|discriminate].
      destruct (calcular_vr vvr dvr pvr) as [r|]; [|discriminate].
      destruct (calcular_vt sb pvt) as [x1|]; [|discriminate].
      destruct (calcular_vt sb psa) as [x2|]; [|discriminate].
      destruct (calcular_vt sb pod) as [x3|]; [|discriminate].
      cbn [py_bind]. rewrite truediv_100. cbn [py_bind].
      destruct (Py.format_int max_str_digits dvr) as [t0|]; [|discriminate]. cbn [py_bind].
      destruct (Py.mul_float_int vvr dvr) as [vt|]; [|discriminate]. cbn [py_bind].
      destruct (percentual_inss_total sb i) as (r' & -> & R1 & R2). cbn [py_bind].
      intros [= <-]. cbn [percentual_inss desconto_inss]. split; trivial. }
    destruct Hpi as [Hp1 Hp0].
    split; [|split].
    + intros G. split; [|now apply Hp1].
      unfold Py.truediv. now rewrite (gtb_0_neq_0 sb G).
    + exact Hp0.
    + repeat split; intros Hp; unfold ls, linhas; cbn [nth_error]; unfold linha_desconto;
        now rewrite (Hz _ Hp).
Qed.

(** A gross salary of [0] with no discount at all. *)
Lemma breakdown_presentation_witness :
  exists v, calcular_valores 4300 3000 0 20 20 22 0 6 0 0 = Ok v /\
    nth_error (linhas locale.pt_BR 3000 0 22 0 6 0 0 v) 8
      = Some (Py.nl ++ "- Sem desconto de VR.") /\
    nth_error (linhas locale.pt_BR 3000 0 22 0 6 0 0 v) 7
      = Some (Py.nl ++ "- Valor Desconto INSS (8.45%): R$ 253,41").
Proof.
  destruct (proj1 (proj2 (breakdown_presentation locale.pt_BR 4300 3000 0 20 20 22 0 6 0 0))
              22 eq_refl) as [v Hv].
  exists v. split; [exact Hv|].
  destruct (proj2 (proj2 (breakdown_presentation locale.pt_BR 4300 3000 0 20 20 22 0 6 0 0)) v Hv)
    as (_ & _ & H7 & _ & _ & H8 & _).
  split; [apply H8; reflexivity|].
  rewrite H7. vm_compute in Hv. injection Hv as <-. vm_compute. reflexivity.
Defined.

Local Open Scope string_scope.
Local Open Scope float_scope.

(** ** The net salary *)

(** C10. The net salary does not depend on the percentage of the advance:
    two runs that differ in that percentage only both return or raise the
    same exception, and when they return they have the same total of
    discounts and the same net salary, which is the gross salary minus the
    five discounts plus the insalubridade; the advance
    [percentage / 100 * gross] enters neither, and the two lines that show
    the total and the net salary are the same. *)
Theorem net_salary_independent_of_advance (max_str_digits : Z)
    (sb a1 a2 ip vvr : float) (dvr : Z) (pvr pvt psa pod : float) :
  match calcular_valores max_str_digits sb a1 ip vvr dvr pvr pvt psa pod,
        calcular_valores max_str_digits sb a2 ip vvr dvr pvr pvt psa pod with
  | Ok v1, Ok v2 =>
      total_descontos v1 = total_descontos v2 /\
      salario_liquido v1 = salario_liquido v2 /\
      salario_liquido v1 =
        sb - desconto_inss v1 - desconto_vr v1 - desconto_vt v1 - desconto_saude v1
          - desconto_odonto v1 + insal_total v1 /\
      total_descontos v1 =
        desconto_inss v1 + desconto_vr v1 + desconto_vt v1 + desconto_saude v1
          + desconto_odonto v1 /\
      adiantamento_40 v1 = a1 / 100 * sb /\
      adiantamento_40 v2 = a2 / 100 * sb /\
      forall loc,
        nth_error (linhas loc sb a1 dvr pvr pvt psa pod v1) 12
          = nth_error (linhas loc sb a2 dvr pvr pvt psa pod v2) 12 /\
        nth_error (linhas loc sb a1 dvr pvr pvt psa pod v1) 17
          = nth_error (linhas loc sb a2 dvr pvr pvt psa pod v2) 17
  | Raise e1, Raise e2 => e1 = e2
  | _, _ => False
  end.
Proof.
  unfold calcular_valores.
  destruct (calcular_inss sb) as [i|e]; cbn [py_bind]; trivial.
  destruct (calcular_insalubridade ip) as [[[t a] b]|e]; cbn [py_bind]; trivial.
  destruct (calcular_vr vvr dvr pvr) as [r|e]; cbn [py_bind]; trivial.
  destruct (calcular_vt sb pvt) as [x1|e]; cbn [py_bind]; trivial.
  destruct (calcular_vt sb psa) as [x2|e]; cbn [py_bind]; trivial.
  destruct (calcular_vt sb pod) as [x3|e]; cbn [py_bind]; trivial.
  rewrite !truediv_100. cbn [py_bind].
  destruct (Py.format_int max_str_digits dvr) as [t0|e]; cbn [py_bind]; trivial.
  destruct (Py.mul_float_int vvr dvr) as [vt|e]; cbn [py_bind]; trivial.
  destruct (percentual_inss_total sb i) as (r' & -> & _). cbn [py_bind].
  repeat split; reflexivity.
Qed.



Local Open Scope Z_scope.

(** ** The real value of a quotient *)

Section Quotient.
Variables (p d : positive) (e1 e2 : Z).

Let e' := Z.min (SpecFloat.fexp prec emax
                   (Z.pos (digits2_pos p) + e1 - (Z.pos (digits2_pos d) + e2))) (e1 - e2).
Let num := Z.pos p * 2 ^ (e1 - e2 - e').

Lemma div_num_pos : 0 < num.
Proof.
  unfold num. pose proof (pow2_pos (e1 - e2 - e') ltac:(unfold e'; lia)). nia.
Qed.

Lemma SFdiv_core_frac :
  SFdiv_core_binary prec emax (Z.pos p) e1 (Z.pos d) e2
  = (num / Z.pos d, e', loc_of_frac (num mod Z.pos d) (Z.pos d)).
Proof.
  unfold SFdiv_core_binary. cbn [Zdigits2]. fold e'.
  assert (Hs : 0 <= e1 - e2 - e') by (unfold e'; lia).
  assert (Hm : match e1 - e2 - e' with
               | 0 => Z.pos p
               | Z.pos _ => Z.shiftl (Z.pos p) (e1 - e2 - e')
               | Z.neg _ => 0
               end = num).
  { unfold num. destruct (e1 - e2 - e') as [|s|s] eqn:S; try lia.
    rewrite Z.shiftl_mul_pow2 by lia. reflexivity. }
  rewrite Hm.
  pose proof (Z.mod_pos_bound num (Z.pos d) ltac:(lia)) as B.
  unfold Z.div, Z.modulo in *.
  destruct (Z.div_eucl num (Z.pos d)) as [q r].
  rewrite new_location_frac by lia. reflexivity.
Qed.

Lemma div_exp_ok : e' <= rnd_exp num (Z.pos d) e'.
Proof.
  unfold rnd_exp.
  assert (Hs : 0 <= e1 - e2 - e') by (unfold e'; lia).
  pose proof div_num_pos as Hn.
  pose proof (digits2_pos_spec p) as [Lp Up]. pose proof (digits2_pos_spec d) as [Ld Ud].
  set (dp := Z.pos (digits2_pos p)) in *. set (dd := Z.pos (digits2_pos d)) in *.
  set (s := e1 - e2 - e') in *.
  pose proof (rnd_q_bounds num (Z.pos d) ltac:(lia) ltac:(lia)) as (Hq & _ & Hu).
  set (q := num / Z.pos d) in *.
  assert (Hdig : dp + e1 - (dd + e2) <= Zdigits2 q + e').
  { destruct (Z_le_gt_dec (dp - dd + s) 0) as [L|G].
    - pose proof (Zdigits2_spec q Hq). lia.
    - assert (2 ^ (dp - dd + s - 1) <= q).
      { assert (X : 2 ^ (dp - 1) * 2 ^ s = 2 ^ (dp - dd + s - 1) * 2 ^ dd).
        { rewrite <- !Z.pow_add_r by lia. f_equal. lia. }
        pose proof (pow2_pos s Hs).
        pose proof (pow2_pos (dp - dd + s - 1) ltac:(lia)).
        assert (Y : 2 ^ (dp - dd + s - 1) * 2 ^ dd <= num).
        { rewrite <- X. unfold num. fold s. apply Z.mul_le_mono_nonneg_r; lia. }
        assert (W : 2 ^ (dp - dd + s - 1) * Z.pos d <= 2 ^ (dp - dd + s - 1) * 2 ^ dd)
          by (apply Z.mul_le_mono_nonneg_l; lia).
        destruct (Z_le_gt_dec (2 ^ (dp - dd + s - 1)) q); trivial. exfalso.
        assert ((q + 1) * Z.pos d <= 2 ^ (dp - dd + s - 1) * Z.pos d)
          by (apply Z.mul_le_mono_nonneg_r; lia).
        lia. }
      pose proof (Zdigits2_ge q (dp - dd + s - 1) ltac:(lia) H). lia. }
  apply fexp_mono in Hdig. unfold e' at 1. fold dp. fold dd. lia.
Qed.

Lemma div_value :
  (IZR num / IZR (Z.pos d) * bpow e'
   = (IZR (Z.pos p) * bpow e1) / (IZR (Z.pos d) * bpow e2))%R.
Proof.
  assert (Hs : 0 <= e1 - e2 - e') by (unfold e'; lia).
  unfold num. rewrite mult_IZR, IZR_pow2 by lia.
  assert (X : (bpow (e1 - e2 - e') * bpow e' * bpow e2 = bpow e1)%R).
  { rewrite <- !bpow_add. f_equal. lia. }
  pose proof (bpow_pos e2). assert (0 < IZR (Z.pos d))%R by (apply IZR_lt; lia).
  rewrite <- X. field. split; lra.
Qed.

Lemma SFdiv_finite_R sx sy :
  exists r,
    SF2R (SFdiv prec emax (S754_finite sx p e1) (S754_finite sy d e2))
      = (sgn (xorb sx sy) * r)%R /\
    rounds ((IZR (Z.pos p) * bpow e1) / (IZR (Z.pos d) * bpow e2)) r /\
    is_nan (SFdiv prec emax (S754_finite sx p e1) (S754_finite sy d e2)) = false.
Proof.
  unfold SFdiv. rewrite SFdiv_core_frac.
  pose proof div_num_pos as Hn. pose proof div_exp_ok as He.
  exists (clamp (rnd_val num (Z.pos d) e')). split; [|split].
  - apply binary_round_aux_R; lia.
  - apply (rounds_intro _ _ num (Z.pos d) e'); trivial; try lia.
    symmetry. apply div_value.
  - rewrite binary_round_aux_frac by (trivial; lia).
    destruct (_ =? 0); trivial. destruct (_ =? 2 ^ 53).
    + destruct (_ <=? 971); reflexivity.
    + destruct (_ <=? 971); reflexivity.
Qed.
End Quotient.

Lemma SFdiv_R x y : finz x = true -> valid_binary x = true ->
  forall sy my ey, y = S754_finite sy my ey ->
  rounds_s (SF2R x / SF2R y) (SF2R (SFdiv prec emax x y)) /\
  is_nan (SFdiv prec emax x y) = false.
Proof.
  intros Fx Vx sy my ey ->.
  assert (Py : (0 < IZR (Z.pos my) * bpow ey)%R).
  { pose proof (bpow_pos ey). assert (0 < IZR (Z.pos my))%R by (apply IZR_lt; lia). nra. }
  destruct x as [sx|sx| |sx mx ex]; try discriminate.
  - split; [|reflexivity]. simpl. unfold Rdiv. rewrite Rmult_0_l.
    left. split; [lra|apply rounds_0].
  - destruct (SFdiv_finite_R mx my ex ey sx sy) as (r & R1 & R2 & R3).
    split; trivial. rewrite R1.
    pose proof (rounds_nonneg _ _ R2) as [P0 P1].
    set (v := (IZR (Z.pos mx) * bpow ex / (IZR (Z.pos my) * bpow ey))%R) in *.
    assert (V : (SF2R (S754_finite sx mx ex) / SF2R (S754_finite sy my ey)
                 = sgn (xorb sx sy) * v)%R).
    { pose proof (bpow_pos ey) as Pe. assert (Pm : (0 < IZR (Z.pos my))%R) by (apply IZR_lt; lia).
      simpl. unfold v. destruct sx, sy; simpl; field; repeat split; lra. }
    rewrite V. destruct (xorb sx sy); simpl.
    + right. split; [lra|].
      replace (- (-1 * v))%R with v by ring. replace (- (-1 * r))%R with r by ring. trivial.
    + left. rewrite !Rmult_1_l. tauto.
Qed.

(** The quotient of a float by a positive finite float, in real terms. *)
Lemma div_R x c : finz (Prim2SF x) = true -> finz (Prim2SF c) = true -> (0 < FR c)%R ->
  rounds_s (FR x / FR c) (FR (x / c)%float) /\ fnan (x / c)%float = false.
Proof.
  intros Fx Fc Pc. unfold FR, fnan in *. rewrite div_spec.
  destruct (Prim2SF c) as [s|s| |s m e] eqn:Ec; try discriminate.
  - simpl in Pc. lra.
  - apply (SFdiv_R _ _ Fx (Prim2SF_valid x) s m e). reflexivity.
Qed.

Local Open Scope string_scope.
Local Open Scope float_scope.

(** ** The brackets of the INSS withholding *)

(** In each bracket the withholding is the sum of the full brackets below
    it and the bracket's rate on the part of the salary inside it, computed
    as the loop does. *)
Theorem calcular_inss_piecewise (g : float) :
  ((0 <? g) = true -> (g <=? 1518.00) = true ->
     calcular_inss g = Ok (0 + (g - 0) * 0.075)) /\
  ((1518.00 <? g) = true -> (g <=? 2793.88) = true ->
     calcular_inss g = Ok (0 + (1518.00 - 0) * 0.075 + (g - 1518.00) * 0.09)) /\
  ((2793.88 <? g) = true -> (g <=? 4190.83) = true ->
     calcular_inss g
       = Ok (0 + (1518.00 - 0) * 0.075 + (2793.88 - 1518.00) * 0.09
               + (g - 2793.88) * 0.12)) /\
  ((4190.83 <? g) = true -> (g <=? 8157.41) = true ->
     calcular_inss g
       = Ok (0 + (1518.00 - 0) * 0.075 + (2793.88 - 1518.00) * 0.09
               + (4190.83 - 2793.88) * 0.12 + (g - 4190.83) * 0.14)).
Proof.
  assert (U : forall a, (a <? g) = true -> Py.gtb g a = true) by (intros a H; exact H).
  assert (E : Py.enumerate INSS_LIMITS
              = [(0%nat, 1518.00); (1%nat, 2793.88); (2%nat, 4190.83); (3%nat, 8157.41)])
    by reflexivity.
  assert (R0 : Py.getitem INSS_RATES 0 = Ok 0.075) by reflexivity.
  assert (R1 : Py.getitem INSS_RATES 1 = Ok 0.09) by reflexivity.
  assert (R2 : Py.getitem INSS_RATES 2 = Ok 0.12) by reflexivity.
  assert (R3 : Py.getitem INSS_RATES 3 = Ok 0.14) by reflexivity.
  repeat split; intros L H; unfold calcular_inss; rewrite E.
  - rewrite (ltb_not_leb _ _ L). cbn [inss_loop]. rewrite R0. cbn [py_bind].
    now rewrite (leb_not_gtb _ _ H).
  - assert (L0 : (0 <? g) = true) by (eapply ltb_trans; [|exact L]; reflexivity).
    rewrite (ltb_not_leb _ _ L0). cbn [inss_loop]. rewrite R0, R1. cbn [py_bind].
    rewrite (U _ L). now rewrite (leb_not_gtb _ _ H).
  - assert (L1 : (1518.00 <? g) = true) by (eapply ltb_trans; [|exact L]; reflexivity).
    assert (L0 : (0 <? g) = true) by (eapply ltb_trans; [|exact L]; reflexivity).
    rewrite (ltb_not_leb _ _ L0). cbn [inss_loop]. rewrite R0, R1, R2. cbn [py_bind].
    rewrite (U _ L1), (U _ L). now rewrite (leb_not_gtb _ _ H).
  - assert (L2 : (2793.88 <? g) = true) by (eapply ltb_trans; [|exact L]; reflexivity).
    assert (L1 : (1518.00 <? g) = true) by (eapply ltb_trans; [|exact L]; reflexivity).
    assert (L0 : (0 <? g) = true) by (eapply ltb_trans; [|exact L]; reflexivity).
    rewrite (ltb_not_leb _ _ L0). cbn [inss_loop]. rewrite R0, R1, R2, R3. cbn [py_bind].
    rewrite (U _ L2), (U _ L1), (U _ L). now rewrite (leb_not_gtb _ _ H).
Qed.

Lemma calcular_inss_piecewise_witness :
  calcular_inss 2000 = Ok (0 + (1518.00 - 0) * 0.075 + (2000 - 1518.00) * 0.09).
Proof.
  apply (proj1 (proj2 (calcular_inss_piecewise 2000))); reflexivity.
Defined.

Lemma calcular_inss_range (g : float) :
  fnan g = false ->
  exists v, calcular_inss g = Ok v /\ (0 <=? v) = true /\ (v <=? teto_inss) = true.
Proof.
  intros N. unfold calcular_inss. destruct (g <=? 0) eqn:G.
  - exists 0. repeat split; reflexivity.
  - assert (N0 : fnan 0 = false) by reflexivity.
    assert (P : (0 <=? g) = true) by (apply ltb_leb, not_leb_ltb; trivial).
    assert (I : (g <=? infinity) = true).
    { apply leb_R. repeat split; trivial. pose proof (valid_bounds _ (Prim2SF_valid g)) as B.
      assert (EI : FR infinity = bpow 1024) by (unfold FR; simpl; lra).
      rewrite EI. exact (proj2 B). }
    destruct (inss_loop_monotone g infinity P I) as (v1 & v2 & E1 & E2 & L & T).
    assert (E3 : inss_loop infinity (Py.enumerate INSS_LIMITS) 0 0 = Ok teto_inss)
      by (vm_compute; reflexivity).
    rewrite E3 in E2. injection E2 as <-.
    exists v1. repeat split; trivial.
Qed.

(** The withholding is never negative and never above the ceiling: for
    every salary that is a number, [0 <= calcular_inss g <= teto_inss]. *)
Theorem calcular_inss_bounds (g : float) :
  fnan g = false ->
  exists v, calcular_inss g = Ok v /\ (0 <=? v) = true /\ (v <=? teto_inss) = true.
Proof. apply calcular_inss_range. Qed.

Lemma calcular_inss_bounds_witness :
  exists v, calcular_inss 5000 = Ok v /\ (0 <=? v) = true /\ (v <=? teto_inss) = true.
Proof. apply (calcular_inss_bounds 5000). reflexivity. Defined.

(** ** A percentage of an amount *)

Lemma FR_100 : FR 100 = 100%R.
Proof.
  assert (E : Prim2SF 100 = S754_finite false 7036874417766400 (-46)) by reflexivity.
  unfold FR. rewrite E. simpl SF2R.
  pose proof (bpow_inv 46) as I. rewrite <- (IZR_pow2 46) in I by lia.
  change (2 ^ 46)%Z with 70368744177664%Z in I.
  change (bpow (- (46))) with (bpow (-46)) in I.
  set (x := bpow (-46)) in *. lra.
Qed.

Lemma rounds_s_one : rounds_s 1 1.
Proof.
  left. split; [lra|].
  replace 1%R with (IZR 1 * bpow 0)%R by (unfold bpow; simpl; lra).
  apply rounds_int; try lia. unfold bpow at 1. simpl.
  pose proof (bpow_ge1 1024 ltac:(lia)). lra.
Qed.

Lemma rounds_s_zero : rounds_s 0 0.
Proof. left. split; [lra|apply rounds_0]. Qed.

Lemma finite_of_bounds x lo hi :
  (lo <=? x) = true -> (x <=? hi) = true ->
  finz (Prim2SF lo) = true -> finz (Prim2SF hi) = true -> finz (Prim2SF x) = true.
Proof.
  intros L H Fl Fh. apply leb_R in L as (_ & N & L), H as (_ & _ & H).
  apply finz_of_R; trivial. fold (FR x).
  assert (A : forall y, finz (Prim2SF y) = true -> (Rabs (FR y) < bpow 1024)%R).
  { intros y Fy. unfold FR. pose proof (Prim2SF_valid y) as V.
    pose proof (bpow_pos 1024).
    destruct (Prim2SF y) as [s|s| |s m e]; try discriminate; simpl.
    - rewrite Rabs_R0. lra.
    - pose proof (bounded_lt_big m e V).
      assert (0 < IZR (Z.pos m) * bpow e)%R.
      { pose proof (bpow_pos e). assert (0 < IZR (Z.pos m))%R by (apply IZR_lt; lia). nra. }
      destruct s; simpl; apply Rabs_def1; lra. }
  pose proof (A lo Fl) as Al. pose proof (A hi Fh) as Ah.
  apply Rabs_def2 in Al, Ah. apply Rabs_def1; lra.
Qed.

(** [p / 100] of a percentage between 0 and 100 is between 0 and 1. *)
Lemma percent_fraction p : (0 <=? p) = true -> (p <=? 100) = true ->
  fnan (p / 100) = false /\ (0 <= FR (p / 100) <= 1)%R.
Proof.
  intros L H.
  assert (Fp : finz (Prim2SF p) = true)
    by (apply (finite_of_bounds p 0 100); trivial; reflexivity).
  apply leb_R in L as (_ & _ & L), H as (_ & _ & H).
  rewrite FR_100 in H. assert (Z0 : FR 0 = 0%R) by reflexivity. rewrite Z0 in L.
  destruct (div_R p 100 Fp ltac:(reflexivity) ltac:(rewrite FR_100; lra)) as [R N].
  rewrite FR_100 in R. split; trivial. split.
  - apply (rounds_s_mono _ _ _ _ rounds_s_zero R). lra.
  - apply (rounds_s_mono _ _ _ _ R rounds_s_one). lra.
Qed.

(** A percentage of at most 100 of a finite amount [t >= 0] is between [0]
    and [t]. *)
Lemma percent_of_bounds t p :
  (0 <=? t) = true -> (t <? infinity) = true ->
  (0 <=? p) = true -> (p <=? 100) = true ->
  (0 <=? t * (p / 100)) = true /\ (t * (p / 100) <=? t) = true.
Proof.
  intros T0 T1 P0 P1.
  destruct (percent_fraction p P0 P1) as [Nq [Q0 Q1]].
  set (q := p / 100) in *.
  assert (Ft : finz (Prim2SF t) = true).
  { apply leb_R in T0 as (_ & N & L). apply ltb_R in T1 as (_ & _ & H).
    assert (EI : FR infinity = bpow 1024) by (unfold FR; simpl; lra).
    assert (Z0 : FR 0 = 0%R) by reflexivity. rewrite EI in H. rewrite Z0 in L.
    apply finz_of_R; trivial. fold (FR t). apply Rabs_def1; lra. }
  assert (Fq : finz (Prim2SF q) = true).
  { apply finz_of_R; trivial. fold (FR q). pose proof (bpow_ge1 1024 ltac:(lia)).
    pose proof (bpow_lt 0 1024 ltac:(lia)) as B. unfold bpow at 1 in B. simpl in B.
    apply Rabs_def1; lra. }
  apply leb_R in T0 as (_ & Nt & T0). assert (Z0 : FR 0 = 0%R) by reflexivity.
  rewrite Z0 in T0.
  destruct (SFmul_R (Prim2SF t) (Prim2SF q) Ft Fq (Prim2SF_valid _) (Prim2SF_valid _))
    as [R N].
  change (SFmul prec emax) with SF64mul in R, N. rewrite <- mul_spec in R, N.
  fold (FR t) (FR q) (FR (t * q)) in R.
  pose proof (rounds_s_valid (Prim2SF t) Ft (Prim2SF_valid _)) as Rt. fold (FR t) in Rt.
  split; apply leb_R; repeat split; trivial.
  - rewrite Z0. apply (rounds_s_mono _ _ _ _ rounds_s_zero R). nra.
  - apply (rounds_s_mono _ _ _ _ R Rt). nra.
Qed.

(** ** The proportional discounts *)

(** [calcular_vt] never raises, whatever its arguments: its discount is
    [salario_bruto * (percentual / 100)] when both are positive and [0]
    otherwise; and for a salary below infinity and a percentage of at most
    100 it is at least [0] and, the salary not being negative, at most the
    salary. *)
Theorem calcular_vt_bounds (salario_bruto percentual : float) :
  exists v,
    calcular_vt salario_bruto percentual = Ok v /\
    v = (if (0 <? percentual) && (0 <? salario_bruto)
         then salario_bruto * (percentual / 100) else 0) /\
    ((salario_bruto <? infinity) = true -> (percentual <=? 100) = true ->
     (0 <=? v) = true /\
     ((0 <=? salario_bruto) = true -> (v <=? salario_bruto) = true)).
Proof.
  unfold calcular_vt, Py.gtb.
  destruct (0 <? percentual) eqn:P; cbn [andb].
  - destruct (0 <? salario_bruto) eqn:S.
    + cbn [Py.truediv py_bind]. change (100 =? 0) with false. cbn [py_bind].
      eexists. split; [reflexivity|]. split; [reflexivity|].
      intros Hs Hp.
      destruct (percent_of_bounds salario_bruto percentual
                  (ltb_leb _ _ S) Hs (ltb_leb _ _ P) Hp) as [A B].
      split; trivial.
    + exists 0. repeat split; trivial.
  - exists 0. repeat split; trivial.
Qed.

Lemma calcular_vt_bounds_witness :
  (exists v,
     calcular_vt 3000 6 = Ok v /\ v = 3000 * (6 / 100) /\
     (0 <=? v) = true /\ (v <=? 3000) = true) /\
  (exists v, calcular_vt 3000 150 = Ok v /\ v = 3000 * (150 / 100)) /\
  (exists v, calcular_vt nan 6 = Ok v /\ v = 0) /\
  (exists v, calcular_vt infinity 6 = Ok v /\ v = infinity * (6 / 100)).
Proof.
  split; [|split; [|split]].
  - destruct (calcular_vt_bounds 3000 6) as (v & E & F & B).
    destruct (B eq_refl eq_refl) as [B0 B1].
    exists v. repeat split; trivial. now apply B1.
  - destruct (calcular_vt_bounds 3000 150) as (v & E & F & _). now exists v.
  - destruct (calcular_vt_bounds nan 6) as (v & E & F & _). now exists v.
  - destruct (calcular_vt_bounds infinity 6) as (v & E & F & _). now exists v.
Defined.

Local Open Scope string_scope.
Local Open Scope float_scope.

(** The discount of the meal voucher is at most the value of the voucher:
    with [total] the product [valor_vr * dias_vr] the result text shows,
    finite and not negative, and a percentage of at most 100,
    [0 <= calcular_vr <= total]. *)
Theorem calcular_vr_bounds (valor_vr : float) (dias_vr : Z) (percentual total : float) :
  Py.mul_float_int valor_vr dias_vr = Ok total ->
  (0 <=? total) = true -> (total <? infinity) = true ->
  (percentual <=? 100) = true ->
  exists v,
    calcular_vr valor_vr dias_vr percentual = Ok v /\
    (0 <=? v) = true /\ (v <=? total) = true.
Proof.
  intros Hm T0 T1 Hp. unfold calcular_vr.
  destruct (Py.gtb percentual 0 && Py.gtb valor_vr 0 && (dias_vr >? 0)%Z) eqn:G.
  - rewrite Hm. cbn [Py.truediv py_bind]. change (100 =? 0) with false. cbn [py_bind].
    eexists. split; [reflexivity|].
    apply andb_true_iff in G as [G _]. apply andb_true_iff in G as [G _].
    apply (percent_of_bounds total percentual T0 T1 (ltb_leb _ _ G) Hp).
  - exists 0. repeat split; trivial.
Qed.

Lemma calcular_vr_bounds_witness :
  exists v, calcular_vr 20 22 50 = Ok v /\ (0 <=? v) = true /\ (v <=? 440) = true.
Proof. apply (calcular_vr_bounds 20 22 50 440); reflexivity. Defined.

(** ** The amount [formatar_valor] shows *)

Lemma cents_of_near m e :
  (Rabs (IZR (Py.cents_of m e) - 100 * (IZR (Z.pos m) * bpow e)) <= / 2)%R.
Proof.
  unfold Py.cents_of, Py.scaled_num, Py.scaled_den.
  change (10 ^ Z.max 2 0)%Z with 100%Z. change (10 ^ Z.max (- (2)) 0)%Z with 1%Z.
  rewrite Z.mul_1_r.
  set (a := Z.max e 0). set (b := Z.max (- e) 0).
  pose proof (pow2_pos b ltac:(unfold b; lia)) as Pb.
  pose proof (rne_div_spec (Z.pos m * 2 ^ a * 100) (2 ^ b) Pb) as (S & _ & _).
  cbv zeta in S. set (c := Py.rne_div (Z.pos m * 2 ^ a * 100) (2 ^ b)) in *.
  destruct S as [S1 S2]. apply IZR_le in S1, S2.
  rewrite !mult_IZR in S1, S2. rewrite minus_IZR, mult_IZR in S1.
  rewrite plus_IZR, mult_IZR in S2.
  rewrite !IZR_pow2 in S1, S2 by (unfold a, b; lia).
  assert (X : (bpow a = bpow e * bpow b)%R).
  { rewrite <- bpow_add. f_equal. unfold a, b. lia. }
  rewrite X in S1, S2.
  pose proof (bpow_pos b) as PB. set (B := bpow b) in *.
  set (v := (IZR (Z.pos m) * bpow e)%R) in *.
  assert (A1 : ((2 * IZR c - 1) * B <= (200 * v) * B)%R) by (unfold v; nra).
  assert (A2 : ((200 * v) * B <= (2 * IZR c + 1) * B)%R) by (unfold v; nra).
  apply Rmult_le_reg_r in A1, A2; trivial.
  apply Rabs_le. lra.
Qed.

(** The text of a finite float is its magnitude in hundredths, rounded to
    the nearest: the amount shown is within half a cent of the float. *)
Theorem formatar_valor_accuracy (loc : option locale.lconv) (x : float) s m e :
  loc = locale.pt_BR \/ loc = locale.C ->
  Prim2SF x = S754_finite s m e ->
  exists c,
    formatar_valor loc x = texto_brasileiro s c /\ (0 <= c)%Z /\
    (Rabs (IZR c - 100 * Rabs (FR x)) <= / 2)%R.
Proof.
  intros Hl Hx. exists (Py.cents_of m e). split; [|split].
  - destruct Hl as [-> | ->]; [apply formatar_valor_pt_BR | apply formatar_valor_C]; exact Hx.
  - apply cents_of_nonneg.
  - assert (A : Rabs (FR x) = (IZR (Z.pos m) * bpow e)%R).
    { unfold FR. rewrite Hx. simpl.
      pose proof (bpow_pos e). assert (0 < IZR (Z.pos m))%R by (apply IZR_lt; lia).
      destruct s; simpl; [rewrite Rabs_left | rewrite Rabs_right]; nra. }
    rewrite A. apply cents_of_near.
Qed.

Lemma formatar_valor_accuracy_witness :
  exists c,
    formatar_valor locale.pt_BR 2870.1864 = texto_brasileiro false c /\ (0 <= c)%Z /\
    (Rabs (IZR c - 100 * Rabs (FR 2870.1864)) <= / 2)%R.
Proof.
  apply (formatar_valor_accuracy locale.pt_BR 2870.1864 false 6311606641369075 (-41));
    [now left | reflexivity].
Defined.

(** The fallback of the [except] branch writes what the Brazilian locale
    writes, for every float but the negative zero, which the locale shows
    without its sign. *)
Theorem formatar_valor_fallback (x : float) :
  (Prim2SF x <> S754_zero true ->
     formatar_valor locale.C x = formatar_valor locale.pt_BR x) /\
  formatar_valor locale.pt_BR (-0) = "0,00" /\
  formatar_valor locale.C (-0) = "-0,00".
Proof.
  split; [|split; reflexivity].
  intros H. destruct (Prim2SF x) as [s|s| |s m e] eqn:E.
  - destruct s; [congruence|].
    unfold formatar_valor, locale.currency, locale.pt_BR, locale.C, locale.localize,
      Py.format_2f.
    rewrite ltb_spec, abs_spec, E. reflexivity.
  - unfold formatar_valor, locale.currency, locale.pt_BR, locale.C, locale.localize,
      Py.format_2f.
    rewrite ltb_spec, ?abs_spec, ?E. destruct s; reflexivity.
  - unfold formatar_valor, locale.currency, locale.pt_BR, locale.C, locale.localize,
      Py.format_2f.
    rewrite ltb_spec, ?abs_spec, ?E. reflexivity.
  - now rewrite (formatar_valor_pt_BR x s m e E), (formatar_valor_C x s m e E).
Qed.

Lemma formatar_valor_fallback_witness :
  formatar_valor locale.C (-1234.5) = formatar_valor locale.pt_BR (-1234.5).
Proof.
  apply (proj1 (formatar_valor_fallback (-1234.5))). discriminate.
Defined.

Local Open Scope string_scope.
Local Open Scope Z_scope.

(** ** What [limpar_formato] reads *)

Lemma only_replace_empty a s :
  only (fun c => negb (Ascii.eqb c a)) (Py.replace a "" s) = true.
Proof.
  induction s as [|c s IH]; simpl; trivial.
  destruct (Ascii.eqb c a) eqn:E; simpl; trivial. now rewrite E.
Qed.

Lemma replace_empty_idem a s :
  Py.replace a "" (Py.replace a "" s) = Py.replace a "" s.
Proof. apply replace_none, only_replace_empty. Qed.

Lemma replace_nonempty a s : Py.replace a "" s <> "" -> s <> "".
Proof. intros H ->. now apply H. Qed.

Lemma eqb_false_of_neq s : s <> "" -> String.eqb s "" = false.
Proof. intros H. destruct s; [congruence | reflexivity]. Qed.

(** Every point is dropped before the text is read, wherever it stands: a
    text reads as the text without its points (["1.5"] is read as 15). *)
Theorem limpar_formato_ignores_points (valor : string) :
  Py.replace "." "" valor <> "" ->
  limpar_formato valor = limpar_formato (Py.replace "." "" valor).
Proof.
  intros H. unfold limpar_formato.
  rewrite (eqb_false_of_neq _ H), (eqb_false_of_neq _ (replace_nonempty _ _ H)).
  now rewrite replace_empty_idem.
Qed.

Lemma limpar_formato_ignores_points_witness :
  limpar_formato "1.5" = limpar_formato "15" /\ limpar_formato "1.5" = Ok 15%float.
Proof.
  split.
  - apply (limpar_formato_ignores_points "1.5"). discriminate.
  - reflexivity.
Defined.

(** The Brazilian text of [c] hundredths reads as the quotient [c / 100] of
    the two ints, the float nearest to the amount. *)
Theorem limpar_formato_reads_hundredths (s : bool) (c : Z) (x : float) :
  0 < c ->
  Py.int_truediv (if s then - c else c) 100 = Ok x ->
  limpar_formato (texto_brasileiro s c) = Ok x.
Proof.
  intros Hc H. rewrite limpar_formato_texto by lia.
  destruct c as [|p|p]; try lia.
  unfold Py.int_truediv in H. change (100 =? 0) with false in H.
  assert (E0 : ((if s then - Z.pos p else Z.pos p) =? 0) = false) by (destruct s; reflexivity).
  assert (E1 : ((if s then - Z.pos p else Z.pos p) <? 0) = s) by (destruct s; reflexivity).
  assert (E2 : Z.to_pos (Z.abs (if s then - Z.pos p else Z.pos p)) = p)
    by (destruct s; reflexivity).
  rewrite E0, E1, E2 in H. change (100 <? 0) with false in H.
  change (Z.to_pos (Z.abs 100)) with 100%positive in H.
  unfold Py.sf_of_decimal.
  replace (Z.to_pos (Z.pos p * 10 ^ Z.max (-2) 0)) with p
    by (change (10 ^ Z.max (-2) 0) with 1; rewrite Z.mul_1_r; reflexivity).
  change (Z.to_pos (10 ^ Z.max (- -2) 0)) with 100%positive.
  destruct (SFdiv prec emax (S754_finite s p 0) (S754_finite false 100 0));
    congruence.
Qed.

Lemma limpar_formato_reads_hundredths_witness :
  limpar_formato "1.518,00" = Ok 1518%float.
Proof.
  apply (limpar_formato_reads_hundredths false 151800 1518); [lia | reflexivity].
Defined.

(** *** Texts without a digit *)

Lemma filter_nil_all P s :
  Py.filter P s = "" <-> Py.all_chars (fun c => negb (P c)) s = true.
Proof.
  induction s as [|c s IH]; simpl; [tauto|].
  destruct (P c); simpl; [split; discriminate | exact IH].
Qed.

Lemma all_chars_app P a b :
  Py.all_chars P (a ++ b) = Py.all_chars P a && Py.all_chars P b.
Proof. induction a as [|c a IH]; simpl; trivial. now rewrite IH, andb_assoc. Qed.

Lemma all_chars_replace P old new s :
  Py.all_chars P new = true -> Py.all_chars P s = true ->
  Py.all_chars P (Py.replace old new s) = true.
Proof.
  intros Hn. induction s as [|c s IH]; simpl; trivial.
  rewrite andb_true_iff. intros [Hc Hs].
  destruct (Ascii.eqb c old).
  - rewrite all_chars_app, Hn. now apply IH.
  - simpl. rewrite Hc. now apply IH.
Qed.

Lemma all_chars_lstrip_c P s :
  Py.all_chars P s = true -> Py.all_chars P (Py.lstrip_c s) = true.
Proof.
  induction s as [|c s IH]; simpl; trivial.
  rewrite andb_true_iff. intros [Hc Hs].
  destruct (Py.is_c_space c); [now apply IH|]. simpl. now rewrite Hc.
Qed.

Lemma all_chars_rstrip_c P s :
  Py.all_chars P s = true -> Py.all_chars P (Py.rstrip_c s) = true.
Proof.
  induction s as [|c s IH]; simpl; trivial.
  rewrite andb_true_iff. intros [Hc Hs]. specialize (IH Hs).
  destruct (Py.rstrip_c s) as [|c' r'].
  - destruct (Py.is_c_space c); simpl; trivial. now rewrite Hc.
  - cbn [Py.all_chars]. now rewrite Hc.
Qed.

Lemma digitpart_no_digit l acc :
  Py.all_chars (fun c => negb (Py.isdigit c)) (string_of_list_ascii l) = true ->
  Py.digitpart l acc = None.
Proof.
  destruct l as [|c l]; simpl; trivial.
  rewrite andb_true_iff, negb_true_iff. unfold Py.isdigit. intros [Hc _].
  destruct (Py.digit_val c); [discriminate | reflexivity].
Qed.

Lemma parse_number_no_digit l :
  Py.all_chars (fun c => negb (Py.isdigit c)) (string_of_list_ascii l) = true ->
  Py.parse_number l = None.
Proof.
  intros H. unfold Py.parse_number. rewrite (digitpart_no_digit l 0 H).
  destruct l as [|c l]; trivial.
  destruct (Ascii.eqb c "."); trivial.
  apply digitpart_no_digit. simpl in H. now apply andb_true_iff in H.
Qed.

Lemma parse_sign_no_digit t neg l :
  Py.all_chars (fun c => negb (Py.isdigit c)) t = true ->
  Py.parse_sign (list_ascii_of_string t) = (neg, l) ->
  Py.all_chars (fun c => negb (Py.isdigit c)) (string_of_list_ascii l) = true.
Proof.
  intros Hs E. destruct t as [|c t']; simpl in E.
  - injection E as _ <-. reflexivity.
  - simpl in Hs. apply andb_true_iff in Hs as [Hc Ht].
    destruct (Ascii.eqb c "-"); [|destruct (Ascii.eqb c "+")]; injection E as _ <-;
      rewrite ?string_of_list_ascii_of_string; trivial.
    simpl. rewrite string_of_list_ascii_of_string. now rewrite Hc.
Qed.

(** Without a digit [float] reads a name or nothing. *)
Lemma float_of_str_no_digit s :
  Py.all_chars (fun c => negb (Py.isdigit c)) s = true ->
  Py.float_of_str s =
    let '(neg, l) := Py.parse_sign (list_ascii_of_string (Py.rstrip_c (Py.lstrip_c s))) in
    let w := string_of_list_ascii (map Py.lower l) in
    if String.eqb w "inf" || String.eqb w "infinity"
    then Ok (if neg then neg_infinity else infinity)
    else if String.eqb w "nan" then Ok nan
    else Raise ValueError.
Proof.
  intros H. unfold Py.float_of_str, Py.sf_of_string.
  assert (Hs : Py.all_chars (fun c => negb (Py.isdigit c)) (Py.rstrip_c (Py.lstrip_c s)) = true)
    by (now apply all_chars_rstrip_c, all_chars_lstrip_c).
  destruct (Py.parse_sign (list_ascii_of_string (Py.rstrip_c (Py.lstrip_c s))))
    as [neg l] eqn:E.
  pose proof (parse_sign_no_digit _ neg l Hs E) as Hl. cbv zeta.
  destruct (_ || _).
  - destruct neg; reflexivity.
  - destruct (String.eqb _ "nan"); [reflexivity|].
    now rewrite (parse_number_no_digit l Hl).
Qed.

(** An ASCII text without a digit is no amount: [limpar_formato] reads
    from it the infinity or the NaN whose name it spells, and raises
    [ValueError] when it spells none. *)
Theorem limpar_formato_without_digit (valor : string) :
  Py.isascii valor = true ->
  valor <> "" -> Py.filter Py.isdigit valor = "" ->
  limpar_formato valor =
    match nome_de_float valor with
    | (neg, "inf") | (neg, "infinity") => Ok (if neg then neg_infinity else infinity)
    | (_, "nan") => Ok nan
    | _ => Raise ValueError
    end.
Proof.
  intros _ Hne H. unfold limpar_formato. rewrite (eqb_false_of_neq _ Hne).
  rewrite float_of_str_no_digit.
  2:{ apply filter_nil_all in H.
      apply all_chars_replace; [reflexivity|]. apply all_chars_replace; [reflexivity|].
      exact H. }
  unfold nome_de_float.
  destruct (Py.parse_sign _) as [neg l]. cbv zeta.
  set (w := string_of_list_ascii (map Py.lower l)).
  destruct (String.eqb_spec w "inf") as [->|N1]; [reflexivity|].
  destruct (String.eqb_spec w "infinity") as [->|N2]; [reflexivity|].
  destruct (String.eqb_spec w "nan") as [->|N3]; [reflexivity|].
  cbn [orb].
  repeat match goal with
         | |- context [match ?x with EmptyString => _ | String _ _ => _ end] =>
             destruct x; try reflexivity; try congruence
         | |- context [match ?x with Ascii _ _ _ _ _ _ _ _ => _ end] =>
             destruct x; try reflexivity; try congruence
         | |- context [if ?b then _ else _] =>
             destruct b; try reflexivity; try congruence
         end.
Qed.

Lemma limpar_formato_without_digit_witness :
  limpar_formato "abc" = Raise ValueError /\
  limpar_formato "." = Raise ValueError /\
  limpar_formato "in,f" = Raise ValueError /\
  limpar_formato " -In.F " = Ok neg_infinity /\
  limpar_formato "NaN" = Ok nan.
Proof.
  split; [|split; [|split; [|split]]].
  - apply (limpar_formato_without_digit "abc"); [reflexivity | discriminate | reflexivity].
  - apply (limpar_formato_without_digit "."); [reflexivity | discriminate | reflexivity].
  - apply (limpar_formato_without_digit "in,f"); [reflexivity | discriminate | reflexivity].
  - apply (limpar_formato_without_digit " -In.F "); [reflexivity | discriminate | reflexivity].
  - apply (limpar_formato_without_digit "NaN"); [reflexivity | discriminate | reflexivity].
Defined.

(** ** The days of a month *)

Lemma days_of_month_range ano mes n : days_of_month ano mes n -> 28 <= n <= 31.
Proof. intros H. inversion H; lia. Qed.

Lemma verificar_dias_validos_eq ano mes d : 1 <= mes <= 12 ->
  verificar_dias_validos ano mes d
  = Ok ((0 <=? d) && (d <=? calendar.days_in_month ano mes)).
Proof.
  intros H. unfold verificar_dias_validos, calendar.monthrange.
  replace ((mes <? 1) || (mes >? 12)) with false
    by (symmetry; apply orb_false_iff; rewrite Z.ltb_ge, Z.gtb_ltb, Z.ltb_ge; lia).
  replace ((1 <=? mes) && (mes <=? 12)) with true
    by (symmetry; apply andb_true_iff; rewrite !Z.leb_le; lia).
  reflexivity.
Qed.

Lemma verificar_dias_validos_month ano mes dias :
  verificar_dias_validos ano mes dias = Ok true -> 1 <= mes <= 12.
Proof.
  unfold verificar_dias_validos. destruct ((mes <? 1) || (mes >? 12)) eqn:E; [discriminate|].
  apply orb_false_iff in E. rewrite Z.ltb_ge, Z.gtb_ltb, Z.ltb_ge in E. lia.
Qed.

Lemma verificar_dias_validos_days ano mes dias :
  verificar_dias_validos ano mes dias = Ok true ->
  1 <= mes <= 12 /\ 0 <= dias <= calendar.days_in_month ano mes.
Proof.
  intros H. pose proof (verificar_dias_validos_month _ _ _ H) as M. split; trivial.
  rewrite (verificar_dias_validos_eq ano mes dias M) in H. injection H as H.
  apply andb_true_iff in H. rewrite !Z.leb_le in H. lia.
Qed.

Lemma days_in_month_range ano mes : 1 <= mes <= 12 ->
  28 <= calendar.days_in_month ano mes <= 31.
Proof. intros H. exact (days_of_month_range _ _ _ (days_in_month_spec ano mes H)). Qed.

(** No month has fewer than 28 days or more than 31: a count that passes
    the check lies between 0 and 31 in a month between 1 and 12, every
    count from 0 to 28 passes in every month, and with a count every
    smaller count passes. *)
Theorem verificar_dias_validos_range (ano mes dias : Z) :
  (verificar_dias_validos ano mes dias = Ok true -> 1 <= mes <= 12 /\ 0 <= dias <= 31) /\
  (1 <= mes <= 12 -> 0 <= dias <= 28 -> verificar_dias_validos ano mes dias = Ok true) /\
  (verificar_dias_validos ano mes dias = Ok true ->
     forall d, 0 <= d <= dias -> verificar_dias_validos ano mes d = Ok true).
Proof.
  split; [|split].
  - intros H. destruct (verificar_dias_validos_days _ _ _ H) as [M D]. split; trivial.
    pose proof (days_in_month_range ano mes M). lia.
  - intros M H. rewrite (verificar_dias_validos_eq ano mes dias M). f_equal.
    apply andb_true_iff. rewrite !Z.leb_le. pose proof (days_in_month_range ano mes M). lia.
  - intros H d Hd. destruct (verificar_dias_validos_days _ _ _ H) as [M D].
    rewrite (verificar_dias_validos_eq ano mes d M). f_equal.
    apply andb_true_iff. rewrite !Z.leb_le. lia.
Qed.

Lemma verificar_dias_validos_range_witness :
  verificar_dias_validos 2023 2 28 = Ok true /\
  (forall d, 0 <= d <= 30 -> verificar_dias_validos 2025 4 d = Ok true).
Proof.
  split.
  - apply (proj1 (proj2 (verificar_dias_validos_range 2023 2 28))); lia.
  - apply (proj2 (proj2 (verificar_dias_validos_range 2025 4 30))). reflexivity.
Defined.

Local Open Scope string_scope.
Local Open Scope Z_scope.

(** ** Digits typed into a monetary entry *)

Lemma filter_all P s : Py.all_chars P (Py.filter P s) = true.
Proof.
  induction s as [|c s IH]; simpl; trivial.
  destruct (P c) eqn:E; simpl; trivial. now rewrite E.
Qed.

Lemma filter_app P a b : Py.filter P (a ++ b) = Py.filter P a ++ Py.filter P b.
Proof.
  induction a as [|c a IH]; simpl; trivial. destruct (P c); simpl; now rewrite IH.
Qed.

Lemma isdigit_not_c_space c : Py.isdigit c = true -> Py.is_c_space c = false.
Proof.
  unfold Py.isdigit, Py.digit_val, Py.is_c_space.
  destruct ((48 <=? Z.of_nat (nat_of_ascii c)) && (Z.of_nat (nat_of_ascii c) <=? 57)) eqn:E;
    [|discriminate].
  intros _. apply andb_true_iff in E. rewrite !Z.leb_le in E.
  apply orb_false_iff. split.
  - apply andb_false_iff. right. apply Z.leb_gt. lia.
  - apply Z.eqb_neq. lia.
Qed.

Lemma lstrip_c_digits s : Py.all_chars Py.isdigit s = true -> Py.lstrip_c s = s.
Proof.
  destruct s as [|c s]; simpl; trivial.
  rewrite andb_true_iff. intros [Hc _]. now rewrite (isdigit_not_c_space c Hc).
Qed.

Lemma rstrip_c_digits s : Py.all_chars Py.isdigit s = true -> Py.rstrip_c s = s.
Proof.
  induction s as [|c s IH]; simpl; trivial.
  rewrite andb_true_iff. intros [Hc Hs]. rewrite IH by trivial.
  destruct s; trivial. now rewrite (isdigit_not_c_space c Hc).
Qed.

Lemma parse_sign_digits s :
  Py.all_chars Py.isdigit s = true ->
  Py.parse_sign (list_ascii_of_string s) = (false, list_ascii_of_string s).
Proof.
  destruct s as [|c s]; simpl; trivial.
  rewrite andb_true_iff. intros [Hc _].
  assert (A : Py.isdigit "-" = false) by reflexivity.
  assert (B : Py.isdigit "+" = false) by reflexivity.
  destruct (Ascii.eqb_spec c "-"); [subst; congruence|].
  destruct (Ascii.eqb_spec c "+"); [subst; congruence|]. reflexivity.
Qed.

(** [int] of a text of digits: the number they denote, or [ValueError]
    when they are more than the limit. *)
Lemma int_of_str_digits lim s :
  Py.all_chars Py.isdigit s = true -> s <> "" ->
  Py.int_of_str lim s
  = if (640 <? Z.of_nat (String.length s)) && (0 <? lim)
         && (lim <? Z.of_nat (String.length s)) then Raise ValueError
    else Ok (digits_value (list_ascii_of_string s) 0).
Proof.
  intros H Hne. unfold Py.int_of_str.
  rewrite lstrip_c_digits, rstrip_c_digits, parse_sign_digits by trivial.
  pose proof (digitpart_digits s [] 0) as D. rewrite List.app_nil_r in D.
  rewrite D; trivial. exact Logic.I.
Qed.

(** The float nearest to [p / 100] is read back from its own hundredths. *)
Lemma amount_fixed_point neg (p : positive) :
  Py.sf_of_decimal neg (Z.pos p) (-2) = S754_infinity neg \/
  exists m e,
    Py.sf_of_decimal neg (Z.pos p) (-2) = S754_finite neg m e /\
    valid_binary (S754_finite neg m e) = true /\
    Py.sf_of_decimal neg (Py.cents_of m e) (-2) = S754_finite neg m e.
Proof.
  destruct (Z_lt_le_dec (Z.pos p) (100 * 2 ^ 46)) as [Small|Large].
  - right. destruct (cents_of_decimal neg p Small) as (m & e & Hs & V & Hc).
    exists m, e. repeat split; trivial. now rewrite Hc.
  - destruct (large_decimal neg p Large) as [Hs | (m & e & Hs & V & He)]; [now left|].
    right. exists m, e. repeat split; trivial. now apply large_amount_reparse.
Qed.

Lemma int_truediv_100 (p : positive) :
  Py.int_truediv (Z.pos p) 100
  = match Py.sf_of_decimal false (Z.pos p) (-2) with
    | S754_infinity _ => Raise OverflowError
    | f => Ok (SF2Prim f)
    end.
Proof.
  unfold Py.int_truediv, Py.sf_of_decimal.
  replace (Z.to_pos (Z.pos p * 10 ^ Z.max (-2) 0)) with p
    by (change (10 ^ Z.max (-2) 0) with 1; rewrite Z.mul_1_r; reflexivity).
  reflexivity.
Qed.

(** The quotient [n / 100] of a natural number: a float that its own text
    gives back. *)
Lemma int_truediv_amount loc n q :
  loc = locale.pt_BR \/ loc = locale.C -> 0 <= n ->
  Py.int_truediv n 100 = Ok q ->
  exists c, 0 <= c /\
    formatar_valor loc q = texto_brasileiro false c /\
    limpar_formato (texto_brasileiro false c) = Ok q /\
    Py.int_truediv c 100 = Ok q.
Proof.
  intros Hl Hn H. destruct n as [|p|p]; try lia.
  - exists 0. injection H as <-. split; [lia|].
    destruct Hl as [-> | ->]; repeat split; reflexivity.
  - rewrite int_truediv_100 in H.
    destruct (amount_fixed_point false p) as [E | (m & e & E & V & F)]; rewrite E in H;
      [discriminate|].
    injection H as <-.
    assert (Hq : Prim2SF (SF2Prim (S754_finite false m e)) = S754_finite false m e)
      by now apply Prim2SF_SF2Prim.
    pose proof (cents_of_nonneg m e) as Hc.
    exists (Py.cents_of m e). split; trivial. split; [|split].
    + destruct Hl as [-> | ->]; [apply formatar_valor_pt_BR | apply formatar_valor_C];
        exact Hq.
    + rewrite limpar_formato_texto by trivial. now rewrite F.
    + destruct (Py.cents_of m e) as [|c|c] eqn:Ec; try lia; [discriminate F|].
      rewrite int_truediv_100, F. reflexivity.
Qed.

Lemma cents_of_upper m e : SpecFloat.bounded prec emax m e = true ->
  Py.cents_of m e <= 100 * 2 ^ 1024.
Proof.
  intros V. apply bounded_spec in V as [C E].
  pose proof (digits2_pos_spec m) as [L U].
  assert (D : Z.pos (digits2_pos m) <= 53) by lia.
  assert (M : Z.pos m < 2 ^ 53).
  { assert (2 ^ Z.pos (digits2_pos m) <= 2 ^ 53) by (apply Z.pow_le_mono_r; lia). lia. }
  unfold Py.cents_of, Py.scaled_num, Py.scaled_den.
  change (10 ^ Z.max 2 0) with 100. change (10 ^ Z.max (- (2)) 0) with 1.
  rewrite Z.mul_1_r.
  set (a := Z.max e 0). set (b := Z.max (- e) 0).
  pose proof (pow2_pos a ltac:(unfold a; lia)) as Pa.
  pose proof (pow2_pos b ltac:(unfold b; lia)) as Pb.
  assert (A : 2 ^ a <= 2 ^ 971) by (apply Z.pow_le_mono_r; unfold a; lia).
  set (n := Z.pos m * 2 ^ a * 100).
  assert (N : n <= 100 * 2 ^ 1024).
  { unfold n. change (2 ^ 1024) with (2 ^ 53 * 2 ^ 971). nia. }
  assert (R : Py.rne_div n (2 ^ b) <= Py.rne_div (n * 1) 1).
  { apply rne_div_mono; try lia. unfold n. nia. }
  rewrite rne_div_exact in R by lia. lia.
Qed.

Lemma texto_digits_length m e : SpecFloat.bounded prec emax m e = true ->
  Z.of_nat (String.length (Py.str_int (Py.cents_of m e / 100)
                           ++ Py.two_digits (Py.cents_of m e mod 100))) <= 311.
Proof.
  intros V. pose proof (cents_of_upper m e V) as U.
  pose proof (cents_of_nonneg m e) as N. set (c := Py.cents_of m e) in *.
  destruct (cents_parts c N) as (Hi & Hf & _).
  destruct (two_digits_spec (c mod 100) Hf) as (c1 & c2 & E & _).
  assert (B : c / 100 < 10 ^ 309).
  { apply Z.div_lt_upper_bound; [lia|].
    assert (100 * 2 ^ 1024 < 100 * 10 ^ 309) by (vm_compute; reflexivity). lia. }
  pose proof (str_int_length (c / 100) 309 ltac:(lia) ltac:(lia)) as Ln.
  rewrite E.
  assert (A : forall a b, String.length (a ++ b) = (String.length a + String.length b)%nat).
  { intros a b. induction a as [|x a IH]; simpl; congruence. }
  rewrite A. cbn [String.length]. lia.
Qed.

(** Under the [pt_BR] locale, and in the fallback when [locale.currency]
    raises, after a key is released in a monetary entry the entry holds
    the Brazilian text of [int(digits) / 100], and [limpar_formato] reads
    from it exactly that quotient. *)
Theorem on_key_release_monetary_reads_back
    (loc : option locale.lconv) (max_str_digits : Z) (text novo : string) :
  loc = locale.pt_BR \/ loc = locale.C ->
  Py.isascii text = true ->
  Py.filter Py.isdigit text <> "" ->
  on_key_release_monetary loc max_str_digits text = Ok novo ->
  exists n q,
    Py.int_of_str max_str_digits (Py.filter Py.isdigit text) = Ok n /\ 0 <= n /\
    Py.int_truediv n 100 = Ok q /\
    novo = formatar_valor loc q /\
    limpar_formato novo = Ok q.
Proof.
  intros Hl _ Hd H. unfold on_key_release_monetary in H.
  rewrite (eqb_false_of_neq _ Hd) in H.
  pose proof (int_of_str_digits max_str_digits _ (filter_all Py.isdigit text) Hd) as I.
  destruct (Py.int_of_str max_str_digits (Py.filter Py.isdigit text)) as [n|e] eqn:En;
    [|discriminate].
  cbn [py_bind] in H.
  destruct (Py.int_truediv n 100) as [q|e] eqn:Eq; [|discriminate].
  cbn [py_bind] in H. injection H as <-.
  assert (Hn : 0 <= n).
  { destruct (_ && _); [discriminate|]. injection I as ->.
    apply digits_value_nonneg. lia. }
  exists n, q. repeat split; trivial.
  destruct (int_truediv_amount loc n q Hl Hn Eq) as (c & Hc & T & R & _).
  now rewrite T.
Qed.

Lemma on_key_release_monetary_reads_back_witness :
  exists n q,
    Py.int_of_str 4300 (Py.filter Py.isdigit "1.518,005") = Ok n /\ 0 <= n /\
    Py.int_truediv n 100 = Ok q /\
    "15.180,05" = formatar_valor locale.pt_BR q /\
    limpar_formato "15.180,05" = Ok q.
Proof.
  apply (on_key_release_monetary_reads_back locale.pt_BR 4300 "1.518,005" "15.180,05");
    [now left | reflexivity | discriminate | reflexivity].
Defined.

(** *** The text in the conventions of any locale *)

Lemma rstrip_last c mid : Py.is_space c = false ->
  Py.rstrip (mid ++ String c "") = mid ++ String c "".
Proof.
  intros H. induction mid as [|x mid IH]; simpl.
  - now rewrite H.
  - rewrite IH. destruct mid; reflexivity.
Qed.

Lemma strip_ends d mid c : Py.is_space d = false -> Py.is_space c = false ->
  Py.strip (String d (mid ++ String c "")) = String d (mid ++ String c "").
Proof.
  intros Hd Hc. unfold Py.strip. cbn [Py.lstrip]. rewrite Hd.
  change (String d (mid ++ String c "")) with (String d mid ++ String c "").
  now apply rstrip_last.
Qed.

(** The text begins and ends with a digit, whatever the separators. *)
Lemma texto_local_ends loc c : 0 <= c ->
  exists d mid c2, texto_local loc c = String d (mid ++ String c2 "") /\
    is_digit d = true /\ is_digit c2 = true.
Proof.
  intros Hc. destruct (cents_parts c Hc) as (Hi & Hf & _).
  destruct (str_int_digits (c / 100) Hi) as (Di & _ & Ne).
  destruct (two_digits_spec (c mod 100) Hf) as (c1 & c2 & E & D1 & D2 & _).
  unfold texto_local. rewrite E.
  destruct (Py.str_int (c / 100)) as [|d ds]; [congruence|].
  cbn [only] in Di. apply andb_true_iff in Di as [Dd _].
  rewrite group3_cons. cbn [append].
  eexists d, _, c2. split; [|now split].
  f_equal.
  change (String c1 (String c2 "")) with (String c1 "" ++ String c2 "").
  rewrite <- !append_assoc. reflexivity.
Qed.

Lemma strip_texto_local loc c : 0 <= c -> Py.strip (texto_local loc c) = texto_local loc c.
Proof.
  intros Hc. destruct (texto_local_ends loc c Hc) as (d & mid & c2 & -> & Dd & D2).
  apply strip_ends; now apply is_digit_not_space.
Qed.

Local Open Scope float_scope.

(** What [formatar_valor] writes for a positive float, in any locale. *)
Lemma formatar_valor_local loc x m e : Prim2SF x = S754_finite false m e ->
  formatar_valor loc x = texto_local loc (Py.cents_of m e).
Proof.
  intros H. destruct loc as [conv|].
  - unfold formatar_valor, locale.currency.
    rewrite (finite_sign x false m e H).
    unfold locale.localize. rewrite abs_spec, H. cbn [SFabs].
    change ("" ++ ?t)%string with t.
    apply (strip_texto_local (Some conv)), cents_of_nonneg.
  - change None with locale.C. rewrite (formatar_valor_C x false m e H). reflexivity.
Qed.

Lemma formatar_valor_local_zero loc : formatar_valor loc 0 = texto_local loc 0%Z.
Proof.
  destruct loc as [conv|]; [|reflexivity].
  unfold formatar_valor, locale.currency.
  change (0 <? 0) with false. unfold locale.localize.
  change (Prim2SF (abs 0)) with (S754_zero false).
  change ("" ++ ?t)%string with t.
  change ("0" ++ locale.mon_decimal_point conv ++ "00")%string
    with (texto_local (Some conv) 0%Z).
  now apply strip_texto_local.
Qed.

Local Close Scope float_scope.

(** The quotient [n / 100] of a natural number is written as the text of a
    number of hundredths that gives the same quotient. *)
Lemma int_truediv_local loc n q : 0 <= n ->
  Py.int_truediv n 100 = Ok q ->
  exists c, 0 <= c /\
    formatar_valor loc q = texto_local loc c /\
    Py.int_truediv c 100 = Ok q /\
    Z.of_nat (String.length (Py.str_int (c / 100) ++ Py.two_digits (c mod 100))) <= 311.
Proof.
  intros Hn Eq. destruct n as [|p|p]; try lia.
  - exists 0. injection Eq as <-. split; [lia|].
    split; [apply formatar_valor_local_zero|]. split; [reflexivity|]. simpl. lia.
  - rewrite int_truediv_100 in Eq.
    destruct (amount_fixed_point false p) as [E | (m & e & E & V & F)]; rewrite E in Eq;
      [discriminate|].
    injection Eq as <-.
    assert (Hq : Prim2SF (SF2Prim (S754_finite false m e)) = S754_finite false m e)
      by now apply Prim2SF_SF2Prim.
    pose proof (cents_of_nonneg m e) as Hc.
    exists (Py.cents_of m e). split; trivial. split; [|split].
    + now apply formatar_valor_local.
    + destruct (Py.cents_of m e) as [|c|c] eqn:Ec; try lia; [discriminate F|].
      rewrite int_truediv_100, F. reflexivity.
    + now apply texto_digits_length.
Qed.

Lemma filter_group3_sep sep s :
  Py.all_chars (fun c => negb (Py.isdigit c)) sep = true ->
  Py.all_chars Py.isdigit s = true -> Py.filter Py.isdigit (Py.group3 sep s) = s.
Proof.
  intros Hsep. apply filter_nil_all in Hsep.
  induction s as [|c s IH]; [reflexivity|].
  simpl Py.all_chars. rewrite andb_true_iff. intros [Hc Hs].
  rewrite group3_cons. cbn [Py.filter]. rewrite Hc. f_equal.
  rewrite filter_app. rewrite (IH Hs).
  destruct (_ && _); [now rewrite Hsep | reflexivity].
Qed.

Lemma sem_digitos_spec loc : separadores_sem_digitos loc = true ->
  Py.all_chars (fun c => negb (Py.isdigit c))
    (locale.mon_thousands_sep (convencoes loc)) = true /\
  Py.all_chars (fun c => negb (Py.isdigit c))
    (locale.mon_decimal_point (convencoes loc)) = true.
Proof.
  unfold separadores_sem_digitos. cbv zeta. rewrite !andb_true_iff. tauto.
Qed.

Lemma filter_texto_local loc c : separadores_sem_digitos loc = true -> 0 <= c ->
  Py.filter Py.isdigit (texto_local loc c)
  = Py.str_int (c / 100) ++ Py.two_digits (c mod 100).
Proof.
  intros Hl Hc. destruct (sem_digitos_spec loc Hl) as [Hsep Hdp].
  destruct (cents_parts c Hc) as (Hi & Hf & _).
  destruct (str_int_digits (c / 100) Hi) as (Di & _ & _).
  destruct (two_digits_spec (c mod 100) Hf) as (c1 & c2 & E & D1 & D2 & _).
  unfold texto_local.
  rewrite !filter_app, (filter_group3_sep _ _ Hsep) by exact Di.
  apply filter_nil_all in Hdp. rewrite Hdp.
  rewrite E. cbn [Py.filter append].
  change (Py.isdigit c1) with (is_digit c1). change (Py.isdigit c2) with (is_digit c2).
  now rewrite D1, D2.
Qed.

Lemma texto_local_digits loc c : separadores_sem_digitos loc = true -> 0 <= c ->
  let ds := Py.filter Py.isdigit (texto_local loc c) in
  Py.all_chars Py.isdigit ds = true /\ ds <> "" /\
  digits_value (list_ascii_of_string ds) 0 = c.
Proof.
  intros Hl Hc ds. split; [apply filter_all|].
  unfold ds. rewrite filter_texto_local by trivial.
  destruct (cents_parts c Hc) as (Hi & Hf & Hs).
  destruct (str_int_digits (c / 100) Hi) as (_ & V & Ne).
  destruct (two_digits_spec (c mod 100) Hf) as (c1 & c2 & E & _ & _ & V2).
  split.
  - destruct (Py.str_int (c / 100)); [congruence | discriminate].
  - rewrite list_ascii_app, digits_value_app, V, E.
    cbn [list_ascii_of_string]. rewrite V2. lia.
Qed.

(** In every locale whose separators hold no digit, [pt_BR] and [en_US]
    among them, and in the fallback when [locale.currency] raises, the
    formatting of a monetary entry is idempotent: a key released on an
    entry that already holds its formatted amount leaves the text as it
    is. *)
Theorem on_key_release_monetary_idempotent
    (loc : option locale.lconv) (max_str_digits : Z) (text novo : string) :
  separadores_sem_digitos loc = true ->
  Py.isascii text = true ->
  on_key_release_monetary loc max_str_digits text = Ok novo ->
  on_key_release_monetary loc max_str_digits novo = Ok novo.
Proof.
  intros Hl _ H.
  destruct (string_dec (Py.filter Py.isdigit text) "") as [E|Hd].
  { unfold on_key_release_monetary in H. rewrite E in H. cbn in H.
    injection H as <-. unfold on_key_release_monetary. now rewrite E. }
  unfold on_key_release_monetary in H. rewrite (eqb_false_of_neq _ Hd) in H.
  pose proof (int_of_str_digits max_str_digits _ (filter_all Py.isdigit text) Hd) as I.
  destruct (Py.int_of_str max_str_digits (Py.filter Py.isdigit text)) as [n|e] eqn:En;
    [|discriminate].
  cbn [py_bind] in H.
  destruct (Py.int_truediv n 100) as [q|e] eqn:Eq; [|discriminate].
  cbn [py_bind] in H. injection H as <-.
  assert (Hn : 0 <= n).
  { destruct (_ && _); [discriminate|]. injection I as ->.
    apply digits_value_nonneg. lia. }
  clear I En.
  destruct (int_truediv_local loc n q Hn Eq) as (c & Hc & T & Q & Len). rewrite T.
  destruct (texto_local_digits loc c Hl Hc) as (A & Ne & V). cbv zeta in A, Ne, V.
  rewrite <- (filter_texto_local loc c Hl Hc) in Len.
  unfold on_key_release_monetary. rewrite (eqb_false_of_neq _ Ne).
  rewrite (int_of_str_digits max_str_digits _ A Ne), V.
  replace (640 <? _) with false by (symmetry; apply Z.ltb_ge; lia).
  cbn [andb py_bind]. rewrite Q. cbn [py_bind]. now rewrite T.
Qed.

Lemma on_key_release_monetary_idempotent_witness :
  on_key_release_monetary locale.pt_BR 4300 "15.180,05" = Ok "15.180,05" /\
  on_key_release_monetary locale.en_US 4300 "15,180.05" = Ok "15,180.05" /\
  on_key_release_monetary locale.C 4300 "15.180,05" = Ok "15.180,05".
Proof.
  split; [|split].
  - apply (on_key_release_monetary_idempotent locale.pt_BR 4300 "1.518,005" "15.180,05");
      reflexivity.
  - apply (on_key_release_monetary_idempotent locale.en_US 4300 "1518005" "15,180.05");
      reflexivity.
  - apply (on_key_release_monetary_idempotent locale.C 4300 "1518005" "15.180,05");
      reflexivity.
Defined.

(** *** When the callback raises *)

Lemma digits_value_upper l :
  Py.all_chars Py.isdigit (string_of_list_ascii l) = true ->
  digits_value l 0 < 10 ^ Z.of_nat (List.length l).
Proof.
  induction l as [|c l IH]; [reflexivity|].
  cbn [string_of_list_ascii Py.all_chars]. rewrite andb_true_iff. intros [Hc Hl].
  specialize (IH Hl). rewrite digits_value_cons, digits_value_acc.
  assert (D : match Py.digit_val c with Some d => d | None => 0 end <= 9).
  { unfold Py.digit_val.
    destruct ((48 <=? Z.of_nat (nat_of_ascii c)) && (Z.of_nat (nat_of_ascii c) <=? 57)) eqn:E;
      [|lia].
    apply andb_true_iff in E. rewrite !Z.leb_le in E. lia. }
  cbn [List.length]. rewrite Nat2Z.inj_succ, Z.pow_succ_r by lia.
  assert (0 < 10 ^ Z.of_nat (List.length l)) by (apply Z.pow_pos_nonneg; lia). nia.
Qed.

Lemma int_truediv_100_defined n : 0 <= n < 10 ^ 300 ->
  exists q, Py.int_truediv n 100 = Ok q.
Proof.
  intros [N0 N1]. destruct n as [|p|p]; try lia; [eexists; reflexivity|].
  rewrite int_truediv_100. unfold Py.sf_of_decimal.
  replace (Z.to_pos (Z.pos p * 10 ^ Z.max (-2) 0)) with p
    by (change (10 ^ Z.max (-2) 0) with 1; rewrite Z.mul_1_r; reflexivity).
  change (Z.to_pos (10 ^ Z.max (- -2) 0)) with 100%positive.
  destruct (SFdiv_finite_R p 100 0 0 false false) as (r & R1 & R2 & _).
  destruct (SFdiv prec emax (S754_finite false p 0) (S754_finite false 100 0)) as [s|s| |s m e];
    try (eexists; reflexivity).
  exfalso.
  assert (B : rounds (IZR 1 * bpow 1023) (IZR 1 * bpow 1023)).
  { apply rounds_int; try lia. rewrite Rmult_1_l. apply bpow_le. lia. }
  rewrite Rmult_1_l in B.
  assert (V : (IZR (Z.pos p) * bpow 0 / (IZR 100 * bpow 0) <= bpow 1023)%R).
  { replace (bpow 0) with 1%R by reflexivity. rewrite !Rmult_1_r.
    assert (Z.pos p <= 100 * 2 ^ 1023).
    { assert (10 ^ 300 <= 100 * 2 ^ 1023) by (vm_compute; discriminate). lia. }
    apply IZR_le in H. rewrite mult_IZR, IZR_pow2 in H by lia.
    pose proof (bpow_pos 1023).
    apply (Rmult_le_reg_r 100); [lra|]. unfold Rdiv. rewrite Rmult_assoc, Rinv_l by lra.
    lra. }
  pose proof (rounds_mono _ _ _ _ R2 B V) as M.
  pose proof (rounds_nonneg _ _ R2) as [_ P].
  pose proof (bpow_lt 1023 1024 ltac:(lia)).
  simpl in R1. destruct s; simpl in R1; lra.
Qed.

(** The callback of a monetary entry leaves a text without digits as it
    is, returns for every text with up to 300 digits, and raises
    [ValueError] when the digits are more than 640 and more than the limit
    of [int]. *)
Theorem on_key_release_monetary_errors
    (loc : option locale.lconv) (max_str_digits : Z) (text : string) :
  let count := Z.of_nat (String.length (Py.filter Py.isdigit text)) in
  Py.isascii text = true ->
  (count = 0 -> on_key_release_monetary loc max_str_digits text = Ok text) /\
  (0 < count <= 300 ->
     exists novo, on_key_release_monetary loc max_str_digits text = Ok novo) /\
  (640 < count -> 0 < max_str_digits < count ->
     on_key_release_monetary loc max_str_digits text = Raise ValueError).
Proof.
  intros count _. unfold on_key_release_monetary.
  set (ds := Py.filter Py.isdigit text) in *.
  assert (I : ds <> "" -> Py.int_of_str max_str_digits ds
              = if (640 <? count) && (0 <? max_str_digits) && (max_str_digits <? count)
                then Raise ValueError
                else Ok (digits_value (list_ascii_of_string ds) 0))
    by (intros Ne; apply int_of_str_digits; trivial; apply filter_all).
  assert (Z0 : count = 0 <-> ds = "").
  { unfold count. destruct ds; simpl; split; intros; try congruence; lia. }
  split; [|split].
  - intros C. apply Z0 in C. now rewrite C.
  - intros [C1 C2]. assert (Ne : ds <> "") by (intros E; apply Z0 in E; lia).
    rewrite (eqb_false_of_neq _ Ne), (I Ne).
    replace (640 <? count) with false by (symmetry; apply Z.ltb_ge; lia).
    cbn [andb py_bind].
    pose proof (digits_value_upper (list_ascii_of_string ds)) as Up.
    rewrite string_of_list_ascii_of_string, length_list_ascii in Up.
    specialize (Up (filter_all _ _)). fold count in Up.
    pose proof (digits_value_nonneg (list_ascii_of_string ds) 0 ltac:(lia)) as Lo.
    assert (B : 10 ^ count <= 10 ^ 300) by (apply Z.pow_le_mono_r; lia).
    assert (Hi : digits_value (list_ascii_of_string ds) 0 < 10 ^ 300) by lia.
    destruct (int_truediv_100_defined _ (conj Lo Hi)) as [q ->].
    cbn [py_bind]. eexists. reflexivity.
  - intros C0 [C1 C2]. assert (Ne : ds <> "") by (intros E; apply Z0 in E; lia).
    rewrite (eqb_false_of_neq _ Ne), (I Ne).
    replace ((640 <? count) && (0 <? max_str_digits) && (max_str_digits <? count)) with true;
      trivial.
    symmetry. rewrite !andb_true_iff, !Z.ltb_lt. lia.
Qed.

Lemma on_key_release_monetary_errors_witness :
  on_key_release_monetary locale.pt_BR 4300 "R$" = Ok "R$" /\
  exists novo, on_key_release_monetary locale.pt_BR 4300 "12a3" = Ok novo.
Proof.
  split.
  - apply (proj1 (on_key_release_monetary_errors locale.pt_BR 4300 "R$" eq_refl)).
    reflexivity.
  - apply (proj1 (proj2 (on_key_release_monetary_errors locale.pt_BR 4300 "12a3" eq_refl))).
    simpl. lia.
Defined.

(** *** The key validation of the monetary entries *)




Local Open Scope string_scope.
Local Open Scope Z_scope.

(** ** The validators of the percentage entries *)

Lemma float_of_str_exn s e : Py.float_of_str s = Raise e -> e = ValueError.
Proof. unfold Py.float_of_str. destruct (Py.sf_of_string s); congruence. Qed.

Lemma limpar_formato_exn s e : limpar_formato s = Raise e -> e = ValueError.
Proof.
  unfold limpar_formato. destruct (String.eqb s ""); [discriminate|].
  apply float_of_str_exn.
Qed.

Lemma replace_char_empty a b s : Py.replace a (String b "") s = "" <-> s = "".
Proof.
  split; [|now intros ->]. destruct s as [|c s]; trivial. simpl.
  destruct (Ascii.eqb c a); discriminate.
Qed.

Lemma replace_empty_all a s :
  Py.replace a "" s = "" <-> Py.all_chars (fun c => Ascii.eqb c a) s = true.
Proof.
  induction s as [|c s IH]; simpl; [tauto|].
  destruct (Ascii.eqb c a); simpl; [exact IH | split; discriminate].
Qed.

(** [format_money_input] never raises, and accepts a text exactly when
    [limpar_formato] reads it or it is made of points only: such a text,
    ["."] for one, passes the check and makes [limpar_formato] raise. *)
Theorem format_money_input_accepts (current_value : string) :
  (exists b, format_money_input current_value = Ok b) /\
  (format_money_input current_value = Ok true <->
     (exists x, limpar_formato current_value = Ok x) \/
     (current_value <> "" /\
      Py.all_chars (fun c => Ascii.eqb c ".") current_value = true)) /\
  (current_value <> "" ->
   Py.all_chars (fun c => Ascii.eqb c ".") current_value = true ->
   limpar_formato current_value = Raise ValueError).
Proof.
  unfold format_money_input, limpar_formato.
  set (clean := Py.replace "," "." (Py.replace "." "" current_value)).
  assert (C : clean = "" <-> Py.all_chars (fun c => Ascii.eqb c ".") current_value = true).
  { unfold clean. rewrite replace_char_empty. apply replace_empty_all. }
  destruct (string_dec current_value "") as [->|Ne].
  { split; [eexists; reflexivity|]. split; [|congruence].
    split; [intros _; left; eexists; reflexivity | reflexivity]. }
  rewrite (eqb_false_of_neq _ Ne).
  destruct (string_dec clean "") as [E|NE].
  - rewrite E. cbn. split; [eexists; reflexivity|]. split.
    + split; [intros _; right; split; trivial; now apply C | reflexivity].
    + reflexivity.
  - rewrite (eqb_false_of_neq _ NE).
    split; [|split].
    + destruct (Py.float_of_str clean) as [x|e] eqn:F; cbn; [eexists; reflexivity|].
      rewrite (float_of_str_exn _ _ F). eexists; reflexivity.
    + destruct (Py.float_of_str clean) as [x|e] eqn:F; cbn.
      * split; [intros _; left; eexists; reflexivity | reflexivity].
      * rewrite (float_of_str_exn _ _ F). split; [discriminate|].
        intros [[x Hx] | [_ A]]; [discriminate | apply C in A; contradiction].
    + intros _ A. apply C in A. contradiction.
Qed.

Lemma format_money_input_accepts_witness :
  format_money_input "." = Ok true /\ limpar_formato "." = Raise ValueError.
Proof.
  split.
  - apply (proj2 (proj1 (proj2 (format_money_input_accepts ".")))).
    right. split; [discriminate | reflexivity].
  - apply (proj2 (proj2 (format_money_input_accepts "."))); [discriminate | reflexivity].
Defined.

(** After [validate_percent] the entry holds its text or nothing, the
    error box was shown exactly when the text read as more than 100, and
    what [limpar_formato] reads from the entry is never more than 100. *)
Theorem validate_percent_bound (value : string) :
  exists novo shown,
    validate_percent value = Ok (novo, shown) /\
    (novo = if shown then "" else value) /\
    (shown = true <-> exists p, limpar_formato value = Ok p /\ Py.gtb p 100 = true) /\
    (forall p, limpar_formato novo = Ok p -> Py.gtb p 100 = false).
Proof.
  unfold validate_percent, limpar_formato.
  destruct (String.eqb value "") eqn:E.
  - exists value, false. repeat split; trivial; try discriminate.
    + intros (p & Hp & G). injection Hp as <-. discriminate G.
    + rewrite E. intros p [= <-]. reflexivity.
  - set (clean := Py.replace "," "." (Py.replace "." "" value)).
    destruct (Py.float_of_str clean) as [x|e] eqn:F; cbn [py_bind].
    + destruct (Py.gtb x 100) eqn:G.
      * exists "", true. repeat split; trivial.
        -- intros _. exists x. now split.
        -- intros p [= <-]. reflexivity.
      * exists value, false. repeat split; trivial; try discriminate.
        -- intros (p & [= <-] & G'). congruence.
        -- rewrite E. fold clean. rewrite F. intros p [= <-]. exact G.
    + rewrite (float_of_str_exn _ _ F).
      exists value, false. repeat split; trivial; try discriminate.
      * intros (p & Hp & _). discriminate Hp.
      * rewrite E. fold clean. rewrite F. discriminate.
Qed.

Local Open Scope string_scope.
Local Open Scope float_scope.

(** ** The net salary and the earnings *)

Lemma FR_infinity : FR infinity = bpow 1024.
Proof. unfold FR. simpl. lra. Qed.

Lemma FR_zero : FR 0 = 0%R.
Proof. reflexivity. Qed.

Lemma finz_good d : (0 <=? d) = true -> (d <? infinity) = true ->
  finz (Prim2SF d) = true /\ (0 <= FR d < bpow 1024)%R.
Proof.
  intros L H. apply leb_R in L as (_ & N & L). apply ltb_R in H as (_ & _ & H).
  rewrite FR_infinity in H. rewrite FR_zero in L. split; [|lra].
  apply finz_of_R; trivial. fold (FR d). apply Rabs_def1; lra.
Qed.

(** Taking a finite amount [d >= 0] off a number below infinity gives a
    number that is not greater. *)
Lemma sub_good x d :
  (x <? infinity) = true -> (0 <=? d) = true -> (d <? infinity) = true ->
  (x - d <=? x) = true /\ (x - d <? infinity) = true.
Proof.
  intros Hx D0 D1. destruct (finz_good d D0 D1) as [Fd [Dl Du]].
  apply ltb_R in Hx as (Nx & _ & Hx). rewrite FR_infinity in Hx.
  pose proof (Prim2SF_valid x) as Vx. pose proof (bpow_pos 1024) as P.
  assert (K : fnan (x - d) = false /\ (FR (x - d) <= FR x)%R).
  { unfold fnan, FR in *. rewrite sub_spec.
    destruct (Prim2SF x) as [s|s| |s m e] eqn:Ex; try discriminate.
    - destruct (SFsub_R (S754_zero s) (Prim2SF d) eq_refl Fd Vx (Prim2SF_valid d)) as [R N].
      split; trivial.
      apply (rounds_s_mono _ _ _ _ R (rounds_s_valid (S754_zero s) eq_refl Vx)). lra.
    - destruct s; [|simpl in Hx; lra].
      destruct (Prim2SF d) as [s'|s'| |s' m' e']; try discriminate; simpl; split; trivial; lra.
    - destruct (SFsub_R (S754_finite s m e) (Prim2SF d) eq_refl Fd Vx (Prim2SF_valid d))
        as [R N].
      split; trivial.
      apply (rounds_s_mono _ _ _ _ R (rounds_s_valid (S754_finite s m e) eq_refl Vx)). lra. }
  destruct K as [N L]. split.
  - apply leb_R. repeat split; trivial.
  - apply ltb_R. repeat split; trivial. rewrite FR_infinity. lra.
Qed.

Lemma add_mono_r c x y : finz (Prim2SF c) = true ->
  (x <=? y) = true -> (x + c <=? y + c) = true.
Proof.
  intros Fc H. rewrite leb_spec in *. rewrite !add_spec.
  apply (op_mono (fun X => SF64add X (Prim2SF c)) (fun v => (v + FR c)%R)); trivial;
    try apply Prim2SF_valid; try (rewrite <- add_spec; apply Prim2SF_valid).
  - intros; lra.
  - intros X FX VX. apply SFadd_R; trivial. apply Prim2SF_valid.
  - intros s. destruct (Prim2SF c); try discriminate; reflexivity.
Qed.

(** A proportional discount is finite and not negative. *)
Lemma calcular_vt_good s p v :
  (s <? infinity) = true -> (p <=? 100) = true -> calcular_vt s p = Ok v ->
  (0 <=? v) = true /\ (v <? infinity) = true.
Proof.
  intros Hs Hp. unfold calcular_vt, Py.gtb.
  destruct ((0 <? p) && (0 <? s)) eqn:G.
  - apply andb_true_iff in G as [P S].
    cbn [Py.truediv py_bind]. change (100 =? 0) with false. cbn [py_bind]. intros [= <-].
    destruct (percent_of_bounds s p (ltb_leb _ _ S) Hs (ltb_leb _ _ P) Hp) as [A B].
    split; trivial. apply ltb_R. apply leb_R in B as (N & _ & B).
    apply ltb_R in Hs as (_ & _ & Hs). repeat split; trivial. lra.
  - intros [= <-]. split; reflexivity.
Qed.

Lemma calcular_vr_good vvr dvr p total v :
  Py.mul_float_int vvr dvr = Ok total ->
  (0 <=? total) = true -> (total <? infinity) = true -> (p <=? 100) = true ->
  calcular_vr vvr dvr p = Ok v ->
  (0 <=? v) = true /\ (v <? infinity) = true.
Proof.
  intros Hm T0 T1 Hp. unfold calcular_vr.
  destruct (Py.gtb p 0 && Py.gtb vvr 0 && (dvr >? 0)%Z) eqn:G.
  - rewrite Hm. cbn [Py.truediv py_bind]. change (100 =? 0) with false. cbn [py_bind].
    intros [= <-].
    apply andb_true_iff in G as [G _]. apply andb_true_iff in G as [G _].
    destruct (percent_of_bounds total p T0 T1 (ltb_leb _ _ G) Hp) as [A B].
    split; trivial. apply ltb_R. apply leb_R in B as (N & _ & B).
    apply ltb_R in T1 as (_ & _ & T1). repeat split; trivial. lra.
  - intros [= <-]. split; reflexivity.
Qed.

Lemma calcular_insalubridade_good p t a b :
  (p <=? 100) = true -> calcular_insalubridade p = Ok (t, a, b) ->
  (0 <=? t) = true /\ (t <? infinity) = true.
Proof.
  intros Hp. unfold calcular_insalubridade. destruct (p <=? 0) eqn:G.
  - intros [= <- _ _]. split; reflexivity.
  - cbn [Py.truediv py_bind]. change (100 =? 0) with false. cbn [py_bind].
    intros [= <- _ _].
    assert (Np : fnan p = false) by (apply leb_R in Hp; tauto).
    assert (P : (0 <? p) = true) by (apply not_leb_ltb; trivial).
    destruct (percent_of_bounds SALARIO_MINIMO p eq_refl eq_refl (ltb_leb _ _ P) Hp)
      as [A B].
    split; trivial. apply ltb_R. apply leb_R in B as (N & _ & B).
    repeat split; trivial. rewrite FR_infinity.
    assert (FR SALARIO_MINIMO < bpow 1024)%R.
    { assert (L : (SALARIO_MINIMO <? infinity) = true) by reflexivity.
      apply ltb_R in L as (_ & _ & L). now rewrite FR_infinity in L. }
    lra.
Qed.

Lemma calcular_valores_inv lim sb ad ip vvr dvr pvr pvt psa pod v :
  calcular_valores lim sb ad ip vvr dvr pvr pvt psa pod = Ok v ->
  calcular_inss sb = Ok (desconto_inss v) /\
  calcular_insalubridade ip = Ok (insal_total v, parcela_40 v, parcela_60 v) /\
  calcular_vr vvr dvr pvr = Ok (desconto_vr v) /\
  calcular_vt sb pvt = Ok (desconto_vt v) /\
  calcular_vt sb psa = Ok (desconto_saude v) /\
  calcular_vt sb pod = Ok (desconto_odonto v) /\
  Py.mul_float_int vvr dvr = Ok (valor_vr_total v) /\
  salario_liquido v
    = sb - desconto_inss v - desconto_vr v - desconto_vt v - desconto_saude v
        - desconto_odonto v + insal_total v /\
  total_descontos v
    = desconto_inss v + desconto_vr v + desconto_vt v + desconto_saude v
        + desconto_odonto v.
Proof.
  unfold calcular_valores.
  destruct (calcular_inss sb) as [i|]; [|discriminate].
  destruct (calcular_insalubridade ip) as [[[t a] b]|]; [|discriminate].
  destruct (calcular_vr vvr dvr pvr) as [r|]; [|discriminate].
  destruct (calcular_vt sb pvt) as [x1|]; [|discriminate].
  destruct (calcular_vt sb psa) as [x2|]; [|discriminate].
  destruct (calcular_vt sb pod) as [x3|]; [|discriminate].
  cbn [py_bind]. change (Py.truediv ad 100) with (Ok (ad / 100)). cbn [py_bind].
  destruct (Py.format_int lim dvr) as [t0|]; [|discriminate]. cbn [py_bind].
  destruct (Py.mul_float_int vvr dvr) as [vt|]; [|discriminate]. cbn [py_bind].
  destruct (percentual_inss_total sb i) as (r' & -> & _). cbn [py_bind].
  intros [= <-]. cbn. repeat split; reflexivity.
Qed.

(** With percentages of at most 100, a finite salary and a finite value of
    the voucher, every discount is at least [0], and so is their total, and
    the net salary is at most the earnings, the salary plus the
    insalubridade. *)
Theorem net_salary_at_most_earnings
    (max_str_digits : Z) (sb ad ip vvr : float) (dvr : Z) (pvr pvt psa pod : float)
    (v : valores) :
  calcular_valores max_str_digits sb ad ip vvr dvr pvr pvt psa pod = Ok v ->
  (sb <? infinity) = true ->
  (ip <=? 100) = true -> (pvr <=? 100) = true -> (pvt <=? 100) = true ->
  (psa <=? 100) = true -> (pod <=? 100) = true ->
  (0 <=? valor_vr_total v) = true -> (valor_vr_total v <? infinity) = true ->
  (0 <=? desconto_inss v) = true /\ (0 <=? desconto_vr v) = true /\
  (0 <=? desconto_vt v) = true /\ (0 <=? desconto_saude v) = true /\
  (0 <=? desconto_odonto v) = true /\ (0 <=? insal_total v) = true /\
  (salario_liquido v <=? sb + insal_total v) = true.
Proof.
  intros H Hs Hip Hpvr Hpvt Hpsa Hpod T0 T1.
  destruct (calcular_valores_inv _ _ _ _ _ _ _ _ _ _ _ H)
    as (Ei & Et & Er & E1 & E2 & E3 & Em & Es & _).
  assert (Ns : fnan sb = false) by (apply ltb_R in Hs; tauto).
  destruct (calcular_inss_range sb Ns) as (i & Ei' & I0 & I1).
  rewrite Ei in Ei'. injection Ei' as <-.
  assert (I2 : (desconto_inss v <? infinity) = true).
  { apply ltb_R. apply leb_R in I1 as (N & _ & I1). repeat split; trivial.
    assert (L : (teto_inss <? infinity) = true) by reflexivity.
    apply ltb_R in L as (_ & _ & L). lra. }
  destruct (calcular_insalubridade_good _ _ _ _ Hip Et) as [G0 G1].
  destruct (calcular_vr_good _ _ _ _ _ Em T0 T1 Hpvr Er) as [R0 R1].
  destruct (calcular_vt_good _ _ _ Hs Hpvt E1) as [A0 A1].
  destruct (calcular_vt_good _ _ _ Hs Hpsa E2) as [B0 B1].
  destruct (calcular_vt_good _ _ _ Hs Hpod E3) as [C0 C1].
  repeat split; trivial.
  rewrite Es.
  destruct (sub_good sb _ Hs I0 I2) as [L1 F1].
  destruct (sub_good _ _ F1 R0 R1) as [L2 F2].
  destruct (sub_good _ _ F2 A0 A1) as [L3 F3].
  destruct (sub_good _ _ F3 B0 B1) as [L4 F4].
  destruct (sub_good _ _ F4 C0 C1) as [L5 F5].
  apply add_mono_r; [exact (proj1 (finz_good _ G0 G1))|].
  eapply leb_trans; [exact L5|]. eapply leb_trans; [exact L4|].
  eapply leb_trans; [exact L3|]. eapply leb_trans; [exact L2|]. exact L1.
Qed.

Lemma net_salary_at_most_earnings_witness :
  exists v,
    calcular_valores 4300 3000 0 20 20 22 50 6 0 0 = Ok v /\
    (salario_liquido v <=? 3000 + insal_total v) = true.
Proof.
  eexists. split; [vm_compute; reflexivity|].
  eapply (net_salary_at_most_earnings 4300 3000 0 20 20 22 50 6 0 0); reflexivity.
Defined.

Local Open Scope string_scope.
Local Open Scope Z_scope.

(** ** The button [Calcular] *)

Lemma int_of_str_exn lim s e : Py.int_of_str lim s = Raise e -> e = ValueError.
Proof.
  unfold Py.int_of_str. destruct (Py.parse_sign _) as [neg l].
  destruct (Py.digitpart l 0) as [[[n nd] [|c r]]|]; try congruence.
  destruct (_ && _ && _); congruence.
Qed.

Lemma int_or_0_exn lim s e : int_or_0 lim s = Raise e -> e = ValueError.
Proof.
  unfold int_or_0. destruct (String.eqb s ""); [discriminate|]. apply int_of_str_exn.
Qed.

Lemma verificar_dias_validos_total ano mes dias :
  exists b, verificar_dias_validos ano mes dias = Ok b.
Proof.
  unfold verificar_dias_validos, calendar.monthrange.
  destruct ((mes <? 1) || (mes >? 12)) eqn:E; [eexists; reflexivity|].
  apply orb_false_iff in E. rewrite Z.ltb_ge, Z.gtb_ltb, Z.ltb_ge in E.
  replace ((1 <=? mes) && (mes <=? 12)) with true
    by (symmetry; apply andb_true_iff; rewrite !Z.leb_le; lia).
  eexists; reflexivity.
Qed.

Lemma get_resultados_string_exn loc lim sb ad ip vvr dvr pvr pvt psa pod e :
  get_resultados_string loc lim sb ad ip vvr dvr pvr pvt psa pod = Raise e ->
  e = ValueError \/ (e = OverflowError /\ Py.float_of_int dvr = Raise OverflowError).
Proof.
  unfold get_resultados_string.
  destruct (calcular_valores lim sb ad ip vvr dvr pvr pvt psa pod) as [v|e'] eqn:E;
    [discriminate|].
  cbn [py_bind]. intros [= <-].
  destruct (calcular_valores_exn _ _ _ _ _ _ _ _ _ _ _ E) as [-> | ->]; [|now left].
  right. split; trivial.
  destruct (Py.float_of_int dvr) as [dias|e''] eqn:F.
  - destruct (calcular_valores_total lim sb ad ip vvr dvr pvr pvt psa pod dias F) as [v Hv].
    congruence.
  - unfold Py.float_of_int in *.
    destruct (binary_normalize prec emax dvr 0 false); congruence.
Qed.

(** The steps of [calcular] after the check of the blank fields. *)
Ltac passo H x :=
  match type of H with
  | context [py_bind ?c _] =>
      let E := fresh "E" in
      destruct c as [x|] eqn:E; cbn [py_bind] in H; [|discriminate H]
  end.

Lemma calcular_inv (loc : option locale.lconv) (max_str_digits : Z)
    (f : campos) (resultados : string) :
  calcular loc max_str_digits f = Resultado resultados ->
  exists ano mes dias_mes n,
    int_or_0 max_str_digits (ano_var f) = Ok ano /\
    int_or_0 max_str_digits (mes_var f) = Ok mes /\
    int_or_0 max_str_digits (dias_mes_var f) = Ok dias_mes /\
    1900 <= ano <= 2100 /\ 1 <= mes <= 12 /\
    days_of_month ano mes n /\ 0 <= dias_mes <= n /\
    exists salario_bruto adiantamento insal valor_vr dias_vr pvr pvt psa pod,
      limpar_formato (salario_bruto_var f) = Ok salario_bruto /\
      limpar_formato (adiantamento_var f) = Ok adiantamento /\
      limpar_formato (insal_var f) = Ok insal /\
      limpar_formato (valor_vr_var f) = Ok valor_vr /\
      int_or_0 max_str_digits (dias_vr_var f) = Ok dias_vr /\
      limpar_formato (desconto_vr_perc_var f) = Ok pvr /\
      limpar_formato (desconto_vt_perc_var f) = Ok pvt /\
      limpar_formato (desconto_saude_perc_var f) = Ok psa /\
      limpar_formato (desconto_odonto_perc_var f) = Ok pod /\
      get_resultados_string loc max_str_digits salario_bruto adiantamento insal valor_vr
        dias_vr pvr pvt psa pod = Ok resultados.
Proof.
  unfold calcular. destruct (forallb _ _); [discriminate|].
  intros H.
  match type of H with match ?c with _ => _ end = _ => destruct c as [s|e] eqn:C end;
    [|discriminate].
  subst s.
  passo C sb. passo C ad. passo C ano. passo C mes. passo C dias. passo C ip.
  passo C vvr. passo C dvr. passo C pvr. passo C pvt. passo C psa. passo C pod.
  destruct ((ano <? 1900) || (ano >? 2100)) eqn:Y; [discriminate|].
  passo C b.
  destruct b; cbn [negb] in C; [|discriminate].
  passo C r. injection C as <-.
  apply orb_false_iff in Y. rewrite Z.ltb_ge, Z.gtb_ltb, Z.ltb_ge in Y.
  match goal with V : verificar_dias_validos _ _ _ = Ok true |- _ =>
    pose proof (verificar_dias_validos_days ano mes dias V) as [M D]
  end.
  exists ano, mes, dias, (calendar.days_in_month ano mes).
  repeat split; trivial; try lia.
  - now apply days_in_month_spec.
  - exists sb, ad, ip, vvr, dvr, pvr, pvt, psa, pod. repeat split; assumption.
Qed.

(** On ASCII texts, a result is shown only for a valid date: the year is
    between 1900 and 2100, the month between 1 and 12 and the days between
    0 and the days of that month; and the text shown is that of
    [get_resultados_string] on what [limpar_formato] and [int] read from
    the entries. *)
Theorem calcular_result (loc : option locale.lconv) (max_str_digits : Z)
    (f : campos) (resultados : string) :
  campos_ascii f = true ->
  calcular loc max_str_digits f = Resultado resultados ->
  exists ano mes dias_mes n,
    int_or_0 max_str_digits (ano_var f) = Ok ano /\
    int_or_0 max_str_digits (mes_var f) = Ok mes /\
    int_or_0 max_str_digits (dias_mes_var f) = Ok dias_mes /\
    1900 <= ano <= 2100 /\ 1 <= mes <= 12 /\
    days_of_month ano mes n /\ 0 <= dias_mes <= n /\
    exists salario_bruto adiantamento insal valor_vr dias_vr pvr pvt psa pod,
      limpar_formato (salario_bruto_var f) = Ok salario_bruto /\
      limpar_formato (adiantamento_var f) = Ok adiantamento /\
      limpar_formato (insal_var f) = Ok insal /\
      limpar_formato (valor_vr_var f) = Ok valor_vr /\
      int_or_0 max_str_digits (dias_vr_var f) = Ok dias_vr /\
      limpar_formato (desconto_vr_perc_var f) = Ok pvr /\
      limpar_formato (desconto_vt_perc_var f) = Ok pvt /\
      limpar_formato (desconto_saude_perc_var f) = Ok psa /\
      limpar_formato (desconto_odonto_perc_var f) = Ok pod /\
      get_resultados_string loc max_str_digits salario_bruto adiantamento insal valor_vr
        dias_vr pvr pvt psa pod = Ok resultados.
Proof. intros _. apply calcular_inv. Qed.

Lemma calcular_result_witness :
  exists resultados,
    calcular locale.pt_BR 4300 campos_exemplo = Resultado resultados /\
    exists ano mes dias_mes n,
      int_or_0 4300 "2025" = Ok ano /\ int_or_0 4300 "4" = Ok mes /\
      int_or_0 4300 "30" = Ok dias_mes /\
      1900 <= ano <= 2100 /\ 1 <= mes <= 12 /\
      days_of_month ano mes n /\ 0 <= dias_mes <= n.
Proof.
  eexists. split; [vm_compute; reflexivity|].
  destruct (calcular_result locale.pt_BR 4300 campos_exemplo _ eq_refl eq_refl)
    as (ano & mes & dias & n & A & B & C & D & E & F & G & _).
  exists ano, mes, dias, n. repeat split; trivial; lia.
Defined.



Ltac falha C x :=
  match type of C with
  | context [py_bind ?c _] =>
      let E := fresh "E" in
      destruct c as [x|] eqn:E; cbn [py_bind] in C;
      [|injection C as <-;
        first [left; eapply limpar_formato_exn; eassumption
              |left; eapply int_or_0_exn; eassumption]]
  end.

(** Whatever ASCII texts the entries hold, [calcular] catches what is
    raised, and that is a [ValueError] for an entry that is not a number or
    an [OverflowError] for a count of voucher days too large for a float;
    nothing else is ever raised, no division by zero in particular. *)
Theorem calcular_exceptions (loc : option locale.lconv) (max_str_digits : Z)
    (f : campos) (e : exn) :
  campos_ascii f = true ->
  calcular loc max_str_digits f = Excecao e ->
  e = ValueError \/
  (e = OverflowError /\
   exists dias_vr, int_or_0 max_str_digits (dias_vr_var f) = Ok dias_vr /\
                   Py.float_of_int dias_vr = Raise OverflowError).
Proof.
  intros _. unfold calcular. destruct (forallb _ _); [discriminate|].
  intros H.
  match type of H with match ?c with _ => _ end = _ => destruct c as [s|e'] eqn:C end;
    [subst s|injection H as ->].
  { exfalso.
    repeat match type of C with
           | context [py_bind ?c _] => destruct c eqn:?; cbn [py_bind] in C; [|discriminate C]
           | context [if ?b then _ else _] => destruct b; try discriminate C
           end.
    discriminate C. }
  falha C sb. falha C ad. falha C ano. falha C mes. falha C dias. falha C ip.
  falha C vvr. falha C dvr. falha C pvr. falha C pvt. falha C psa. falha C pod.
  destruct ((ano <? 1900) || (ano >? 2100)); [discriminate|].
  destruct (verificar_dias_validos_total ano mes dias) as [b Vb]. rewrite Vb in C.
  cbn [py_bind] in C.
  destruct b; cbn [negb] in C; [|discriminate].
  destruct (get_resultados_string loc max_str_digits sb ad ip vvr dvr pvr pvt psa pod)
    as [r|e'] eqn:R; cbn [py_bind] in C; [discriminate|].
  injection C as <-.
  destruct (get_resultados_string_exn _ _ _ _ _ _ _ _ _ _ _ _ R) as [-> | [-> F]];
    [now left|].
  right. split; trivial. exists dvr. now split.
Qed.

Lemma calcular_exceptions_witness :
  calcular locale.pt_BR 4300 campos_invalidos = Excecao ValueError /\
  (ValueError = ValueError \/
   (ValueError = OverflowError /\
    exists dias_vr, int_or_0 4300 (dias_vr_var campos_invalidos) = Ok dias_vr /\
                    Py.float_of_int dias_vr = Raise OverflowError)).
Proof.
  split; [reflexivity|].
  apply (calcular_exceptions locale.pt_BR 4300 campos_invalidos ValueError); reflexivity.
Defined.

(** ** The toggles of the discounts *)

Lemma get_resultados_string_linhas loc lim sb ad ip vvr dvr pvr pvt psa pod r :
  get_resultados_string loc lim sb ad ip vvr dvr pvr pvt psa pod = Ok r ->
  exists v, calcular_valores lim sb ad ip vvr dvr pvr pvt psa pod = Ok v /\
            r = Py.join Py.nl (linhas loc sb ad dvr pvr pvt psa pod v).
Proof.
  unfold get_resultados_string.
  destruct (calcular_valores lim sb ad ip vvr dvr pvr pvt psa pod) as [v|e]; [|discriminate].
  cbn [py_bind]. intros [= <-]. now exists v.
Qed.

Lemma limpar_formato_empty p : limpar_formato "" = Ok p -> p = 0%float.
Proof. intros [= <-]. reflexivity. Qed.

Lemma calcular_vr_zero vvr dvr : calcular_vr vvr dvr 0 = Ok 0%float.
Proof. reflexivity. Qed.

Lemma calcular_vt_zero sb : calcular_vt sb 0 = Ok 0%float.
Proof. reflexivity. Qed.

(** The result of [calcular] on a form: the values computed from what the
    entries read, and the lines joined into the text. *)
Lemma calcular_linhas loc lim f resultados :
  calcular loc lim f = Resultado resultados ->
  exists sb ad ip vvr dvr pvr pvt psa pod v,
    limpar_formato (desconto_vr_perc_var f) = Ok pvr /\
    limpar_formato (desconto_vt_perc_var f) = Ok pvt /\
    limpar_formato (desconto_saude_perc_var f) = Ok psa /\
    limpar_formato (desconto_odonto_perc_var f) = Ok pod /\
    calcular_valores lim sb ad ip vvr dvr pvr pvt psa pod = Ok v /\
    resultados = Py.join Py.nl (linhas loc sb ad dvr pvr pvt psa pod v).
Proof.
  intros H. apply calcular_inv in H.
  destruct H as (_ & _ & _ & _ & _ & _ & _ & _ & _ & _ & _ &
                 sb & ad & ip & vvr & dvr & pvr & pvt & psa & pod &
                 _ & _ & _ & _ & _ & Hvr & Hvt & Hsa & Hod & R).
  destruct (get_resultados_string_linhas _ _ _ _ _ _ _ _ _ _ _ _ R) as (v & Hv & ->).
  exists sb, ad, ip, vvr, dvr, pvr, pvt, psa, pod, v. repeat split; trivial.
Qed.

(** With a percentage of [0] no line of the list is the line of that
    discount. *)
Lemma sem_linha_vr loc sb ad dvr pvt psa pod v :
  sem_linha_de_desconto "VR" (linhas loc sb ad dvr 0 pvt psa pod v) = true.
Proof.
  unfold sem_linha_de_desconto, linhas, linha_desconto, linha_inss.
  change (Py.gtb 0 0) with false.
  destruct (Py.gtb pvt 0), (Py.gtb psa 0), (Py.gtb pod 0); reflexivity.
Qed.

Lemma sem_linha_vt loc sb ad dvr pvr psa pod v :
  sem_linha_de_desconto "VT" (linhas loc sb ad dvr pvr 0 psa pod v) = true.
Proof.
  unfold sem_linha_de_desconto, linhas, linha_desconto, linha_inss.
  change (Py.gtb 0 0) with false.
  destruct (Py.gtb pvr 0), (Py.gtb psa 0), (Py.gtb pod 0); reflexivity.
Qed.

Lemma sem_linha_saude loc sb ad dvr pvr pvt pod v :
  sem_linha_de_desconto "Plano de Saúde" (linhas loc sb ad dvr pvr pvt 0 pod v) = true.
Proof.
  unfold sem_linha_de_desconto, linhas, linha_desconto, linha_inss.
  change (Py.gtb 0 0) with false.
  destruct (Py.gtb pvr 0), (Py.gtb pvt 0), (Py.gtb pod 0); reflexivity.
Qed.

Lemma sem_linha_odonto loc sb ad dvr pvr pvt psa v :
  sem_linha_de_desconto "Plano Odontológico" (linhas loc sb ad dvr pvr pvt psa 0 v) = true.
Proof.
  unfold sem_linha_de_desconto, linhas, linha_desconto, linha_inss.
  change (Py.gtb 0 0) with false.
  destruct (Py.gtb pvr 0), (Py.gtb pvt 0), (Py.gtb psa 0); reflexivity.
Qed.

(** A discount switched off does not enter the result. On ASCII texts, a
    toggle whose switch is ["S"] leaves the form as it is, and one whose
    switch is anything else empties the percentage of its discount; the
    result that [calcular] then shows is the text of the nineteen lines
    computed with that percentage at [0]: the discount is [0] in the total
    of the discounts and in the net salary, the line of the discount (the
    line 8, 9, 10 or 11 of the list) is its notice "Sem desconto de ...",
    and no line of the list is a line "Valor Desconto ..." of that
    discount. *)
Theorem toggle_off_no_discount (loc : option locale.lconv) (max_str_digits : Z)
    (f : campos) (resultados : string) :
  campos_ascii f = true ->
  ((tem_desconto_vr_var f = "S" -> toggle_vr f = f) /\
   (tem_desconto_vr_var f <> "S" ->
    desconto_vr_perc_var (toggle_vr f) = "" /\
    (calcular loc max_str_digits (toggle_vr f) = Resultado resultados ->
     exists sb ad ip vvr dvr pvt psa pod v,
       calcular_valores max_str_digits sb ad ip vvr dvr 0 pvt psa pod = Ok v /\
       resultados = Py.join Py.nl (linhas loc sb ad dvr 0 pvt psa pod v) /\
       desconto_vr v = 0%float /\
       nth_error (linhas loc sb ad dvr 0 pvt psa pod v) 8
         = Some (Py.nl ++ "- Sem desconto de VR.") /\
       sem_linha_de_desconto "VR" (linhas loc sb ad dvr 0 pvt psa pod v) = true))) /\
  ((tem_desconto_vt_var f = "S" -> toggle_vt f = f) /\
   (tem_desconto_vt_var f <> "S" ->
    desconto_vt_perc_var (toggle_vt f) = "" /\
    (calcular loc max_str_digits (toggle_vt f) = Resultado resultados ->
     exists sb ad ip vvr dvr pvr psa pod v,
       calcular_valores max_str_digits sb ad ip vvr dvr pvr 0 psa pod = Ok v /\
       resultados = Py.join Py.nl (linhas loc sb ad dvr pvr 0 psa pod v) /\
       desconto_vt v = 0%float /\
       nth_error (linhas loc sb ad dvr pvr 0 psa pod v) 9
         = Some (Py.nl ++ "- Sem desconto de VT.") /\
       sem_linha_de_desconto "VT" (linhas loc sb ad dvr pvr 0 psa pod v) = true))) /\
  ((tem_desconto_saude_var f = "S" -> toggle_saude f = f) /\
   (tem_desconto_saude_var f <> "S" ->
    desconto_saude_perc_var (toggle_saude f) = "" /\
    (calcular loc max_str_digits (toggle_saude f) = Resultado resultados ->
     exists sb ad ip vvr dvr pvr pvt pod v,
       calcular_valores max_str_digits sb ad ip vvr dvr pvr pvt 0 pod = Ok v /\
       resultados = Py.join Py.nl (linhas loc sb ad dvr pvr pvt 0 pod v) /\
       desconto_saude v = 0%float /\
       nth_error (linhas loc sb ad dvr pvr pvt 0 pod v) 10
         = Some (Py.nl ++ "- Sem desconto de Plano de Saúde.") /\
       sem_linha_de_desconto "Plano de Saúde" (linhas loc sb ad dvr pvr pvt 0 pod v) = true))) /\
  ((tem_desconto_odonto_var f = "S" -> toggle_odonto f = f) /\
   (tem_desconto_odonto_var f <> "S" ->
    desconto_odonto_perc_var (toggle_odonto f) = "" /\
    (calcular loc max_str_digits (toggle_odonto f) = Resultado resultados ->
     exists sb ad ip vvr dvr pvr pvt psa v,
       calcular_valores max_str_digits sb ad ip vvr dvr pvr pvt psa 0 = Ok v /\
       resultados = Py.join Py.nl (linhas loc sb ad dvr pvr pvt psa 0 v) /\
       desconto_odonto v = 0%float /\
       nth_error (linhas loc sb ad dvr pvr pvt psa 0 v) 11
         = Some (Py.nl ++ "- Sem desconto de Plano Odontológico.") /\
       sem_linha_de_desconto "Plano Odontológico" (linhas loc sb ad dvr pvr pvt psa 0 v) = true))).
Proof.
  intros _.
  split; [|split; [|split]]; (split; [intros E|intros Hs]).
  - unfold toggle_vr. now rewrite E.
  - unfold toggle_vr. destruct (String.eqb_spec (tem_desconto_vr_var f) "S"); [contradiction|].
    split; [reflexivity|]. intros H.
    destruct (calcular_linhas _ _ _ _ H)
      as (sb & ad & ip & vvr & dvr & pvr & pvt & psa & pod & v & Hvr & _ & _ & _ & Hv & ->).
    cbn in Hvr. apply limpar_formato_empty in Hvr. subst pvr.
    exists sb, ad, ip, vvr, dvr, pvt, psa, pod, v.
    split; [exact Hv|]. split; [reflexivity|]. split; [|split; [reflexivity|]].
    + destruct (calcular_valores_inv _ _ _ _ _ _ _ _ _ _ _ Hv) as (_ & _ & Er & _).
      rewrite calcular_vr_zero in Er. now injection Er.
    + apply sem_linha_vr.
  - unfold toggle_vt. now rewrite E.
  - unfold toggle_vt. destruct (String.eqb_spec (tem_desconto_vt_var f) "S"); [contradiction|].
    split; [reflexivity|]. intros H.
    destruct (calcular_linhas _ _ _ _ H)
      as (sb & ad & ip & vvr & dvr & pvr & pvt & psa & pod & v & _ & Hvt & _ & _ & Hv & ->).
    cbn in Hvt. apply limpar_formato_empty in Hvt. subst pvt.
    exists sb, ad, ip, vvr, dvr, pvr, psa, pod, v.
    split; [exact Hv|]. split; [reflexivity|]. split; [|split; [reflexivity|]].
    + destruct (calcular_valores_inv _ _ _ _ _ _ _ _ _ _ _ Hv) as (_ & _ & _ & Er & _).
      rewrite calcular_vt_zero in Er. now injection Er.
    + apply sem_linha_vt.
  - unfold toggle_saude. now rewrite E.
  - unfold toggle_saude.
    destruct (String.eqb_spec (tem_desconto_saude_var f) "S"); [contradiction|].
    split; [reflexivity|]. intros H.
    destruct (calcular_linhas _ _ _ _ H)
      as (sb & ad & ip & vvr & dvr & pvr & pvt & psa & pod & v & _ & _ & Hsa & _ & Hv & ->).
    cbn in Hsa. apply limpar_formato_empty in Hsa. subst psa.
    exists sb, ad, ip, vvr, dvr, pvr, pvt, pod, v.
    split; [exact Hv|]. split; [reflexivity|]. split; [|split; [reflexivity|]].
    + destruct (calcular_valores_inv _ _ _ _ _ _ _ _ _ _ _ Hv) as (_ & _ & _ & _ & Er & _).
      rewrite calcular_vt_zero in Er. now injection Er.
    + apply sem_linha_saude.
  - unfold toggle_odonto. now rewrite E.
  - unfold toggle_odonto.
    destruct (String.eqb_spec (tem_desconto_odonto_var f) "S"); [contradiction|].
    split; [reflexivity|]. intros H.
    destruct (calcular_linhas _ _ _ _ H)
      as (sb & ad & ip & vvr & dvr & pvr & pvt & psa & pod & v & _ & _ & _ & Hod & Hv & ->).
    cbn in Hod. apply limpar_formato_empty in Hod. subst pod.
    exists sb, ad, ip, vvr, dvr, pvr, pvt, psa, v.
    split; [exact Hv|]. split; [reflexivity|]. split; [|split; [reflexivity|]].
    + destruct (calcular_valores_inv _ _ _ _ _ _ _ _ _ _ _ Hv)
        as (_ & _ & _ & _ & _ & Er & _).
      rewrite calcular_vt_zero in Er. now injection Er.
    + apply sem_linha_odonto.
Qed.

Lemma toggle_off_no_discount_witness :
  desconto_vt_perc_var campos_exemplo = "6" /\
  desconto_vt_perc_var (toggle_vt campos_exemplo) = "" /\
  exists resultados sb ad ip vvr dvr pvr psa pod v,
    calcular locale.pt_BR 4300 (toggle_vt campos_exemplo) = Resultado resultados /\
    calcular_valores 4300 sb ad ip vvr dvr pvr 0 psa pod = Ok v /\
    resultados = Py.join Py.nl (linhas locale.pt_BR sb ad dvr pvr 0 psa pod v) /\
    desconto_vt v = 0%float /\
    nth_error (linhas locale.pt_BR sb ad dvr pvr 0 psa pod v) 9
      = Some (Py.nl ++ "- Sem desconto de VT.") /\
    sem_linha_de_desconto "VT" (linhas locale.pt_BR sb ad dvr pvr 0 psa pod v) = true.
Proof.
  split; [reflexivity|].
  assert (R : exists r, calcular locale.pt_BR 4300 (toggle_vt campos_exemplo) = Resultado r)
    by (eexists; vm_compute; reflexivity).
  destruct R as [r Hr].
  destruct (proj2 (proj1 (proj2 (toggle_off_no_discount locale.pt_BR 4300 campos_exemplo r
                                   eq_refl)))
              ltac:(discriminate)) as [E H].
  split; [exact E|].
  destruct (H Hr) as (sb & ad & ip & vvr & dvr & pvr & psa & pod & v & A & B & C & D & F).
  exists r, sb, ad, ip, vvr, dvr, pvr, psa, pod, v. repeat split; trivial.
Defined.
